(** * Menu Intelligence Suite: the retrieval core, embedded and verified

    A shallow embedding of [src/core] (score fusion, similarity clustering,
    label tagging, content recommendation, evaluation metrics and the text
    normalizer) together with the properties the specification states about
    them.

    Conventions of the embedding
    - Python floats are idealised as exact rationals ([Qc]); the two
      irrational numpy kernels the code calls ([np.linalg.norm] and
      [np.log2]) are parameters of the definitions that use them.
    - Item identifiers are integers ([Z]), as in the tests and the API
      schemas; group names, labels, user ids and blocking keys are strings.
    - A Python [dict] is an insertion-ordered association list ([PyDict]);
      a Python [set] is a [gset].
    - A raised exception is a value of [exn]; functions that can raise
      return a [result]. *)

From Stdlib Require Import QArith Qcanon Lia Sorted.
From stdpp Require Import numbers.
From stdpp Require Import base list list_numbers gmap strings pretty.

#[local] Set Warnings "-clear-no-such-hyp".

(** ** Exceptions *)

Inductive exn : Type :=
  | ValueError (msg : string)
  | IndexError
  | KeyError
  | ZeroDivisionError
  | RecursionError.

Inductive result (A : Type) : Type :=
  | Ok (a : A)
  | Raise (e : exn).
Arguments Ok {A} a.
Arguments Raise {A} e.

Definition rbind {A B : Type} (m : result A) (f : A -> result B) : result B :=
  match m with
  | Ok a => f a
  | Raise e => Raise e
  end.

Notation "x <-r m ;; k" := (rbind m (fun x => k))
  (at level 100, m at next level, right associativity).

Definition is_ok {A : Type} (m : result A) : Prop :=
  match m with Ok _ => True | Raise _ => False end.

(** [for x in l: acc = step(acc, x)], stopping at the first exception. *)
Fixpoint rfold {A B : Type} (step : A -> B -> result A) (l : list B) (acc : A)
  : result A :=
  match l with
  | [] => Ok acc
  | x :: l' => acc' <-r step acc x ;; rfold step l' acc'
  end.

(** ** Numbers *)

Definition Qc_of_nat (n : nat) : Qc := Qc_of_Z (Z.of_nat n).

(** The guard constant [1e-9]. *)
Definition eps : Qc := Q2Qc (1 # 1000000000).

Definition Qc_geb (x y : Qc) : bool := bool_decide (y ≤ x)%Qc.
Definition Qc_ltb (x y : Qc) : bool := bool_decide (x < y)%Qc.

(** Python's [min] and [max] of a non-empty list (0 for the empty list,
    where Python raises; every caller below guards against it). *)
Definition Qc_min2 (a b : Qc) : Qc := if Qc_ltb b a then b else a.
Definition Qc_max2 (a b : Qc) : Qc := if Qc_ltb a b then b else a.

Definition list_min (l : list Qc) : Qc :=
  match l with
  | [] => 0%Qc
  | x :: l' => fold_left Qc_min2 l' x
  end.

Definition list_max (l : list Qc) : Qc :=
  match l with
  | [] => 0%Qc
  | x :: l' => fold_left Qc_max2 l' x
  end.

Definition Qc_sum (l : list Qc) : Qc := fold_left Qcplus l 0%Qc.

(** [float(np.mean(l)) if l else 0.0] *)
Definition mean_or_zero (l : list Qc) : Qc :=
  match l with
  | [] => 0%Qc
  | _ => (Qc_sum l / Qc_of_nat (length l))%Qc
  end.

(** ** Slices and sorting *)

(** [l[:k]] for a Python int [k]: a negative [k] counts from the end. *)
Definition slice_to {A : Type} (l : list A) (k : Z) : list A :=
  if bool_decide (0 ≤ k)%Z then take (Z.to_nat k) l
  else take (length l - Z.to_nat (- k)) l.

(** [sorted(l, key=key, reverse=True)]: a stable sort, descending in the
    key; elements with equal keys keep their relative order. *)
Fixpoint insert_desc {A : Type} (key : A -> Qc) (x : A) (l : list A) : list A :=
  match l with
  | [] => [x]
  | y :: l' =>
      if Qc_ltb (key x) (key y) then y :: insert_desc key x l'
      else x :: y :: l'
  end.

Definition sorted_desc {A : Type} (key : A -> Qc) (l : list A) : list A :=
  foldr (insert_desc key) [] l.

(** The order [sorted(..., reverse=True)] establishes: an element stands
    before every element with a key that is not larger. *)
Definition desc_by {A : Type} (key : A -> Qc) (a b : A) : Prop :=
  (key b ≤ key a)%Qc.

(** [abs] *)
Definition Qc_abs (x : Qc) : Qc := if Qc_ltb x 0%Qc then (- x)%Qc else x.

(** ** Python dictionaries *)

Module PyDict.
Section Dict.
Context {K V : Type} `{EqDecision K}.

(** [d.get(k)] *)
Fixpoint get (d : list (K * V)) (k : K) : option V :=
  match d with
  | [] => None
  | (k', v) :: d' => if decide (k' = k) then Some v else get d' k
  end.

(** [d[k] = v]: an existing key keeps its position, a new key goes last. *)
Fixpoint set (d : list (K * V)) (k : K) (v : V) : list (K * V) :=
  match d with
  | [] => [(k, v)]
  | (k', v') :: d' =>
      if decide (k' = k) then (k', v) :: d' else (k', v') :: set d' k v
  end.

Definition keys (d : list (K * V)) : list K := d.*1.
Definition values (d : list (K * V)) : list V := d.*2.

(** [dict(items)] and the comprehension [{k: v for k, v in items}]. *)
Definition of_items (items : list (K * V)) : list (K * V) :=
  fold_left (fun d kv => set d kv.1 kv.2) items [].
End Dict.
End PyDict.

(** ** [core/utils.py] *)

Module Utils.

Definition min_max_normalize (scores : list Qc) : list Qc :=
  match scores with
  | [] => []
  | _ =>
      let min_score := list_min scores in
      let max_score := list_max scores in
      if Qc_ltb (max_score - min_score)%Qc eps
      then replicate (length scores) 1%Qc
      else map (fun s => ((s - min_score) / (max_score - min_score))%Qc) scores
  end.

(** [merge_scores] either trips one of its two [assert] statements or
    returns. *)
Inductive asserted (A : Type) : Type :=
  | Passed (a : A)
  | AssertionError (msg : string).
Arguments Passed {A} a.
Arguments AssertionError {A} msg.

(** The body of the inner loop of [merge_scores], for one
    [((item_id, _), norm_score)] and the weight of the list. *)
Definition merge_step (weight : Qc) (combined : list (Z * Qc))
    (entry : (Z * Qc) * Qc) : list (Z * Qc) :=
  let item_id := entry.1.1 in
  let norm_score := entry.2 in
  let combined :=
    match PyDict.get combined item_id with
    | None => PyDict.set combined item_id 0%Qc
    | Some _ => combined
    end in
  PyDict.set combined item_id
    (default 0%Qc (PyDict.get combined item_id) + weight * norm_score)%Qc.

(** The body of the outer loop, for one list and its weight: an empty
    list is skipped, the scores of another are normalized and added. *)
Definition merge_list (combined : list (Z * Qc))
    (lw : list (Z * Qc) * Qc) : list (Z * Qc) :=
  match lw.1 with
  | [] => combined
  | ids_scores =>
      let scores := ids_scores.*2 in
      let normalized := min_max_normalize scores in
      fold_left (merge_step lw.2) (zip ids_scores normalized) combined
  end.

(** After the first assertion [weights[idx]] exists for every [idx] of the
    enumeration, so the outer loop runs over the lists paired with their
    weights. *)
Definition merge_scores (ids_scores_list : list (list (Z * Qc)))
    (weights : list Qc) : asserted (list (Z * Qc)) :=
  if bool_decide (length ids_scores_list ≠ length weights)
  then AssertionError "Mismatched lengths"
  else if negb (Qc_ltb (Qc_abs (Qc_sum weights - 1)%Qc) (Q2Qc (1 # 1000000)))
  then AssertionError "Weights must sum to 1.0"
  else
    let combined :=
      fold_left merge_list (zip ids_scores_list weights) [] in
    Passed (sorted_desc snd combined).

End Utils.

(** ** [core/hybrid.py] *)

Module Hybrid.

(** Lines 31-34 and 36-39: replace the values of a score dictionary by
    their normalized values, key by key. *)
Definition normalize_dict (d : list (Z * Qc)) : list (Z * Qc) :=
  PyDict.of_items (zip (PyDict.keys d) (Utils.min_max_normalize (PyDict.values d))).

Definition combine_scores (sparse_scores dense_scores : list (Z * Qc))
    (alpha : Qc) : list (Z * Qc) :=
  let sparse_dict := PyDict.of_items sparse_scores in
  let dense_dict := PyDict.of_items dense_scores in
  let all_ids : gset Z :=
    list_to_set (PyDict.keys sparse_dict) ∪ list_to_set (PyDict.keys dense_dict) in
  let sparse_dict :=
    match sparse_scores with [] => sparse_dict | _ => normalize_dict sparse_dict end in
  let dense_dict :=
    match dense_scores with [] => dense_dict | _ => normalize_dict dense_dict end in
  let combined :=
    fold_left
      (fun combined id_ =>
         let s := default 0%Qc (PyDict.get sparse_dict id_) in
         let d := default 0%Qc (PyDict.get dense_dict id_) in
         PyDict.set combined id_ (alpha * s + (1 - alpha) * d)%Qc)
      (elements all_ids) [] in
  sorted_desc snd combined.

(** The normalized value of one score [s] within the score list [l], in the
    words of the specification: 1 when the spread of [l] is below the
    epsilon, otherwise [(s - min) / (max - min)]. *)
Definition normalized_in (l : list Qc) (s : Qc) : Qc :=
  if Qc_ltb (list_max l - list_min l)%Qc eps then 1%Qc
  else ((s - list_min l) / (list_max l - list_min l))%Qc.

(** [hybrid_search]; a retriever is its [search(query, k)] method, which
    may raise. *)
Definition hybrid_search (query : list Z)
    (sparse_retriever dense_retriever : list Z -> Z -> result (list (Z * Qc)))
    (k : Z) (alpha : Qc) (sparse_k dense_k : Z) : result (list (Z * Qc)) :=
  sparse_results <-r sparse_retriever query sparse_k ;;
  dense_results <-r dense_retriever query dense_k ;;
  let combined := combine_scores sparse_results dense_results alpha in
  Ok (slice_to combined k).

End Hybrid.

(** ** [core/eval.py] *)

Module Eval.

Definition length_mismatch : exn :=
  ValueError "Predictions and ground truth must have same length".

(** The loop [for rank, item in enumerate(pred, start=1): if item in
    true_set: ... break]: the 1-based rank of the first relevant item. *)
Fixpoint first_hit_from (rank : nat) (pred : list Z) (true_set : gset Z)
  : option nat :=
  match pred with
  | [] => None
  | item :: pred' =>
      if bool_decide (item ∈ true_set) then Some rank
      else first_hit_from (S rank) pred' true_set
  end.

Definition first_hit (pred : list Z) (true_set : gset Z) : option nat :=
  first_hit_from 1 pred true_set.

Definition recall_at_k (predictions ground_truth : list (list Z)) (k : Z)
  : result Qc :=
  if bool_decide (length predictions ≠ length ground_truth)
  then Raise length_mismatch
  else
    let recalls :=
      fold_left
        (fun recalls pt =>
           let true_set : gset Z := list_to_set pt.2 in
           if bool_decide (true_set = ∅) then recalls
           else
             let pred_k := slice_to pt.1 k in
             let pred_set : gset Z := list_to_set pred_k in
             let recall :=
               (Qc_of_nat (size (pred_set ∩ true_set))
                / Qc_of_nat (size true_set))%Qc in
             recalls ++ [recall])
        (zip predictions ground_truth) [] in
    Ok (mean_or_zero recalls).

Definition mean_reciprocal_rank (predictions ground_truth : list (list Z))
  : result Qc :=
  if bool_decide (length predictions ≠ length ground_truth)
  then Raise length_mismatch
  else
    let reciprocal_ranks :=
      fold_left
        (fun reciprocal_ranks pt =>
           let true_set : gset Z := list_to_set pt.2 in
           if bool_decide (true_set = ∅) then reciprocal_ranks
           else
             match first_hit pt.1 true_set with
             | Some rank => reciprocal_ranks ++ [(1 / Qc_of_nat rank)%Qc]
             | None => reciprocal_ranks ++ [0%Qc]
             end)
        (zip predictions ground_truth) [] in
    Ok (mean_or_zero reciprocal_ranks).

Definition precision_at_k (predictions ground_truth : list (list Z)) (k : Z)
  : result Qc :=
  if bool_decide (length predictions ≠ length ground_truth)
  then Raise length_mismatch
  else
    let precisions :=
      fold_left
        (fun precisions pt =>
           let true_set : gset Z := list_to_set pt.2 in
           if bool_decide (true_set = ∅) then precisions
           else
             let pred_k := slice_to pt.1 k in
             let pred_set : gset Z := list_to_set pred_k in
             let precision :=
               if bool_decide (0 < k)%Z
               then (Qc_of_nat (size (pred_set ∩ true_set)) / Qc_of_Z k)%Qc
               else 0%Qc in
             precisions ++ [precision])
        (zip predictions ground_truth) [] in
    Ok (mean_or_zero precisions).

Section Ndcg.
(** [np.log2], on the integers it is applied to. *)
Variable log2 : Z -> Qc.

(** [for i, item in enumerate(pred_k, start=i): if item in true_set:
    dcg += 1.0 / np.log2(i + 1)] *)
Fixpoint dcg_from (i : Z) (pred_k : list Z) (true_set : gset Z) (dcg : Qc)
  : Qc :=
  match pred_k with
  | [] => dcg
  | item :: rest =>
      dcg_from (i + 1)%Z rest true_set
        (if bool_decide (item ∈ true_set)
         then (dcg + 1 / log2 (i + 1)%Z)%Qc else dcg)
  end.

(** [sum(1.0 / np.log2(i + 1) for i in range(1, m + 1))] *)
Definition idcg_upto (m : Z) : Qc :=
  Qc_sum (map (fun i : nat => (1 / log2 (Z.of_nat i + 1)%Z)%Qc)
              (seq 1 (Z.to_nat m))).

Definition ndcg_at_k (predictions ground_truth : list (list Z)) (k : Z)
  : result Qc :=
  if bool_decide (length predictions ≠ length ground_truth)
  then Raise length_mismatch
  else
    let ndcgs :=
      fold_left
        (fun ndcgs pt =>
           let true_set : gset Z := list_to_set pt.2 in
           if bool_decide (true_set = ∅) then ndcgs
           else
             let dcg := dcg_from 1 (slice_to pt.1 k) true_set 0%Qc in
             let idcg := idcg_upto (Z.of_nat (size true_set) `min` k) in
             let ndcg := if Qc_ltb 0%Qc idcg then (dcg / idcg)%Qc else 0%Qc in
             ndcgs ++ [ndcg])
        (zip predictions ground_truth) [] in
    Ok (mean_or_zero ndcgs).
End Ndcg.

Record query_metrics : Type := {
  query_id : string;
  num_relevant : nat;
  hit : nat;
  first_hit_rank : option nat;
  recall : Qc;
  precision : Qc;
}.

Definition per_query_metrics (predictions ground_truth : list (list Z))
    (query_ids : option (list string)) (k : Z) : list query_metrics :=
  let query_ids :=
    match query_ids with
    | None => map (fun i : nat => "q" +:+ pretty i) (seq 0 (length predictions))
    | Some ids => ids
    end in
  fold_left
    (fun results qpt =>
       let '(qid, (pred, truth)) := qpt in
       let true_set : gset Z := list_to_set truth in
       let pred_k := slice_to pred k in
       let pred_set : gset Z := list_to_set pred_k in
       results ++ [
         {| query_id := qid;
            num_relevant := size true_set;
            hit := if bool_decide (pred_set ∩ true_set = ∅) then 0 else 1;
            first_hit_rank := first_hit pred true_set;
            recall :=
              if bool_decide (true_set = ∅) then 0%Qc
              else (Qc_of_nat (size (pred_set ∩ true_set))
                    / Qc_of_nat (size true_set))%Qc;
            precision :=
              if bool_decide (0 < k)%Z
              then (Qc_of_nat (size (pred_set ∩ true_set)) / Qc_of_Z k)%Qc
              else 0%Qc |} ])
    (zip query_ids (zip predictions ground_truth)) [].

(** The four averaged metrics in the words of the specification: the score
    of one query, and the mean of the scores of the queries whose relevant
    set is not empty. *)
Definition has_relevant (pt : list Z * list Z) : bool :=
  bool_decide (pt.2 ≠ []).

Definition average_over_relevant (score : list Z -> list Z -> Qc)
    (predictions ground_truth : list (list Z)) : Qc :=
  mean_or_zero
    (map (fun pt => score pt.1 pt.2)
         (List.filter has_relevant (zip predictions ground_truth))).

Definition hits_at (k : Z) (pred truth : list Z) : nat :=
  size ((list_to_set (slice_to pred k) : gset Z) ∩ list_to_set truth).

Definition recall_query (k : Z) (pred truth : list Z) : Qc :=
  (Qc_of_nat (hits_at k pred truth)
   / Qc_of_nat (size (list_to_set truth : gset Z)))%Qc.

Definition precision_query (k : Z) (pred truth : list Z) : Qc :=
  if bool_decide (0 < k)%Z then (Qc_of_nat (hits_at k pred truth) / Qc_of_Z k)%Qc
  else 0%Qc.

Definition reciprocal_rank_query (pred truth : list Z) : Qc :=
  match first_hit pred (list_to_set truth) with
  | Some rank => (1 / Qc_of_nat rank)%Qc
  | None => 0%Qc
  end.

Definition ndcg_query (log2 : Z -> Qc) (k : Z) (pred truth : list Z) : Qc :=
  let true_set : gset Z := list_to_set truth in
  let idcg := idcg_upto log2 (Z.of_nat (size true_set) `min` k) in
  if Qc_ltb 0%Qc idcg
  then (dcg_from log2 1 (slice_to pred k) true_set 0%Qc / idcg)%Qc
  else 0%Qc.

End Eval.

(** ** [core/normalize.py] *)

Module Normalize.

(** Text is a sequence of Unicode code points. *)
Definition str : Type := list Z.

Definition in_range (lo hi c : Z) : bool :=
  bool_decide (lo ≤ c)%Z && bool_decide (c ≤ hi)%Z.

(** The characters [str.strip()] removes: those for which [str.isspace]
    holds. *)
Definition is_space (c : Z) : bool :=
  in_range 0x09 0x0D c || in_range 0x1C 0x20 c || bool_decide (c = 0x85)%Z
  || bool_decide (c = 0xA0)%Z || bool_decide (c = 0x1680)%Z
  || in_range 0x2000 0x200A c || bool_decide (c = 0x2028)%Z
  || bool_decide (c = 0x2029)%Z || bool_decide (c = 0x202F)%Z
  || bool_decide (c = 0x205F)%Z || bool_decide (c = 0x3000)%Z.

Fixpoint lstrip (s : str) : str :=
  match s with
  | [] => []
  | c :: s' => if is_space c then lstrip s' else s
  end.

Definition rstrip (s : str) : str := reverse (lstrip (reverse s)).
Definition strip (s : str) : str := rstrip (lstrip s).

(** [str.lower()] on the scripts the module is written for (English and
    Arabic): the cased letters of ASCII and Latin-1 are mapped to their
    lower-case forms, Arabic has no case; code points of other cased
    scripts are left as they are in this model. *)
Definition lower_char (c : Z) : Z :=
  if in_range 0x41 0x5A c then (c + 32)%Z
  else if in_range 0xC0 0xDE c && negb (bool_decide (c = 0xD7)%Z) then (c + 32)%Z
  else c.

Definition lower (s : str) : str := map lower_char s.

(** [AR_DIGITS]: Arabic-Indic digits U+0660..U+0669 to ASCII digits. *)
Definition translate_digit (c : Z) : Z :=
  if in_range 0x660 0x669 c then (c - 0x660 + 0x30)%Z else c.

(** [AR_DIAC]: [ؗ-ًؚ-ْ] *)
Definition is_diacritic (c : Z) : bool :=
  in_range 0x617 0x61A c || in_range 0x64B 0x652 c.

(** [ALEF]: U+0622, U+0623 and U+0625. *)
Definition is_alef_variant (c : Z) : bool :=
  bool_decide (c = 0x622)%Z || bool_decide (c = 0x623)%Z
  || bool_decide (c = 0x625)%Z.

(** [ALEF.sub('\u0627', s)] and [s.replace('\u0649', '\u064A')], on one
    character. *)
Definition unify_alef (c : Z) : Z := if is_alef_variant c then 0x627%Z else c.
Definition unify_yaa (c : Z) : Z :=
  if bool_decide (c = 0x649)%Z then 0x64A%Z else c.

Definition normalize_text (s : str) (remove_diacritics : bool) : str :=
  match s with
  | [] => []
  | _ =>
      let s := lower (strip s) in
      let s := map translate_digit s in
      let s :=
        if remove_diacritics then List.filter (fun c => negb (is_diacritic c)) s
        else s in
      let s := map unify_alef s in
      let s := map unify_yaa s in
      s
  end.



Definition normalize_batch (texts : list str) (remove_diacritics : bool)
  : list str :=
  map (fun t => normalize_text t remove_diacritics) texts.

End Normalize.

(** ** [core/embeddings.py] *)

Module Embeddings.

Definition vec : Type := list Qc.

Definition dot (a b : vec) : Qc := Qc_sum (zip_with Qcmult a b).

Section Kernels.
(** [np.linalg.norm] of one row. *)
Variable l2_norm : vec -> Qc.
(** [SentenceTransformer.encode] on one (already normalized) text; the
    batch call returns one row per text. *)
Variable model_encode : Normalize.str -> vec.

Definition encode_texts (texts : list Normalize.str) (normalize : bool)
  : list vec :=
  match texts with
  | [] => []
  | _ =>
      let texts :=
        if normalize then Normalize.normalize_batch texts true else texts in
      map model_encode texts
  end.

(** One row of [x / (np.linalg.norm(x, axis=1, keepdims=True) + 1e-9)]. *)
Definition unit_row (v : vec) : vec :=
  map (fun x => (x / (l2_norm v + eps))%Qc) v.

Definition batch_cosine_similarity (queries docs : list vec)
  : list (list Qc) :=
  let queries_norm := map unit_row queries in
  let docs_norm := map unit_row docs in
  map (fun q => map (fun d => dot q d) docs_norm) queries_norm.
End Kernels.

(** [m[i]] and [m[i, j]] on an array: an index out of range raises. *)
Definition row {A : Type} (m : list A) (i : nat) : result A :=
  match m !! i with
  | Some r => Ok r
  | None => Raise IndexError
  end.

Definition entry (m : list (list Qc)) (i j : nat) : result Qc :=
  r <-r row m i ;; row r j.

End Embeddings.

(** ** [core/tagging.py] *)

Module Tagging.
Import Embeddings.

Record label_data : Type := {
  labels : list Normalize.str;
  embeddings : list vec;
}.

Record LabelTagger : Type := {
  label_groups : list (string * list Normalize.str);
  label_embeddings : list (string * label_data);
}.

Section Tagger.
Variable l2_norm : vec -> Qc.
Variable model_encode : Normalize.str -> vec.

Definition set_labels (self : LabelTagger) (group_name : string)
    (labels : list Normalize.str) : LabelTagger :=
  let embeddings := encode_texts model_encode labels true in
  {| label_groups := PyDict.set (label_groups self) group_name labels;
     label_embeddings :=
       PyDict.set (label_embeddings self) group_name
         {| labels := labels; embeddings := embeddings |} |}.

Definition assign_labels (self : LabelTagger) (text : Normalize.str)
    (group_name : string) (top_n : Z) (threshold : Qc)
  : result (list (Normalize.str * Qc)) :=
  match PyDict.get (label_embeddings self) group_name with
  | None => Ok []
  | Some label_data =>
      text_embedding <-r row (encode_texts model_encode [text] true) 0 ;;
      let labels := labels label_data in
      let label_embs := embeddings label_data in
      similarities <-r
        row (batch_cosine_similarity l2_norm [text_embedding] label_embs) 0 ;;
      let results :=
        fold_left
          (fun results ls =>
             if Qc_geb ls.2 threshold then results ++ [(ls.1, ls.2)]
             else results)
          (zip labels similarities) [] in
      let results := sorted_desc snd results in
      Ok (slice_to results top_n)
  end.

Definition assign_all_groups (self : LabelTagger) (text : Normalize.str)
    (top_n : Z) (threshold : Qc)
  : result (list (string * list (Normalize.str * Qc))) :=
  rfold
    (fun results group_name =>
       r <-r assign_labels self text group_name top_n threshold ;;
       Ok (PyDict.set results group_name r))
    (PyDict.keys (label_groups self)) [].
End Tagger.

(** [float(np.mean(l))]: the mean of an empty list is [nan], here [None]. *)
Definition np_mean (l : list Qc) : option Qc :=
  match l with
  | [] => None
  | _ => Some (Qc_sum l / Qc_of_nat (length l))%Qc
  end.

(** The dictionary [evaluate_tagging] returns, one field per key. *)
Record tagging_metrics : Type := {
  precision : option Qc;
  recall : option Qc;
  f1 : option Qc;
  macro_precision : option Qc;
  macro_recall : option Qc;
  macro_f1 : option Qc;
}.

(** The body of the loop of [evaluate_tagging], on the three lists
    [precisions], [recalls] and [f1s]. *)
Definition tagging_step (acc : list Qc * list Qc * list Qc)
    (pt : list Normalize.str * list Normalize.str)
  : list Qc * list Qc * list Qc :=
  let pred_set : gset (list Z) := list_to_set pt.1 in
  let true_set : gset (list Z) := list_to_set pt.2 in
  if bool_decide (size pred_set = 0) && bool_decide (size true_set = 0) then
    (acc.1.1 ++ [1%Qc], acc.1.2 ++ [1%Qc], acc.2 ++ [1%Qc])
  else
    let tp := size (pred_set ∩ true_set) in
    let precision :=
      if bool_decide (0 < size pred_set)
      then (Qc_of_nat tp / Qc_of_nat (size pred_set))%Qc else 0%Qc in
    let recall :=
      if bool_decide (0 < size true_set)
      then (Qc_of_nat tp / Qc_of_nat (size true_set))%Qc else 0%Qc in
    let f1 :=
      if Qc_ltb 0%Qc (precision + recall)%Qc
      then (Qc_of_Z 2 * precision * recall / (precision + recall))%Qc
      else 0%Qc in
    (acc.1.1 ++ [precision], acc.1.2 ++ [recall], acc.2 ++ [f1]).

Definition evaluate_tagging
    (predictions ground_truth : list (list Normalize.str))
  : result tagging_metrics :=
  if bool_decide (length predictions ≠ length ground_truth)
  then Raise (ValueError "Predictions and ground truth must have same length")
  else
    let lists :=
      fold_left tagging_step (zip predictions ground_truth) ([], [], []) in
    let precisions := lists.1.1 in
    let recalls := lists.1.2 in
    let f1s := lists.2 in
    Ok {| precision := np_mean precisions;
          recall := np_mean recalls;
          f1 := np_mean f1s;
          macro_precision := np_mean precisions;
          macro_recall := np_mean recalls;
          macro_f1 := np_mean f1s |}.

End Tagging.

(** ** [core/recommend.py] *)

Module Recommend.
Import Embeddings.

Record ContentBasedRecommender : Type := {
  item_ids : list Z;
  item_embeddings : option (list vec);
  user_profiles : list (string * vec);
  item_popularity : list (Z * nat);
}.

(** [__init__] *)
Definition init : ContentBasedRecommender :=
  {| item_ids := []; item_embeddings := None;
     user_profiles := []; item_popularity := [] |}.

(** Methods run in a state-and-exception monad over the recommender
    object: a method takes [self] and gives back its outcome together with
    the object as the call leaves it. *)
Definition M (A : Type) : Type :=
  ContentBasedRecommender -> result A * ContentBasedRecommender.

Definition ret {A : Type} (a : A) : M A := fun self => (Ok a, self).

Definition bind {A B : Type} (m : M A) (f : A -> M B) : M B :=
  fun self =>
    match m self with
    | (Ok a, self') => f a self'
    | (Raise e, self') => (Raise e, self')
    end.

Notation "x <- m ;; k" := (bind m (fun x => k))
  (at level 100, m at next level, right associativity).

(** Reading an attribute of [self]. *)
Definition gets {A : Type} (f : ContentBasedRecommender -> A) : M A :=
  fun self => (Ok (f self), self).

(** Assigning to attributes of [self]. *)
Definition modify (f : ContentBasedRecommender -> ContentBasedRecommender)
  : M unit :=
  fun self => (Ok tt, f self).

Definition lift {A : Type} (r : result A) : M A := fun self => (r, self).

(** [for x in l: acc = body(acc, x)] *)
Fixpoint mfold {A B : Type} (body : A -> B -> M A) (l : list B) (acc : A)
  : M A :=
  match l with
  | [] => ret acc
  | x :: l' => acc' <- body acc x ;; mfold body l' acc'
  end.

(** [self.item_popularity[item_id] += 1] on the [defaultdict(int)]. *)
Definition popularity_incr (item_id : Z) : M unit :=
  modify (fun self =>
    {| item_ids := item_ids self;
       item_embeddings := item_embeddings self;
       user_profiles := user_profiles self;
       item_popularity :=
         PyDict.set (item_popularity self) item_id
           (default 0 (PyDict.get (item_popularity self) item_id) + 1) |}).

(** [l.index(x)] for an [x] known to be in [l]. *)
Fixpoint index_of (x : Z) (l : list Z) : nat :=
  match l with
  | [] => 0
  | y :: l' => if decide (y = x) then 0 else S (index_of x l')
  end.

(** [np.mean(rows, axis=0)] *)
Definition vec_mean (rows : list vec) : vec :=
  match rows with
  | [] => []
  | r :: rs =>
      map (fun x => (x / Qc_of_nat (length rows))%Qc)
          (fold_left (zip_with Qcplus) rs r)
  end.

Definition set_items (item_ids : list Z) (embeddings : list vec) : M unit :=
  modify (fun self =>
    {| item_ids := item_ids;
       item_embeddings := Some embeddings;
       user_profiles := user_profiles self;
       item_popularity := item_popularity self |}).

(** The popularity fallback's first loop: the most popular items that are
    not excluded, until [k] of them are collected. *)
Fixpoint popular_loop (popular : list (Z * nat)) (exclude_set : gset Z)
    (k : Z) (results : list (Z * Qc)) : list (Z * Qc) :=
  match popular with
  | [] => results
  | (item_id, count) :: popular' =>
      if bool_decide (item_id ∉ exclude_set) then
        let results := results ++ [(item_id, Qc_of_nat count)] in
        if bool_decide (k ≤ Z.of_nat (length results))%Z then results
        else popular_loop popular' exclude_set k results
      else popular_loop popular' exclude_set k results
  end.

(** Its second loop: catalog items, in catalog order, with score 0. *)
Fixpoint padding_loop (ids : list Z) (exclude_set : gset Z)
    (k : Z) (results : list (Z * Qc)) : list (Z * Qc) :=
  match ids with
  | [] => results
  | item_id :: ids' =>
      if bool_decide (item_id ∉ exclude_set)
         && bool_decide (item_id ∉ results.*1) then
        let results := results ++ [(item_id, 0%Qc)] in
        if bool_decide (k ≤ Z.of_nat (length results))%Z then results
        else padding_loop ids' exclude_set k results
      else padding_loop ids' exclude_set k results
  end.

Definition _recommend_popular (k : Z) (exclude_items : option (list Z))
  : M (list (Z * Qc)) :=
  let exclude_set : gset Z := list_to_set (default [] exclude_items) in
  item_popularity <- gets item_popularity ;;
  let popular := sorted_desc (fun x => Qc_of_nat x.2) item_popularity in
  let results := popular_loop popular exclude_set k [] in
  item_ids <- gets item_ids ;;
  if bool_decide (Z.of_nat (length results) < k)%Z
     && bool_decide (item_ids ≠ [])
  then ret (padding_loop item_ids exclude_set k results)
  else ret results.

Section Recommender.
Variable l2_norm : vec -> Qc.

Definition update_user_profile (user_id : string)
    (interacted_item_ids : list Z) : M unit :=
  embeddings <- gets item_embeddings ;;
  match embeddings with
  | None => ret tt
  | Some _ =>
      interacted_embeddings <-
        mfold
          (fun interacted_embeddings item_id =>
             ids <- gets item_ids ;;
             if bool_decide (item_id ∈ ids) then
               let idx := index_of item_id ids in
               embeddings <- gets item_embeddings ;;
               e <- lift (row (default [] embeddings) idx) ;;
               _ <- popularity_incr item_id ;;
               ret (interacted_embeddings ++ [e])
             else ret interacted_embeddings)
          interacted_item_ids [] ;;
      match interacted_embeddings with
      | [] => ret tt
      | _ =>
          let user_profile := vec_mean interacted_embeddings in
          let user_profile :=
            map (fun x => (x / (l2_norm user_profile + eps))%Qc) user_profile in
          modify (fun self =>
            {| item_ids := item_ids self;
               item_embeddings := item_embeddings self;
               user_profiles :=
                 PyDict.set (user_profiles self) user_id user_profile;
               item_popularity := item_popularity self |})
      end
  end.

(** The loop that adds the popularity boost to [similarities] in place:
    its body, for one [(i, item_id)] of [enumerate(self.item_ids)], and
    the loop. *)
Definition boost_step (popularity_boost : Qc) (max_pop : nat)
    (similarities : list Qc) (ii : nat * Z) : M (list Qc) :=
  popularity <- gets item_popularity ;;
  let count := default 0 (PyDict.get popularity ii.2) in
  if bool_decide (max_pop = 0) then lift (Raise ZeroDivisionError)
  else
    let pop_score := (Qc_of_nat count / Qc_of_nat max_pop)%Qc in
    s <- lift (row similarities ii.1) ;;
    ret (<[ii.1 := (s + popularity_boost * pop_score)%Qc]> similarities).

Definition boost_loop (popularity_boost : Qc) (max_pop : nat)
    (ids : list Z) (similarities : list Qc) : M (list Qc) :=
  mfold (boost_step popularity_boost max_pop) (imap pair ids) similarities.

Definition recommend_for_user (user_id : string) (k : Z)
    (exclude_items : option (list Z)) (popularity_boost : Qc)
  : M (list (Z * Qc)) :=
  profiles <- gets user_profiles ;;
  embeddings <- gets item_embeddings ;;
  match PyDict.get profiles user_id, embeddings with
  | Some user_profile, Some item_embeddings =>
      similarities <-
        lift (row (batch_cosine_similarity l2_norm [user_profile]
                     item_embeddings) 0) ;;
      similarities <-
        (if Qc_ltb 0%Qc popularity_boost then
           popularity <- gets item_popularity ;;
           let max_pop :=
             match popularity with
             | [] => 1
             | _ => foldr Nat.max 0 (PyDict.values popularity)
             end in
           ids <- gets item_ids ;;
           boost_loop popularity_boost max_pop ids similarities
         else ret similarities) ;;
      let exclude_set : gset Z := list_to_set (default [] exclude_items) in
      ids <- gets item_ids ;;
      let results :=
        fold_left
          (fun results (cand : Z * Qc) =>
             if bool_decide (cand.1 ∉ exclude_set) then results ++ [cand]
             else results)
          (zip ids similarities) [] in
      ret (slice_to (sorted_desc snd results) k)
  | _, _ => _recommend_popular k exclude_items
  end.

Definition recommend_similar_items (item_id : Z) (k : Z)
    (exclude_self : bool) : M (list (Z * Qc)) :=
  embeddings <- gets item_embeddings ;;
  ids <- gets item_ids ;;
  match embeddings with
  | Some item_embeddings =>
      if bool_decide (item_id ∈ ids) then
        let idx := index_of item_id ids in
        item_embedding <- lift (row item_embeddings idx) ;;
        similarities <-
          lift (row (batch_cosine_similarity l2_norm [item_embedding]
                       item_embeddings) 0) ;;
        let results :=
          fold_left
            (fun results (cand : Z * Qc) =>
               if exclude_self && bool_decide (cand.1 = item_id) then results
               else results ++ [cand])
            (zip ids similarities) [] in
        ret (slice_to (sorted_desc snd results) k)
      else ret []
  | None => ret []
  end.
End Recommender.

(** A method that leaves the object as it found it, whatever it returns. *)
Definition frame {A : Type} (m : M A) : Prop :=
  forall self, (m self).2 = self.

(** What the guarantee of the specification counts: the catalog after the
    excluded items are removed. *)
Definition catalog_after_exclusions (self : ContentBasedRecommender)
    (exclude_items : list Z) : list Z :=
  List.filter (fun i => bool_decide (i ∉ exclude_items)) (item_ids self).

(** The states the methods build: the catalog has distinct identifiers and
    one embedding row per identifier (no catalog at all before [set_items]),
    and a recorded popularity count is at least 1. *)
Definition well_formed (self : ContentBasedRecommender) : Prop :=
  NoDup (item_ids self)
  ∧ match item_embeddings self with
    | Some embeddings => length embeddings = length (item_ids self)
    | None => item_ids self = []
    end
  ∧ Forall (fun c => 1 ≤ c) (PyDict.values (item_popularity self)).

End Recommend.

(** ** [core/dedup.py] *)

Module Dedup.
Import Embeddings.

Record UnionFind : Type := {
  parent : list (Z * Z);
  rank : list (Z * nat);
}.

(** [UnionFind()] *)
Definition new : UnionFind := {| parent := []; rank := [] |}.

(** [d[k]] *)
Definition getitem {V : Type} (d : list (Z * V)) (k : Z) : result V :=
  match PyDict.get d k with
  | Some v => Ok v
  | None => Raise KeyError
  end.

(** [find] recurses along the parent pointers; [depth] is the number of
    nested calls the interpreter still allows, and running out of it is
    the [RecursionError] of Python. *)
Fixpoint find_rec (depth : nat) (self : UnionFind) (x : Z)
  : result (UnionFind * Z) :=
  match depth with
  | 0 => Raise RecursionError
  | S depth' =>
      match PyDict.get (parent self) x with
      | None =>
          Ok ({| parent := PyDict.set (parent self) x x;
                 rank := PyDict.set (rank self) x 0 |}, x)
      | Some p =>
          if bool_decide (p ≠ x) then
            sr <-r find_rec depth' self p ;;
            Ok ({| parent := PyDict.set (parent sr.1) x sr.2;
                   rank := rank sr.1 |}, sr.2)
          else Ok (self, p)
      end
  end.

(** A chain of parent pointers visits no node twice, so one call per node
    of the structure, and one for a node that is new, always suffices
    ([find_total] below). *)
Definition find (self : UnionFind) (x : Z) : result (UnionFind * Z) :=
  find_rec (S (length (parent self))) self x.

Definition union (self : UnionFind) (x y : Z) : result UnionFind :=
  sx <-r find self x ;;
  let root_x := sx.2 in
  sy <-r find sx.1 y ;;
  let root_y := sy.2 in
  let self := sy.1 in
  if bool_decide (root_x = root_y) then Ok self
  else
    rank_x <-r getitem (rank self) root_x ;;
    rank_y <-r getitem (rank self) root_y ;;
    if bool_decide (rank_x < rank_y) then
      Ok {| parent := PyDict.set (parent self) root_x root_y;
            rank := rank self |}
    else if bool_decide (rank_y < rank_x) then
      Ok {| parent := PyDict.set (parent self) root_y root_x;
            rank := rank self |}
    else
      Ok {| parent := PyDict.set (parent self) root_y root_x;
            rank := PyDict.set (rank self) root_x (rank_x + 1) |}.

(** [d[k].append(x)] on a [defaultdict(list)]. *)
Definition dd_append {K V : Type} `{EqDecision K}
    (d : list (K * list V)) (k : K) (x : V) : list (K * list V) :=
  PyDict.set d k (default [] (PyDict.get d k) ++ [x]).

Definition get_clusters (self : UnionFind)
  : result (UnionFind * list (Z * list Z)) :=
  rfold
    (fun (sc : UnionFind * list (Z * list Z)) item =>
       sr <-r find sc.1 item ;;
       Ok (sr.1, dd_append sc.2 sr.2 item))
    (PyDict.keys (parent self)) (self, []).

(** [(i, j)] for [i in range(n)], [j in range(i + 1, n)]. *)
Definition index_pairs (n : nat) : list (nat * nat) :=
  flat_map (fun i => map (pair i) (seq (S i) (n - S i))) (seq 0 n).

(** [embeddings[indices]] *)
Fixpoint take_rows (embeddings : list vec) (indices : list nat)
  : result (list vec) :=
  match indices with
  | [] => Ok []
  | i :: indices' =>
      r <-r row embeddings i ;;
      rs <-r take_rows embeddings indices' ;;
      Ok (r :: rs)
  end.

(** The body of the two nested loops over a similarity matrix, for one
    pair [(i, j)] of positions: [if sim_matrix[i, j] >= sim_threshold:
    uf.union(ids[i], ids[j])]; and the loops. *)
Definition union_step (sim_matrix : list (list Qc)) (ids : list Z)
    (sim_threshold : Qc) (uf : UnionFind) (ij : nat * nat) : result UnionFind :=
  s <-r entry sim_matrix ij.1 ij.2 ;;
  if Qc_geb s sim_threshold then
    a <-r row ids ij.1 ;;
    b <-r row ids ij.2 ;;
    union uf a b
  else Ok uf.

Definition union_similar (sim_matrix : list (list Qc)) (ids : list Z)
    (n : nat) (sim_threshold : Qc) (uf : UnionFind) : result UnionFind :=
  rfold (union_step sim_matrix ids sim_threshold) (index_pairs n) uf.

(** [block_groups]: the positions and identifiers of each blocking key. *)
Definition block_groups (item_ids : list Z) (blocks : list string)
  : list (string * list (nat * Z)) :=
  fold_left
    (fun groups (iib : nat * (Z * string)) =>
       dd_append groups iib.2.2 (iib.1, iib.2.1))
    (imap pair (zip item_ids blocks)) [].

Section Clustering.
Variable l2_norm : vec -> Qc.

(** The body of the loop over the blocks, for the items of one block. *)
Definition block_step (embeddings : list vec) (sim_threshold : Qc)
    (uf : UnionFind) (block_items : list (nat * Z)) : result UnionFind :=
  if bool_decide (length block_items < 2) then Ok uf
  else
    let indices := block_items.*1 in
    let ids := block_items.*2 in
    block_embeddings <-r take_rows embeddings indices ;;
    let sim_matrix :=
      batch_cosine_similarity l2_norm block_embeddings block_embeddings in
    union_similar sim_matrix ids (length indices) sim_threshold uf.

(** The body of [deduplicate_items] up to [clusters = uf.get_clusters()]:
    the partition of the identifiers, singletons included. *)
Definition cluster_partition (item_ids : list Z) (embeddings : list vec)
    (sim_threshold : Qc) (blocks : option (list string))
  : result (list (Z * list Z)) :=
  let n := length item_ids in
  uf <-r rfold (fun uf item_id => sr <-r find uf item_id ;; Ok sr.1)
           item_ids new ;;
  uf <-r
    match blocks with
    | Some ((_ :: _) as blocks) =>
        rfold (block_step embeddings sim_threshold)
          (PyDict.values (block_groups item_ids blocks)) uf
    | _ =>
        let sim_matrix :=
          batch_cosine_similarity l2_norm embeddings embeddings in
        union_similar sim_matrix item_ids n sim_threshold uf
    end ;;
  sc <-r get_clusters uf ;;
  Ok sc.2.

Definition deduplicate_items (item_ids : list Z) (embeddings : list vec)
    (sim_threshold : Qc) (blocks : option (list string))
  : result (list (Z * list Z)) :=
  clusters <-r cluster_partition item_ids embeddings sim_threshold blocks ;;
  Ok (List.filter (fun c : Z * list Z => bool_decide (1 < length c.2)) clusters).
End Clustering.

(** [compute_dedup_pairs] *)
Definition compute_dedup_pairs (clusters : list (Z * list Z))
  : list (Z * Z) :=
  flat_map
    (fun items : list Z =>
       flat_map
         (fun ij : nat * nat =>
            match items !! ij.1, items !! ij.2 with
            | Some a, Some b => [(a, b)]
            | _, _ => []
            end)
         (index_pairs (length items)))
    (PyDict.values clusters).

(** [tuple(sorted(pair))] on a pair. *)
Definition sorted_pair (pair : Z * Z) : Z * Z :=
  if bool_decide (pair.2 < pair.1)%Z then (pair.2, pair.1) else pair.

(** The dictionary [evaluate_dedup_pairs] returns, one field per key. *)
Record dedup_metrics : Type := {
  precision : Qc;
  recall : Qc;
  f1 : Qc;
  true_positives : nat;
  false_positives : nat;
  false_negatives : nat;
}.

Definition evaluate_dedup_pairs (predicted_pairs true_pairs : list (Z * Z))
  : dedup_metrics :=
  let pred_set : gset (Z * Z) := list_to_set (map sorted_pair predicted_pairs) in
  let true_set : gset (Z * Z) := list_to_set (map sorted_pair true_pairs) in
  let tp := size (pred_set ∩ true_set) in
  let fp := size (pred_set ∖ true_set) in
  let fn := size (true_set ∖ pred_set) in
  let precision :=
    if bool_decide (0 < tp + fp) then (Qc_of_nat tp / Qc_of_nat (tp + fp))%Qc
    else 0%Qc in
  let recall :=
    if bool_decide (0 < tp + fn) then (Qc_of_nat tp / Qc_of_nat (tp + fn))%Qc
    else 0%Qc in
  let f1 :=
    if Qc_ltb 0%Qc (precision + recall)%Qc
    then (Qc_of_Z 2 * precision * recall / (precision + recall))%Qc
    else 0%Qc in
  {| precision := precision;
     recall := recall;
     f1 := f1;
     true_positives := tp;
     false_positives := fp;
     false_negatives := fn |}.

(** The blocking keys an identifier is given by the call: one for each
    position it occupies in [item_ids] that has a key in [blocks]. *)
Definition has_block_key (item_ids : list Z) (blocks : list string)
    (x : Z) (b : string) : Prop :=
  exists i, item_ids !! i = Some x ∧ blocks !! i = Some b.

(** The root a node reaches along its parent pointers. *)
Inductive root_of (p : list (Z * Z)) : Z -> Z -> Prop :=
  | root_here x : PyDict.get p x = Some x -> root_of p x x
  | root_up x q r :
      PyDict.get p x = Some q -> q ≠ x -> root_of p q r -> root_of p x r.

(** The invariant of the structure: both dictionaries have the same keys;
    the rank grows strictly from a node to its parent; and the ranks sum
    to at most the number of nodes that are not roots. *)
Definition nonroots (p : list (Z * Z)) : nat :=
  length (List.filter (fun kv : Z * Z => bool_decide (kv.1 ≠ kv.2)) p).

Record wf (uf : UnionFind) : Prop := {
  wf_keys : PyDict.keys (parent uf) = PyDict.keys (rank uf);
  wf_nodup : NoDup (PyDict.keys (parent uf));
  wf_rank : forall x p,
    PyDict.get (parent uf) x = Some p -> p ≠ x ->
    exists rx rp,
      PyDict.get (rank uf) x = Some rx ∧ PyDict.get (rank uf) p = Some rp
      ∧ rx < rp;
  wf_sum : sum_list (PyDict.values (rank uf)) ≤ nonroots (parent uf);
}.

(** [respects kappa uf]: every node carries the label of its root, so two
    nodes of one class carry the same label. *)
Definition respects {L : Type} (kappa : Z -> L) (uf : UnionFind) : Prop :=
  forall z rz, root_of (parent uf) z rz -> kappa rz = kappa z.

(** What the loops of [deduplicate_items] maintain: a well-formed
    structure over exactly the identifiers of the call, whose classes
    respect a labelling. *)
Definition good {L : Type} (item_ids : list Z) (kappa : Z -> L)
    (uf : UnionFind) : Prop :=
  wf uf
  ∧ (forall k, k ∈ PyDict.keys (parent uf) <-> k ∈ item_ids)
  ∧ respects kappa uf.

(** Two nodes are in the same class when they reach the same root. *)
Definition same_class (uf : UnionFind) (x y : Z) : Prop :=
  exists r, root_of (parent uf) x r ∧ root_of (parent uf) y r.

(** The labelling that tells the classes of [uf] apart, except that it
    gives the nodes below the root [ry] the label of the root [rx]. *)
Definition merged_label (uf : UnionFind) (rx ry : Z) (z : Z) : Z :=
  match find uf z with
  | Ok sr => if bool_decide (sr.2 = ry) then rx else sr.2
  | Raise _ => z
  end.

(** A labelling that the comparisons of a call cannot tell apart: equal on
    the identifiers of each block when blocking keys are given, equal on
    all identifiers otherwise. *)
Definition uniform_on_blocks {L : Type} (kappa : Z -> L) (item_ids : list Z)
    (blocks : option (list string)) : Prop :=
  match blocks with
  | Some ((_ :: _) as blocks) =>
      forall i j x y b,
        item_ids !! i = Some x -> item_ids !! j = Some y ->
        blocks !! i = Some b -> blocks !! j = Some b -> kappa x = kappa y
  | _ => forall x y, x ∈ item_ids -> y ∈ item_ids -> kappa x = kappa y
  end.

End Dedup.

(** ** Sample data *)

Module Examples.
Import Embeddings.

(** The score lists of the fusion example of the specification. *)
Definition example_sparse : list (Z * Qc) :=
  [(1%Z, Qc_of_Z 10); (2%Z, Qc_of_Z 5); (3%Z, Qc_of_Z 2)].
Definition example_dense : list (Z * Qc) :=
  [(2%Z, Q2Qc (9 # 10)); (1%Z, Q2Qc (7 # 10)); (4%Z, Q2Qc (1 # 2))].

(** Rational stand-ins for the numeric kernels, to run the definitions:
    the squared norm for [np.linalg.norm], and an encoder that looks at the
    length of the text only. *)
Definition sample_norm (v : vec) : Qc := Qc_sum (map (fun x => (x * x)%Qc) v).
Definition sample_encode (s : Normalize.str) : vec :=
  [Qc_of_nat (length s); 1%Qc].

(** A tagger with the group "diet" and the labels "vegan" and "halal". *)
Definition sample_tagger : Tagging.LabelTagger :=
  Tagging.set_labels sample_encode
    {| Tagging.label_groups := []; Tagging.label_embeddings := [] |}
    "diet" [[118; 101; 103; 97; 110]; [104; 97; 108; 97; 108]]%Z.

(** A recommender with a catalog of two items, and the same after user
    "u1" interacted with item 1. *)
Definition catalog : Recommend.ContentBasedRecommender :=
  (Recommend.set_items [1; 2]%Z [[1; 0]; [0; 1]]%Qc Recommend.init).2.

Definition catalog_with_history : Recommend.ContentBasedRecommender :=
  (Recommend.update_user_profile sample_norm "u1" [1%Z] catalog).2.

(** Two catalogs that [set_items] accepts although they are not well
    formed: one identifier three times, and three identifiers with a single
    embedding row (here with a profile for user "u1"). *)
Definition repeated_catalog : Recommend.ContentBasedRecommender :=
  (Recommend.set_items [1; 1; 1]%Z [[1; 0]; [1; 0]; [1; 0]]%Qc
     Recommend.init).2.

Definition short_catalog : Recommend.ContentBasedRecommender :=
  {| Recommend.item_ids := [1; 2; 3]%Z;
     Recommend.item_embeddings := Some [[1; 0]]%Qc;
     Recommend.user_profiles := [("u1", [1; 0]%Qc)];
     Recommend.item_popularity := [] |}.

(** A union-find structure that knows the nodes 1 and 2, each its own
    root. *)
Definition two_singletons : Dedup.UnionFind :=
  {| Dedup.parent := [(1, 1); (2, 2)]%Z; Dedup.rank := [(1%Z, 0); (2%Z, 0)] |}.

(** Five items on three axes, as in the deduplication test. *)
Definition test_item_ids : list Z := [10; 11; 20; 21; 30]%Z.
Definition test_embeddings : list vec :=
  [[1; 0; 0]; [1; 0; 0]; [0; 1; 0]; [0; 1; 0]; [0; 0; 1]]%Qc.

End Examples.

(** * Properties *)

(** ** Lists, sorting and dictionaries *)

Section SortFacts.
Context {A : Type} (key : A -> Qc).

Lemma insert_desc_perm x l : insert_desc key x l ≡ₚ x :: l.
Proof.
  induction l as [|y l IH]; simpl; [done|].
  destruct (Qc_ltb _ _); [|done].
  rewrite IH. apply Permutation_swap.
Qed.

Lemma sorted_desc_perm l : sorted_desc key l ≡ₚ l.
Proof.
  induction l as [|x l IH]; simpl; [done|].
  unfold sorted_desc in *. simpl. by rewrite insert_desc_perm, IH.
Qed.

Lemma sorted_desc_length l : length (sorted_desc key l) = length l.
Proof. by rewrite sorted_desc_perm. Qed.
End SortFacts.

Lemma fold_skip_append {A B : Type} (step : list B -> A -> list B)
    (keep : A -> bool) (f : A -> B) :
  (forall acc x, step acc x = if keep x then acc ++ [f x] else acc) ->
  forall l acc, fold_left step l acc = acc ++ map f (List.filter keep l).
Proof.
  intros Hstep l. induction l as [|x l IH]; intros acc; simpl.
  - by rewrite app_nil_r.
  - rewrite IH, Hstep. destruct (keep x); simpl; [|done].
    by rewrite <-app_assoc.
Qed.

Lemma fold_grow_length {A B : Type} (step : list B -> A -> list B) :
  (forall acc x, length (step acc x) = S (length acc)) ->
  forall (l : list A) acc,
    length (fold_left step l acc) = (length acc + length l)%nat.
Proof.
  intros Hstep l. induction l as [|x l IH]; intros acc; simpl; [lia|].
  rewrite IH, Hstep. lia.
Qed.

Lemma slice_to_length {A : Type} (l : list A) (k : Z) :
  length (slice_to l k)
  = if bool_decide (0 ≤ k)%Z then (Z.to_nat k `min` length l)%nat
    else (length l - Z.to_nat (- k))%nat.
Proof.
  unfold slice_to. destruct (bool_decide _); rewrite length_take; lia.
Qed.

Lemma slice_to_length_mono {A B : Type} (l : list A) (l' : list B) (k : Z) :
  length l ≤ length l' -> length (slice_to l k) ≤ length (slice_to l' k).
Proof.
  intros Hle. rewrite !slice_to_length. destruct (bool_decide _); lia.
Qed.

Lemma filter_length_mono {A : Type} (p q : A -> bool) (l : list A) :
  (forall x, p x = true -> q x = true) ->
  length (List.filter p l) ≤ length (List.filter q l).
Proof.
  intros Hpq. induction l as [|x l IH]; simpl; [done|].
  destruct (p x) eqn:Hp.
  - rewrite (Hpq x Hp). simpl. lia.
  - destruct (q x); simpl; lia.
Qed.

Lemma rfold_invariant {A B : Type} (I : A -> Prop)
    (step : A -> B -> result A) (l : list B) :
  (forall a x a', x ∈ l -> I a -> step a x = Ok a' -> I a') ->
  forall acc acc', I acc -> rfold step l acc = Ok acc' -> I acc'.
Proof.
  induction l as [|x l IH]; intros Hstep acc acc' Hacc; simpl.
  - by intros [= <-].
  - destruct (step acc x) as [a|e] eqn:Hx; simpl; [|done].
    apply IH.
    + intros a0 y a' Hy. apply Hstep. by right.
    + eapply Hstep; [left|exact Hacc|exact Hx].
Qed.

Lemma rfold_total {A B : Type} (I : A -> Prop)
    (step : A -> B -> result A) (l : list B) :
  (forall a x, x ∈ l -> I a -> exists a', step a x = Ok a' ∧ I a') ->
  forall acc, I acc -> exists acc', rfold step l acc = Ok acc' ∧ I acc'.
Proof.
  induction l as [|x l IH]; intros Hstep acc Hacc; simpl.
  - by exists acc.
  - destruct (Hstep acc x) as (a & -> & Ha); [left|done|]. simpl.
    apply IH; [|done]. intros a0 y Hy. apply Hstep. by right.
Qed.

Lemma fold_left_invariant {A B : Type} (I : A -> Prop)
    (step : A -> B -> A) (l : list B) :
  (forall a x, x ∈ l -> I a -> I (step a x)) ->
  forall acc, I acc -> I (fold_left step l acc).
Proof.
  induction l as [|x l IH]; intros Hstep acc Hacc; simpl; [done|].
  apply IH.
  - intros a y Hy. apply Hstep. by right.
  - apply Hstep; [left|done].
Qed.

Lemma fst_map_pair {A K V : Type} (f : A -> K) (g : A -> V) (l : list A) :
  (map (fun a => (f a, g a)) l).*1 = map f l.
Proof. induction l as [|a l IH]; csimpl; [done|]. by rewrite IH. Qed.

Lemma fst_map_tag {K V : Type} (g : K -> V) (l : list K) :
  (map (fun a => (a, g a)) l).*1 = l.
Proof. by rewrite (fst_map_pair (fun a => a) g), map_id. Qed.

Section DictFacts.
Context {K V : Type} `{EqDecision K}.
Implicit Types (d : list (K * V)) (k : K) (v : V).

Lemma get_set_eq d k v : PyDict.get (PyDict.set d k v) k = Some v.
Proof.
  induction d as [|[k' v'] d IH]; simpl.
  - by rewrite decide_True.
  - destruct (decide (k' = k)) as [->|Hne]; simpl.
    + by rewrite decide_True.
    + by rewrite decide_False.
Qed.

Lemma get_set_ne d k k' v :
  k ≠ k' -> PyDict.get (PyDict.set d k v) k' = PyDict.get d k'.
Proof.
  intros Hne. induction d as [|[k0 v0] d IH]; csimpl.
  - by rewrite decide_False.
  - destruct (decide (k0 = k)) as [->|Hne0]; simpl.
    + by rewrite !decide_False.
    + destruct (decide (k0 = k')); [done|apply IH].
Qed.

Lemma get_Some_elem d k v : PyDict.get d k = Some v -> (k, v) ∈ d.
Proof.
  induction d as [|[k0 v0] d IH]; csimpl; [done|].
  destruct (decide (k0 = k)) as [->|Hne].
  - intros [= ->]. left.
  - intros. right. auto.
Qed.

Lemma get_None d k : PyDict.get d k = None <-> k ∉ PyDict.keys d.
Proof.
  unfold PyDict.keys. induction d as [|[k0 v0] d IH]; csimpl.
  - split; [intros _; apply not_elem_of_nil|done].
  - rewrite not_elem_of_cons. destruct (decide (k0 = k)) as [->|Hne].
    + split; [done|]. intros [? _]. done.
    + rewrite IH. split; [by intros; split; [congruence|]|by intros [_ ?]].
Qed.

Lemma get_is_Some d k : is_Some (PyDict.get d k) <-> k ∈ PyDict.keys d.
Proof.
  pose proof (get_None d k) as Hn.
  destruct (PyDict.get d k) as [v|] eqn:Hg.
  - split; [intros _|by eauto].
    destruct (decide (k ∈ PyDict.keys d)) as [|Hnin]; [done|].
    apply Hn in Hnin. done.
  - split; [intros [? ?]; done|]. intros Hin.
    destruct Hn as [Hn _]. by destruct (Hn eq_refl).
Qed.

Lemma elem_get_NoDup d k v :
  NoDup (PyDict.keys d) -> (k, v) ∈ d -> PyDict.get d k = Some v.
Proof.
  unfold PyDict.keys. induction d as [|[k0 v0] d IH]; csimpl.
  - intros _ Hin. by apply elem_of_nil in Hin.
  - rewrite NoDup_cons. intros [Hnin Hnd] Hin.
    apply elem_of_cons in Hin as [[= -> ->]|Hin].
    + by rewrite decide_True.
    + rewrite decide_False; [by apply IH|].
      intros ->. apply Hnin. apply list_elem_of_fmap. by exists (k, v).
Qed.

Lemma get_perm d d' k :
  NoDup (PyDict.keys d) -> d ≡ₚ d' -> PyDict.get d k = PyDict.get d' k.
Proof.
  intros Hnd Hp.
  assert (NoDup (PyDict.keys d')) as Hnd'.
  { unfold PyDict.keys in *. by rewrite <-Hp. }
  destruct (PyDict.get d k) as [v|] eqn:Hg.
  - symmetry. apply elem_get_NoDup; [done|]. rewrite <-Hp.
    by apply get_Some_elem.
  - symmetry. apply get_None. apply get_None in Hg.
    unfold PyDict.keys in *. by rewrite <-Hp.
Qed.

Lemma keys_set_present d k v :
  k ∈ PyDict.keys d -> PyDict.keys (PyDict.set d k v) = PyDict.keys d.
Proof.
  unfold PyDict.keys. induction d as [|[k0 v0] d IH]; csimpl.
  - intros Hin. by apply elem_of_nil in Hin.
  - intros Hin. destruct (decide (k0 = k)) as [->|Hne]; simpl; [done|].
    f_equal. apply IH. apply elem_of_cons in Hin as [?|?]; [congruence|done].
Qed.

Lemma set_absent d k v :
  k ∉ PyDict.keys d -> PyDict.set d k v = d ++ [(k, v)].
Proof.
  unfold PyDict.keys. induction d as [|[k0 v0] d IH]; csimpl; [done|].
  rewrite not_elem_of_cons. intros [Hne Hnin].
  rewrite decide_False by done. f_equal. by apply IH.
Qed.

Lemma keys_set_absent d k v :
  k ∉ PyDict.keys d -> PyDict.keys (PyDict.set d k v) = PyDict.keys d ++ [k].
Proof.
  intros Hnin. rewrite set_absent by done. unfold PyDict.keys.
  by rewrite fmap_app.
Qed.

Lemma elem_keys_set d k v k' :
  k' ∈ PyDict.keys (PyDict.set d k v) <-> k' = k ∨ k' ∈ PyDict.keys d.
Proof.
  destruct (decide (k ∈ PyDict.keys d)) as [Hin|Hnin].
  - rewrite keys_set_present by done. naive_solver.
  - rewrite keys_set_absent by done. rewrite elem_of_app, list_elem_of_singleton.
    naive_solver.
Qed.

Lemma NoDup_keys_set d k v :
  NoDup (PyDict.keys d) -> NoDup (PyDict.keys (PyDict.set d k v)).
Proof.
  intros Hnd. destruct (decide (k ∈ PyDict.keys d)) as [Hin|Hnin].
  - by rewrite keys_set_present.
  - rewrite keys_set_absent by done. apply NoDup_app. split_and!; [done| |].
    + intros x Hx Hx'. apply list_elem_of_singleton in Hx' as ->. done.
    + apply NoDup_singleton.
Qed.

(** Building a dictionary from items. *)
Lemma fold_set_app (f : K -> V) (ks : list K) d :
  NoDup (PyDict.keys d ++ ks) ->
  fold_left (fun c k => PyDict.set c k (f k)) ks d
  = d ++ map (fun k => (k, f k)) ks.
Proof.
  revert d. induction ks as [|k ks IH]; intros d Hnd; csimpl.
  - by rewrite app_nil_r.
  - assert (k ∉ PyDict.keys d) as Hnin.
    { apply NoDup_app in Hnd as (_ & Hd & _). intros Hin.
      apply (Hd k Hin). left. }
    rewrite IH.
    + rewrite set_absent by done. by rewrite <-app_assoc.
    + rewrite keys_set_absent by done. by rewrite <-app_assoc.
Qed.

Lemma of_items_NoDup_keys (items : list (K * V)) :
  NoDup (PyDict.keys (PyDict.of_items items)).
Proof.
  unfold PyDict.of_items.
  assert (forall d : list (K * V), NoDup (PyDict.keys d) ->
    NoDup (PyDict.keys (fold_left (fun d kv => PyDict.set d kv.1 kv.2) items d)))
    as Hgen.
  { induction items as [|[k v] items IH]; intros d Hd; simpl; [done|].
    apply IH. by apply NoDup_keys_set. }
  apply Hgen. apply NoDup_nil_2.
Qed.

Lemma of_items_keys (items : list (K * V)) k :
  k ∈ PyDict.keys (PyDict.of_items items) <-> k ∈ items.*1.
Proof.
  unfold PyDict.of_items.
  assert (forall d : list (K * V),
    k ∈ PyDict.keys (fold_left (fun d kv => PyDict.set d kv.1 kv.2) items d)
    <-> k ∈ PyDict.keys d ∨ k ∈ items.*1) as Hgen.
  { induction items as [|[k0 v0] items IH]; intros d; csimpl.
    - rewrite elem_of_nil. naive_solver.
    - rewrite IH, elem_keys_set, elem_of_cons. naive_solver. }
  rewrite Hgen. unfold PyDict.keys. simpl. rewrite elem_of_nil. naive_solver.
Qed.

Lemma of_items_NoDup (items : list (K * V)) :
  NoDup items.*1 -> PyDict.of_items items = items.
Proof.
  unfold PyDict.of_items.
  assert (forall d : list (K * V), NoDup (PyDict.keys d ++ items.*1) ->
    fold_left (fun d kv => PyDict.set d kv.1 kv.2) items d = d ++ items) as Hgen.
  { induction items as [|[k v] items IH]; intros d Hnd; csimpl.
    - by rewrite app_nil_r.
    - csimpl in Hnd.
      assert (k ∉ PyDict.keys d) as Hnin.
      { apply NoDup_app in Hnd as (_ & Hd & _). intros Hin.
        apply (Hd k Hin). left. }
      rewrite IH.
      + rewrite set_absent by done. by rewrite <-app_assoc.
      + rewrite keys_set_absent by done. by rewrite <-app_assoc. }
  intros Hnd. by rewrite Hgen.
Qed.

(** Assigning to a key that is present replaces one entry and leaves the
rest of the dictionary as it is. *)
Lemma set_present_split d k v v0 :
  PyDict.get d k = Some v0 ->
  exists d1 d2,
    d = d1 ++ (k, v0) :: d2 ∧ PyDict.set d k v = d1 ++ (k, v) :: d2.
Proof.
  induction d as [|[k0 w0] d IH]; csimpl; [done|].
  destruct (decide (k0 = k)) as [->|Hne].
  - intros [= ->]. by exists [], d.
  - intros Hg. destruct (IH Hg) as (d1 & d2 & -> & ->).
    by exists ((k0, w0) :: d1), d2.
Qed.

Lemma elem_of_set d k v k' v' :
  (k', v') ∈ PyDict.set d k v -> (k' = k ∧ v' = v) ∨ (k', v') ∈ d.
Proof.
  induction d as [|[k0 w0] d IH]; csimpl.
  - intros Hin. apply list_elem_of_singleton in Hin as [= -> ->]. by left.
  - destruct (decide (k0 = k)) as [->|Hne]; intros Hin;
      apply elem_of_cons in Hin as [[= -> ->]|Hin].
    + by left.
    + right. by right.
    + right. left.
    + destruct (IH Hin) as [?|?]; [by left|right; by right].
Qed.

Lemma get_set d k v k' :
  PyDict.get (PyDict.set d k v) k'
  = if decide (k = k') then Some v else PyDict.get d k'.
Proof.
  destruct (decide (k = k')) as [->|Hne].
  - apply get_set_eq.
  - by apply get_set_ne.
Qed.

Lemma get_Some_keys d k v : PyDict.get d k = Some v -> k ∈ PyDict.keys d.
Proof. intros Hg. apply get_is_Some. by exists v. Qed.
End DictFacts.

(** ** Score fusion *)

Section HybridFacts.
Import Utils Hybrid.
Local Open Scope Qc_scope.

Lemma min_max_normalize_map (l : list Qc) :
  min_max_normalize l = map (normalized_in l) l.
Proof.
  unfold min_max_normalize, normalized_in. destruct l as [|x l]; [done|].
  destruct (Qc_ltb _ _); [|done].
  generalize (x :: l). intros l'. induction l' as [|y l' IH]; [done|].
  simpl. by rewrite IH.
Qed.

Lemma min_max_normalize_length (l : list Qc) :
  length (min_max_normalize l) = length l.
Proof. by rewrite min_max_normalize_map, length_map. Qed.

Lemma normalize_dict_map (d : list (Z * Qc)) :
  NoDup (PyDict.keys d) ->
  normalize_dict d = map (fun kv => (kv.1, normalized_in (PyDict.values d) kv.2)) d.
Proof.
  intros Hnd. unfold normalize_dict. rewrite min_max_normalize_map.
  set (f := normalized_in (PyDict.values d)).
  assert (zip (PyDict.keys d) (map f (PyDict.values d))
          = map (fun kv => (kv.1, f kv.2)) d) as ->.
  { unfold PyDict.keys, PyDict.values. clear Hnd. clearbody f.
    induction d as [|[k v] d IH]; csimpl; [done|]. by rewrite IH. }
  apply of_items_NoDup. by rewrite (fst_map_pair fst).
Qed.

Lemma normalize_dict_keys (d : list (Z * Qc)) :
  NoDup (PyDict.keys d) -> PyDict.keys (normalize_dict d) = PyDict.keys d.
Proof.
  intros Hnd. rewrite normalize_dict_map by done. unfold PyDict.keys.
  by rewrite (fst_map_pair fst).
Qed.

Lemma normalize_dict_get (d : list (Z * Qc)) (k : Z) :
  NoDup (PyDict.keys d) ->
  PyDict.get (normalize_dict d) k
  = normalized_in (PyDict.values d) <$> PyDict.get d k.
Proof.
  intros Hnd. rewrite normalize_dict_map by done.
  generalize (normalized_in (PyDict.values d)). intros f. clear Hnd.
  induction d as [|[k0 v0] d IH]; csimpl; [done|].
  destruct (decide (k0 = k)); [done|apply IH].
Qed.

(** The dictionary [combined] before sorting: one entry per identifier of
    the union, in the iteration order of the set. *)
Lemma combine_scores_perm sp de alpha :
  combine_scores sp de alpha ≡ₚ
  map (fun id_ =>
         (id_,
          alpha * default 0 (PyDict.get
            (match sp with [] => PyDict.of_items sp
             | _ => normalize_dict (PyDict.of_items sp) end) id_)
          + (1 - alpha) * default 0 (PyDict.get
            (match de with [] => PyDict.of_items de
             | _ => normalize_dict (PyDict.of_items de) end) id_)))
      (elements (list_to_set (PyDict.keys (PyDict.of_items sp))
                 ∪ list_to_set (PyDict.keys (PyDict.of_items de)) : gset Z)).
Proof.
  unfold combine_scores. rewrite sorted_desc_perm.
  rewrite (fold_set_app (V:=Qc)); [done|].
  simpl. apply NoDup_elements.
Qed.

Lemma combine_scores_keys sp de alpha (id_ : Z) :
  id_ ∈ (combine_scores sp de alpha).*1 <-> id_ ∈ sp.*1 ∨ id_ ∈ de.*1.
Proof.
  rewrite combine_scores_perm, fst_map_tag.
  rewrite elem_of_elements, elem_of_union, !elem_of_list_to_set.
  by rewrite !of_items_keys.
Qed.

Lemma combine_scores_NoDup sp de alpha :
  NoDup (combine_scores sp de alpha).*1.
Proof.
  rewrite combine_scores_perm, fst_map_tag.
  apply NoDup_elements.
Qed.

Lemma combine_scores_get sp de alpha (id_ : Z) :
  PyDict.get (combine_scores sp de alpha) id_ =
  if decide (id_ ∈ sp.*1 ∨ id_ ∈ de.*1) then
    Some (alpha * default 0 (PyDict.get
            (match sp with [] => PyDict.of_items sp
             | _ => normalize_dict (PyDict.of_items sp) end) id_)
          + (1 - alpha) * default 0 (PyDict.get
            (match de with [] => PyDict.of_items de
             | _ => normalize_dict (PyDict.of_items de) end) id_))
  else None.
Proof.
  pose proof (combine_scores_NoDup sp de alpha) as Hnd.
  pose proof (combine_scores_keys sp de alpha id_) as Hk.
  destruct (decide _) as [Hin|Hnin].
  - apply elem_get_NoDup; [done|]. rewrite combine_scores_perm.
    apply (list_elem_of_fmap_2 (fun i => (i, _)) _ id_).
    rewrite elem_of_elements, elem_of_union, !elem_of_list_to_set.
    by rewrite !of_items_keys.
  - apply get_None. by rewrite Hk.
Qed.

Lemma normalized_get_single (l : list (Z * Qc)) (id_ : Z) (s : Qc) :
  NoDup l.*1 -> (id_, s) ∈ l ->
  PyDict.get (match l with [] => PyDict.of_items l
              | _ => normalize_dict (PyDict.of_items l) end) id_
  = Some (normalized_in l.*2 s).
Proof.
  intros Hnd Hin. rewrite (of_items_NoDup l) by done.
  destruct l as [|kv l']; [by apply elem_of_nil in Hin|].
  rewrite normalize_dict_get by done.
  by rewrite (elem_get_NoDup _ _ _ Hnd Hin).
Qed.

Lemma normalized_get_absent (l : list (Z * Qc)) (id_ : Z) :
  id_ ∉ l.*1 ->
  PyDict.get (match l with [] => PyDict.of_items l
              | _ => normalize_dict (PyDict.of_items l) end) id_ = None.
Proof.
  intros Hnin. apply get_None.
  assert (id_ ∉ PyDict.keys (PyDict.of_items l)) as Hn by by rewrite of_items_keys.
  destruct l; [done|].
  rewrite normalize_dict_keys; [done|apply of_items_NoDup_keys].
Qed.

(** The fusion example of the specification: alpha = 1 ranks item 1
    first, alpha = 0 ranks item 2 first, and alpha = 1/2 returns all four
    identifiers. *)
Example combine_scores_example :
  (combine_scores Examples.example_sparse Examples.example_dense 1).*1
    !! 0%nat = Some 1%Z
  ∧ (combine_scores Examples.example_sparse Examples.example_dense 0).*1
      !! 0%nat = Some 2%Z
  ∧ length (combine_scores Examples.example_sparse Examples.example_dense
              (Q2Qc (1 # 2))) = 4%nat.
Proof. split_and!; vm_compute; reflexivity. Qed.

(** C1. For non-empty score lists with distinct identifiers and alpha in
    [0,1], [combine_scores] returns exactly one entry per identifier of
    the union of the two lists; an identifier found only in the sparse
    list gets alpha times its min-max-normalized sparse score, and one
    found only in the dense list gets (1 - alpha) times its
    min-max-normalized dense score. *)
Theorem combine_scores_union_single_source
    (sp de : list (Z * Qc)) (alpha : Qc) :
  sp ≠ [] -> de ≠ [] -> NoDup sp.*1 -> NoDup de.*1 -> 0 ≤ alpha ≤ 1 ->
  NoDup (combine_scores sp de alpha).*1
  ∧ (forall id_ : Z,
       id_ ∈ (combine_scores sp de alpha).*1 <-> id_ ∈ sp.*1 ∨ id_ ∈ de.*1)
  ∧ (forall (id_ : Z) (s : Qc),
       (id_, s) ∈ sp -> id_ ∉ de.*1 ->
       PyDict.get (combine_scores sp de alpha) id_
       = Some (alpha * normalized_in sp.*2 s))
  ∧ (forall (id_ : Z) (d : Qc),
       (id_, d) ∈ de -> id_ ∉ sp.*1 ->
       PyDict.get (combine_scores sp de alpha) id_
       = Some ((1 - alpha) * normalized_in de.*2 d)).
Proof.
  intros Hsp Hde Hnds Hndd _. split_and!.
  - apply combine_scores_NoDup.
  - apply combine_scores_keys.
  - intros id_ s Hin Hnin. rewrite combine_scores_get.
    rewrite decide_True.
    2:{ left. apply list_elem_of_fmap. by exists (id_, s). }
    rewrite (normalized_get_single sp id_ s), normalized_get_absent by done.
    simpl. f_equal. ring.
  - intros id_ d Hin Hnin. rewrite combine_scores_get.
    rewrite decide_True.
    2:{ right. apply list_elem_of_fmap. by exists (id_, d). }
    rewrite (normalized_get_single de id_ d), normalized_get_absent by done.
    simpl. f_equal. ring.
Qed.

Lemma combine_scores_union_single_source_witness :
  PyDict.get (combine_scores Examples.example_sparse Examples.example_dense (Q2Qc (1 # 2))) 3%Z
  = Some (Q2Qc (1 # 2) * normalized_in Examples.example_sparse.*2 (Qc_of_Z 2)).
Proof.
  refine (proj1 (proj2 (proj2
    (combine_scores_union_single_source Examples.example_sparse Examples.example_dense
       (Q2Qc (1 # 2)) _ _ _ _ _))) 3%Z (Qc_of_Z 2) _ _).
  - discriminate.
  - discriminate.
  - apply (bool_decide_unpack _). vm_compute. reflexivity.
  - apply (bool_decide_unpack _). vm_compute. reflexivity.
  - split; apply (bool_decide_unpack _); vm_compute; reflexivity.
  - apply (bool_decide_unpack _). vm_compute. reflexivity.
  - apply (bool_decide_unpack _). vm_compute. reflexivity.
Defined.


End HybridFacts.

(** ** Evaluation metrics *)

Section EvalFacts.
Import Eval.
Local Open Scope Qc_scope.

Lemma list_to_set_empty_nil (l : list Z) :
  (list_to_set l : gset Z) = ∅ <-> l = [].
Proof.
  split; [|by intros ->].
  destruct l as [|x l]; [done|]. intros Hs.
  assert (x ∈ (list_to_set (x :: l) : gset Z)) as Hin by set_solver.
  rewrite Hs in Hin. set_solver.
Qed.

Lemma empty_truth_skipped (pt : list Z * list Z) :
  bool_decide ((list_to_set pt.2 : gset Z) = ∅) = negb (has_relevant pt).
Proof.
  unfold has_relevant. destruct (decide (pt.2 = [])) as [He|Hne].
  - rewrite (bool_decide_eq_true_2 (_ = ∅)) by (by rewrite He).
    by rewrite (bool_decide_eq_false_2 (pt.2 ≠ [])) by (by intros ?).
  - rewrite (bool_decide_eq_true_2 (pt.2 ≠ [])) by done.
    rewrite bool_decide_eq_false_2; [done|]. by rewrite list_to_set_empty_nil.
Qed.

Lemma recall_at_k_average preds truth k :
  length preds = length truth ->
  recall_at_k preds truth k
  = Ok (average_over_relevant (recall_query k) preds truth).
Proof.
  intros Hlen. unfold recall_at_k, average_over_relevant.
  rewrite bool_decide_eq_false_2 by (by intros ?). f_equal.
  rewrite (fold_skip_append _ has_relevant
             (fun pt => recall_query k pt.1 pt.2)); [done|].
  intros acc pt. rewrite empty_truth_skipped.
  by destruct (has_relevant pt).
Qed.

Lemma precision_at_k_average preds truth k :
  length preds = length truth ->
  precision_at_k preds truth k
  = Ok (average_over_relevant (precision_query k) preds truth).
Proof.
  intros Hlen. unfold precision_at_k, average_over_relevant.
  rewrite bool_decide_eq_false_2 by (by intros ?). f_equal.
  rewrite (fold_skip_append _ has_relevant
             (fun pt => precision_query k pt.1 pt.2)); [done|].
  intros acc pt. rewrite empty_truth_skipped.
  by destruct (has_relevant pt).
Qed.

Lemma mean_reciprocal_rank_average preds truth :
  length preds = length truth ->
  mean_reciprocal_rank preds truth
  = Ok (average_over_relevant reciprocal_rank_query preds truth).
Proof.
  intros Hlen. unfold mean_reciprocal_rank, average_over_relevant.
  rewrite bool_decide_eq_false_2 by (by intros ?). f_equal.
  rewrite (fold_skip_append _ has_relevant
             (fun pt => reciprocal_rank_query pt.1 pt.2)); [done|].
  intros acc pt. rewrite empty_truth_skipped. unfold reciprocal_rank_query.
  destruct (has_relevant pt); simpl; [|done].
  by destruct (first_hit _ _).
Qed.

Lemma ndcg_at_k_average log2 preds truth k :
  length preds = length truth ->
  ndcg_at_k log2 preds truth k
  = Ok (average_over_relevant (ndcg_query log2 k) preds truth).
Proof.
  intros Hlen. unfold ndcg_at_k, average_over_relevant.
  rewrite bool_decide_eq_false_2 by (by intros ?). f_equal.
  rewrite (fold_skip_append _ has_relevant
             (fun pt => ndcg_query log2 k pt.1 pt.2)); [done|].
  intros acc pt. rewrite empty_truth_skipped.
  by destruct (has_relevant pt).
Qed.

(** A query with an empty relevant set changes no average, wherever it
    stands: it is skipped, not scored. *)
Lemma average_over_relevant_skip score p1 pred p2 t1 t2 :
  length p1 = length t1 ->
  average_over_relevant score (p1 ++ pred :: p2) (t1 ++ [] :: t2)
  = average_over_relevant score (p1 ++ p2) (t1 ++ t2).
Proof.
  intros Hlen. unfold average_over_relevant.
  rewrite !zip_with_app by done. simpl.
  by rewrite !List.filter_app.
Qed.

(** C4. [recall_at_k], [precision_at_k], [ndcg_at_k] and
    [mean_reciprocal_rank] average over the queries whose ground-truth
    set is non-empty only; and on predictions [[1,2,3,4,5],[10,11,12]]
    with truth [[1,3,6],[11,13]] and k = 5, recall is (2/3 + 1/2) / 2. *)
Theorem metrics_average_over_relevant
    (log2 : Z -> Qc) (preds truth : list (list Z)) (k : Z) :
  length preds = length truth ->
  recall_at_k preds truth k
  = Ok (average_over_relevant (recall_query k) preds truth)
  ∧ precision_at_k preds truth k
    = Ok (average_over_relevant (precision_query k) preds truth)
  ∧ ndcg_at_k log2 preds truth k
    = Ok (average_over_relevant (ndcg_query log2 k) preds truth)
  ∧ mean_reciprocal_rank preds truth
    = Ok (average_over_relevant reciprocal_rank_query preds truth)
  ∧ recall_at_k [[1; 2; 3; 4; 5]; [10; 11; 12]]%Z [[1; 3; 6]; [11; 13]]%Z 5
    = Ok ((Q2Qc (2 # 3) + Q2Qc (1 # 2)) / Qc_of_Z 2).
Proof.
  intros Hlen. split_and!.
  - by apply recall_at_k_average.
  - by apply precision_at_k_average.
  - by apply ndcg_at_k_average.
  - by apply mean_reciprocal_rank_average.
  - vm_compute. reflexivity.
Qed.

Lemma metrics_average_over_relevant_witness :
  recall_at_k [[1; 2; 3]; [7]]%Z [[]; [7; 8]]%Z 2
  = Ok (average_over_relevant (recall_query 2)
          [[1; 2; 3]; [7]]%Z [[]; [7; 8]]%Z).
Proof.
  refine (proj1 (metrics_average_over_relevant Qc_of_Z
    [[1; 2; 3]; [7]]%Z [[]; [7; 8]]%Z 2 _)).
  reflexivity.
Defined.

(** C3 (the code departs from the claim). The four averaged metrics
    reject predictions and ground truth of different lengths with a
    [ValueError]; [per_query_metrics] has no such check and returns a
    result for the common prefix: one prediction list against no ground
    truth yields the empty report, and two prediction lists against one
    ground-truth set yield a report for the first query only. *)
Theorem per_query_metrics_mismatch_truncates :
  recall_at_k [[1]]%Z [] 10 = Raise length_mismatch
  ∧ precision_at_k [[1]]%Z [] 10 = Raise length_mismatch
  ∧ mean_reciprocal_rank [[1]]%Z [] = Raise length_mismatch
  ∧ ndcg_at_k Qc_of_Z [[1]]%Z [] 10 = Raise length_mismatch
  ∧ per_query_metrics [[1]]%Z [] None 10 = []
  ∧ length (per_query_metrics [[1]; [2]]%Z [[1]]%Z None 10) = 1%nat.
Proof. split_and!; vm_compute; reflexivity. Qed.

Lemma metrics_reject_mismatch log2 preds truth k :
  length preds ≠ length truth ->
  recall_at_k preds truth k = Raise length_mismatch
  ∧ precision_at_k preds truth k = Raise length_mismatch
  ∧ mean_reciprocal_rank preds truth = Raise length_mismatch
  ∧ ndcg_at_k log2 preds truth k = Raise length_mismatch.
Proof.
  intros Hne.
  unfold recall_at_k, precision_at_k, mean_reciprocal_rank, ndcg_at_k.
  by rewrite !bool_decide_eq_true_2 by done.
Qed.

(** [per_query_metrics] reports on as many queries as the shorter of its
    two inputs has. *)
Lemma per_query_metrics_length preds truth k :
  length (per_query_metrics preds truth None k)
  = (length preds `min` length truth)%nat.
Proof.
  unfold per_query_metrics. rewrite fold_grow_length.
  - simpl. rewrite !length_zip_with, length_map, length_seq. lia.
  - intros acc [qid [pred tr]]. rewrite length_app. simpl. lia.
Qed.
End EvalFacts.

(** ** Label tagger *)

Section TaggingFacts.
Import Embeddings Tagging.
Variable l2_norm : vec -> Qc.
Variable model_encode : Normalize.str -> vec.

(** What [assign_labels] returns for a known group. *)
Lemma assign_labels_known self text group_name top_n threshold data :
  PyDict.get (label_embeddings self) group_name = Some data ->
  assign_labels l2_norm model_encode self text group_name top_n threshold
  = Ok (slice_to
          (sorted_desc snd
             (List.filter (fun ls => Qc_geb ls.2 threshold)
                (zip (labels data)
                   (map (dot (unit_row l2_norm
                                (model_encode (Normalize.normalize_text text true))))
                        (map (unit_row l2_norm) (embeddings data))))))
          top_n).
Proof.
  intros Hg. unfold assign_labels. rewrite Hg. simpl. f_equal. f_equal. f_equal.
  rewrite (fold_skip_append _ (fun ls => Qc_geb ls.2 threshold) (fun ls => ls)).
  - by rewrite map_id.
  - intros acc [lbl sc]. simpl. by destruct (Qc_geb _ _).
Qed.

(** C7. For a fixed tagger state, text, group and [top_n], raising the
    threshold never increases the number of (label, score) pairs that
    [assign_labels] returns. *)
Theorem assign_labels_threshold_monotone
    (self : LabelTagger) (text : Normalize.str) (group_name : string)
    (top_n : Z) (threshold_low threshold_high : Qc) :
  (threshold_low ≤ threshold_high)%Qc ->
  exists r_low r_high,
    assign_labels l2_norm model_encode self text group_name top_n threshold_low
    = Ok r_low
    ∧ assign_labels l2_norm model_encode self text group_name top_n threshold_high
      = Ok r_high
    ∧ length r_high ≤ length r_low.
Proof.
  intros Hle.
  destruct (PyDict.get (label_embeddings self) group_name) as [data|] eqn:Hg.
  - rewrite !(assign_labels_known _ _ _ _ _ data Hg).
    eexists _, _. split_and!; [done|done|].
    apply slice_to_length_mono. rewrite !sorted_desc_length.
    apply filter_length_mono. intros [lbl sc]. unfold Qc_geb. simpl.
    rewrite !bool_decide_eq_true. intros Hhigh.
    by apply Qcle_trans with threshold_high.
  - unfold assign_labels. rewrite Hg. by exists [], [].
Qed.
End TaggingFacts.

Lemma assign_labels_threshold_monotone_witness :
  exists r_low r_high,
    Tagging.assign_labels Examples.sample_norm Examples.sample_encode
      Examples.sample_tagger [118; 101; 103]%Z "diet" 2 (Q2Qc (1 # 4)) = Ok r_low
    ∧ Tagging.assign_labels Examples.sample_norm Examples.sample_encode
        Examples.sample_tagger [118; 101; 103]%Z "diet" 2 (Q2Qc (1 # 2)) = Ok r_high
    ∧ length r_high ≤ length r_low.
Proof.
  apply (assign_labels_threshold_monotone Examples.sample_norm
           Examples.sample_encode Examples.sample_tagger [118; 101; 103]%Z
           "diet" 2 (Q2Qc (1 # 4)) (Q2Qc (1 # 2))).
  apply (bool_decide_unpack _). vm_compute. reflexivity.
Defined.

(** ** Content recommender *)

Create HintDb frame discriminated.

Section RecommendFrame.
Import Embeddings Recommend.

Lemma frame_ret {A : Type} (a : A) : frame (ret a).
Proof. by intros self. Qed.

Lemma frame_gets {A : Type} (f : ContentBasedRecommender -> A) :
  frame (gets f).
Proof. by intros self. Qed.

Lemma frame_lift {A : Type} (r : result A) : frame (lift r).
Proof. by intros self. Qed.

Lemma frame_bind {A B : Type} (m : M A) (f : A -> M B) :
  frame m -> (forall a, frame (f a)) -> frame (bind m f).
Proof.
  intros Hm Hf self. unfold bind. specialize (Hm self).
  destruct (m self) as [[a|e] self']; simpl in *; subst self'; [apply Hf|done].
Qed.

Lemma frame_mfold {A B : Type} (body : A -> B -> M A) (l : list B) :
  (forall acc x, frame (body acc x)) -> forall acc, frame (mfold body l acc).
Proof.
  intros Hbody. induction l as [|x l IH]; intros acc; simpl.
  - apply frame_ret.
  - apply frame_bind; [apply Hbody|apply IH].
Qed.

Lemma frame_if {A : Type} (b : bool) (m1 m2 : M A) :
  frame m1 -> frame m2 -> frame (if b then m1 else m2).
Proof. by destruct b. Qed.
End RecommendFrame.

#[export] Hint Resolve frame_ret frame_gets frame_lift : frame.

Ltac frame_step :=
  first
    [ solve [eauto with frame]
    | apply frame_bind; [|intros ?]
    | apply frame_mfold; intros ? ?
    | apply frame_if ].

Section RecommendFacts.
Import Embeddings Recommend.
Variable l2_norm : vec -> Qc.

Lemma frame_recommend_popular k exclude_items :
  frame (_recommend_popular k exclude_items).
Proof. unfold _recommend_popular. repeat frame_step. Qed.

Lemma frame_boost_loop boost max_pop ids sims :
  frame (boost_loop boost max_pop ids sims).
Proof. unfold boost_loop, boost_step. repeat frame_step. Qed.

Lemma frame_recommend_for_user user_id k exclude_items boost :
  frame (recommend_for_user l2_norm user_id k exclude_items boost).
Proof.
  unfold recommend_for_user.
  apply frame_bind; [apply frame_gets|intros profiles].
  apply frame_bind; [apply frame_gets|intros embeddings].
  destruct (PyDict.get profiles user_id) as [profile|];
    [|apply frame_recommend_popular].
  destruct embeddings as [embs|]; [|apply frame_recommend_popular].
  apply frame_bind; [apply frame_lift|intros sims].
  apply frame_bind; [|intros sims'; repeat frame_step].
  apply frame_if; [|apply frame_ret].
  apply frame_bind; [apply frame_gets|intros popularity].
  apply frame_bind; [apply frame_gets|intros ids].
  apply frame_boost_loop.
Qed.

Lemma frame_recommend_similar_items item_id k exclude_self :
  frame (recommend_similar_items l2_norm item_id k exclude_self).
Proof.
  unfold recommend_similar_items.
  apply frame_bind; [apply frame_gets|intros embeddings].
  apply frame_bind; [apply frame_gets|intros ids].
  destruct embeddings as [embs|]; [|apply frame_ret].
  repeat frame_step.
Qed.

(** *** How many results *)

Lemma popular_loop_length popular exclude_set k results :
  (Z.of_nat (length results) < k)%Z ->
  (Z.of_nat (length (popular_loop popular exclude_set k results)) ≤ k)%Z.
Proof.
  revert results. induction popular as [|[item_id count] popular IH];
    intros results Hlt; simpl; [lia|].
  destruct (bool_decide (item_id ∉ exclude_set)); [|by apply IH].
  assert (length (results ++ [(item_id, Qc_of_nat count)])
          = S (length results)) as Hlen by (rewrite length_app; simpl; lia).
  destruct (bool_decide (k ≤ Z.of_nat (length (results ++ _)))%Z) eqn:Hk.
  - lia.
  - apply bool_decide_eq_false in Hk. apply IH. lia.
Qed.

Lemma padding_loop_spec ids exclude_set k results :
  (Z.of_nat (length results) < k)%Z ->
  (Z.of_nat (length (padding_loop ids exclude_set k results)) ≤ k)%Z
  ∧ ((Z.of_nat (length (padding_loop ids exclude_set k results)) < k)%Z ->
     forall i, i ∈ ids -> i ∉ exclude_set ->
       i ∈ (padding_loop ids exclude_set k results).*1)
  ∧ (forall i, i ∈ results.*1 ->
       i ∈ (padding_loop ids exclude_set k results).*1).
Proof.
  revert results. induction ids as [|item_id ids IH]; intros results Hlt; simpl.
  - split_and!; [lia| |done]. intros _ i Hi. by apply elem_of_nil in Hi.
  - destruct (bool_decide (item_id ∉ exclude_set)
              && bool_decide (item_id ∉ results.*1)) eqn:Hcond.
    + assert (forall i, i ∈ results.*1 ∨ i = item_id ->
                i ∈ (results ++ [(item_id, 0%Qc)]).*1) as Hgrow.
      { intros i Hi. rewrite fmap_app, elem_of_app. simpl.
        rewrite list_elem_of_singleton. done. }
      assert (length (results ++ [(item_id, 0%Qc)]) = S (length results))
        as Hlen by (rewrite length_app; simpl; lia).
      destruct (bool_decide (k ≤ Z.of_nat (length (results ++ _)))%Z) eqn:Hk.
      * apply bool_decide_eq_true in Hk. rewrite Hlen in *. split_and!.
        -- lia.
        -- intros Hlt'. lia.
        -- intros i Hi. apply Hgrow. by left.
      * apply bool_decide_eq_false in Hk. rewrite Hlen in Hk.
        destruct (IH (results ++ [(item_id, 0%Qc)])) as (Hle & Hall & Hkeep);
          [lia|].
        split_and!; [done| |].
        -- intros Hlt' i Hi Hex. apply elem_of_cons in Hi as [->|Hi].
           ++ apply Hkeep, Hgrow. by right.
           ++ by apply Hall.
        -- intros i Hi. apply Hkeep, Hgrow. by left.
    + destruct (IH results Hlt) as (Hle & Hall & Hkeep).
      split_and!; [done| |done].
      intros Hlt' i Hi Hex. apply elem_of_cons in Hi as [->|Hi].
      * apply andb_false_iff in Hcond as [Hc|Hc].
        -- apply bool_decide_eq_false in Hc. by destruct Hc.
        -- apply bool_decide_eq_false in Hc.
           apply Hkeep. by apply dec_stable in Hc.
      * by apply Hall.
Qed.

Lemma recommend_popular_count self k exclude_items :
  NoDup (item_ids self) -> (1 ≤ k)%Z ->
  exists res,
    (_recommend_popular k exclude_items self).1 = Ok res
    ∧ (Z.of_nat (length res) ≤ k)%Z
    ∧ ((Z.of_nat (length res) < k)%Z ->
       (Z.of_nat (length (catalog_after_exclusions self
                            (default [] exclude_items))) < k)%Z).
Proof.
  intros Hnd Hk. unfold _recommend_popular, bind, gets, ret. simpl.
  set (ex := list_to_set (default [] exclude_items) : gset Z).
  set (results := popular_loop _ ex k []).
  assert (Z.of_nat (length results) ≤ k)%Z as Hres.
  { apply popular_loop_length. simpl. lia. }
  destruct (bool_decide (Z.of_nat (length results) < k)%Z
            && bool_decide (item_ids self ≠ [])) eqn:Hcond; simpl.
  - apply andb_true_iff in Hcond as [Hlt _]. apply bool_decide_eq_true in Hlt.
    destruct (padding_loop_spec (item_ids self) ex k results Hlt)
      as (Hle & Hall & _).
    eexists. split_and!; [done|done|]. intros Hlt'.
    eapply Z.le_lt_trans; [|exact Hlt']. apply Nat2Z.inj_le.
    rewrite <-(length_fmap fst (padding_loop _ _ _ _)).
    apply submseteq_length, NoDup_submseteq.
    + unfold catalog_after_exclusions. by apply NoDup_ListNoDup, List.NoDup_filter,
        NoDup_ListNoDup.
    + intros i Hi. unfold catalog_after_exclusions in Hi.
      apply list_elem_of_In, List.filter_In in Hi as [Hi Hex].
      apply bool_decide_eq_true in Hex. apply Hall; [done| |].
      * by apply list_elem_of_In.
      * unfold ex. by rewrite elem_of_list_to_set.
  - eexists. split_and!; [done|done|]. intros Hlt.
    apply andb_false_iff in Hcond as [Hc|Hc];
      apply bool_decide_eq_false in Hc; [done|].
    apply dec_stable in Hc. unfold catalog_after_exclusions. rewrite Hc.
    simpl. lia.
Qed.

Lemma boost_step_ok boost max_pop sims i item_id self :
  max_pop ≠ 0 -> i < length sims ->
  exists s,
    boost_step boost max_pop sims (i, item_id) self
    = (Ok (<[i := s]> sims), self).
Proof.
  intros Hmax Hi. unfold boost_step, bind, gets, lift, ret, row. simpl.
  rewrite bool_decide_eq_false_2 by done.
  destruct (lookup_lt_is_Some_2 sims i Hi) as [s ->]. by eexists.
Qed.

Lemma boost_body_ok boost max_pop (l : list (nat * Z)) sims self :
  max_pop ≠ 0 -> Forall (fun ii => ii.1 < length sims) l ->
  exists sims',
    mfold (boost_step boost max_pop) l sims self = (Ok sims', self)
    ∧ length sims' = length sims.
Proof.
  intros Hmax. revert sims. induction l as [|[i item_id] l IH];
    intros sims Hall; simpl.
  - by exists sims.
  - apply Forall_cons in Hall as [Hi Hall]. simpl in Hi.
    destruct (boost_step_ok boost max_pop sims i item_id self Hmax Hi)
      as [s Hstep].
    unfold bind. rewrite Hstep.
    destruct (IH (<[i := s]> sims)) as (sims' & Hrun & Hlen).
    { eapply Forall_impl; [exact Hall|]. intros [j jd]. simpl.
      by rewrite length_insert. }
    exists sims'. split; [done|]. by rewrite Hlen, length_insert.
Qed.

Lemma boost_loop_ok boost max_pop ids sims self :
  max_pop ≠ 0 -> length ids ≤ length sims ->
  exists sims',
    boost_loop boost max_pop ids sims self = (Ok sims', self)
    ∧ length sims' = length sims.
Proof.
  intros Hmax Hlen. apply boost_body_ok; [done|].
  apply Forall_forall. intros [i item_id] Hin.
  apply elem_of_lookup_imap in Hin as (j & y & [= -> ->] & Hj).
  simpl. apply lookup_lt_Some in Hj. lia.
Qed.

Lemma max_pop_positive (popularity : list (Z * nat)) :
  Forall (fun c => 1 ≤ c) (PyDict.values popularity) ->
  match popularity with
  | [] => 1
  | _ => foldr Nat.max 0 (PyDict.values popularity)
  end ≠ 0.
Proof.
  destruct popularity as [|[i c] popularity]; [done|].
  unfold PyDict.values. csimpl. intros Hall.
  apply Forall_cons in Hall as [Hc _]. lia.
Qed.

Lemma filter_zip_fst_length (p : Z -> bool) (ids : list Z) (sims : list Qc) :
  length ids ≤ length sims ->
  length (List.filter (fun c : Z * Qc => p c.1) (zip ids sims))
  = length (List.filter p ids).
Proof.
  revert sims. induction ids as [|i ids IH]; intros sims Hlen; [done|].
  destruct sims as [|s sims]; simpl in *; [lia|].
  destruct (p i); simpl; rewrite IH; lia.
Qed.

Lemma slice_to_count {A : Type} (l : list A) (k : Z) :
  (0 ≤ k)%Z ->
  (Z.of_nat (length (slice_to l k)) ≤ k)%Z
  ∧ ((Z.of_nat (length (slice_to l k)) < k)%Z ->
     (Z.of_nat (length l) < k)%Z).
Proof.
  intros Hk. rewrite slice_to_length, bool_decide_eq_true_2 by done. lia.
Qed.

Lemma recommend_for_user_count self user_id k exclude_items boost :
  well_formed self -> (0 ≤ k)%Z ->
  (1 ≤ k)%Z ∨ (is_Some (PyDict.get (user_profiles self) user_id)
               ∧ is_Some (item_embeddings self)) ->
  exists res,
    (recommend_for_user l2_norm user_id k exclude_items boost self).1 = Ok res
    ∧ (Z.of_nat (length res) ≤ k)%Z
    ∧ ((Z.of_nat (length res) < k)%Z ->
       (Z.of_nat (length (catalog_after_exclusions self
                            (default [] exclude_items))) < k)%Z).
Proof.
  intros (Hnd & Hemb & Hpop) Hk0 Hcase.
  unfold recommend_for_user. unfold bind at 1. unfold gets at 1.
  unfold bind at 1. unfold gets at 1. simpl.
  destruct (PyDict.get (user_profiles self) user_id) as [profile|] eqn:Hp;
    [destruct (item_embeddings self) as [embs|] eqn:He|].
  - unfold bind at 1. unfold lift at 1. simpl.
    set (sims := map _ (map (unit_row l2_norm) embs)).
    assert (length (item_ids self) ≤ length sims) as Hlen.
    { unfold sims. rewrite !length_map. lia. }
    assert (exists sims',
      (if Qc_ltb 0%Qc boost then
         popularity <- gets item_popularity ;;
         ids <- gets item_ids ;;
         boost_loop boost
           match popularity with
           | [] => 1
           | _ => foldr Nat.max 0 (PyDict.values popularity)
           end ids sims
       else ret sims) self = (Ok sims', self)
      ∧ length sims' = length sims) as (sims' & Hrun & Hlen').
    { destruct (Qc_ltb 0%Qc boost); [|by exists sims].
      unfold bind at 1. unfold gets at 1. unfold bind at 1. unfold gets at 1.
      apply boost_loop_ok; [by apply max_pop_positive|done]. }
    unfold bind at 1. rewrite Hrun. unfold bind, gets, ret. simpl.
    eexists. split; [done|].
    rewrite (fold_skip_append _
      (fun c : Z * Qc =>
         bool_decide (c.1 ∉ (list_to_set (default [] exclude_items) : gset Z)))
      (fun c => c)) by done.
    simpl. rewrite map_id.
    pose proof (slice_to_count
      (sorted_desc snd
         (List.filter
            (fun c : Z * Qc =>
               bool_decide
                 (c.1 ∉ (list_to_set (default [] exclude_items) : gset Z)))
            (zip (item_ids self) sims'))) k Hk0) as Hslice.
    rewrite sorted_desc_length in Hslice.
    pose proof (filter_zip_fst_length
      (fun i => bool_decide
         (i ∉ (list_to_set (default [] exclude_items) : gset Z)))
      (item_ids self) sims' ltac:(lia)) as Hf.
    simpl in Hf. rewrite Hf in Hslice.
    assert (catalog_after_exclusions self (default [] exclude_items)
            = List.filter
                (fun i => bool_decide
                   (i ∉ (list_to_set (default [] exclude_items) : gset Z)))
                (item_ids self)) as ->.
    { apply List.filter_ext. intros i. apply bool_decide_ext.
      by rewrite elem_of_list_to_set. }
    exact Hslice.
  - destruct Hcase as [Hk1|[_ [? ?]]]; [|done].
    by apply recommend_popular_count.
  - destruct Hcase as [Hk1|[[? ?] _]]; [|done].
    by apply recommend_popular_count.
Qed.

Lemma recommend_similar_items_count self item_id k exclude_self :
  well_formed self -> (0 ≤ k)%Z ->
  exists res,
    (recommend_similar_items l2_norm item_id k exclude_self self).1 = Ok res
    ∧ (Z.of_nat (length res) ≤ k)%Z
    ∧ (item_id ∈ item_ids self ->
       (Z.of_nat (length res) < k)%Z ->
       (Z.of_nat (length (catalog_after_exclusions self
                            (if exclude_self then [item_id] else []))) < k)%Z)
    ∧ (item_id ∉ item_ids self -> res = []).
Proof.
  intros (Hnd & Hemb & Hpop) Hk0.
  unfold recommend_similar_items. unfold bind at 1. unfold gets at 1.
  unfold bind at 1. unfold gets at 1. simpl.
  destruct (item_embeddings self) as [embs|] eqn:He.
  - case_bool_decide as Hin.
    + assert (exists e, embs !! index_of item_id (item_ids self) = Some e)
        as [e Hrow].
      { apply lookup_lt_is_Some_2. rewrite Hemb. clear -Hin.
        induction (item_ids self) as [|y l IH]; simpl.
        - by apply elem_of_nil in Hin.
        - destruct (decide (y = item_id)); [lia|].
          apply elem_of_cons in Hin as [?|Hin]; [congruence|].
          specialize (IH Hin). lia. }
      unfold bind at 1. unfold lift at 1, row at 1. rewrite Hrow.
      unfold bind, lift, ret. simpl.
      set (sims := map _ (map (unit_row l2_norm) embs)).
      assert (length (item_ids self) ≤ length sims) as Hlen.
      { unfold sims. rewrite !length_map. lia. }
      eexists. split; [done|].
      rewrite (fold_skip_append _
        (fun c : Z * Qc => negb (exclude_self && bool_decide (c.1 = item_id)))
        (fun c => c)).
      2:{ intros acc c. by destruct (exclude_self && _). }
      rewrite map_id.
      pose proof (slice_to_count
        (sorted_desc snd
           (List.filter
              (fun c : Z * Qc =>
                 negb (exclude_self && bool_decide (c.1 = item_id)))
              (zip (item_ids self) sims))) k Hk0) as Hslice.
      rewrite sorted_desc_length in Hslice.
      pose proof (filter_zip_fst_length
        (fun i => negb (exclude_self && bool_decide (i = item_id)))
        (item_ids self) sims Hlen) as Hf.
      simpl in Hf. rewrite Hf in Hslice.
      destruct Hslice as [Hle Hfew]. split_and!; [done| |done].
      intros _ Hlt. specialize (Hfew Hlt).
      assert (catalog_after_exclusions self
                (if exclude_self then [item_id] else [])
              = List.filter
                  (fun i => negb (exclude_self && bool_decide (i = item_id)))
                  (item_ids self)) as ->; [|exact Hfew].
      apply List.filter_ext.
      intros i. destruct exclude_self; simpl.
      * destruct (decide (i = item_id)) as [->|Hne].
        -- rewrite bool_decide_eq_false_2, bool_decide_eq_true_2; [done..|].
           intros Hn. apply Hn. by apply list_elem_of_singleton.
        -- rewrite bool_decide_eq_true_2, bool_decide_eq_false_2; [done..|].
           by rewrite list_elem_of_singleton.
      * done.
    + exists []. unfold ret. simpl. split_and!; [done|lia|done|done].
  - exists []. unfold ret. simpl. split_and!; [done|lia| |done].
    intros Hin. rewrite Hemb in Hin. by apply elem_of_nil in Hin.
Qed.
End RecommendFacts.

Section RecommendClaims.
Import Embeddings Recommend.

Lemma catalog_with_history_well_formed :
  well_formed Examples.catalog_with_history.
Proof.
  unfold well_formed. split_and!.
  - apply (bool_decide_unpack _). vm_compute. reflexivity.
  - reflexivity.
  - repeat constructor.
Defined.

(** C8, as the code has it. On a well-formed recommender and for every
    k >= 0: [recommend_for_user] for a user with a profile, and for any
    user when k >= 1, returns at most k results, and fewer than k only
    if the catalog without the excluded items has fewer than k items;
    so does [_recommend_popular] when k >= 1; and
    [recommend_similar_items] returns at most k results, for an item of
    the catalog fewer than k only if the catalog without that item (when
    it is excluded) has fewer than k items, and for an unknown item no
    results at all. *)
Theorem recommendations_at_most_k
    (l2_norm : vec -> Qc) (self : ContentBasedRecommender)
    (user_id : string) (item_id : Z) (k : Z)
    (exclude_items : option (list Z)) (popularity_boost : Qc)
    (exclude_self : bool) :
  well_formed self -> (0 ≤ k)%Z ->
  ((1 ≤ k)%Z ∨ (is_Some (PyDict.get (user_profiles self) user_id)
                ∧ is_Some (item_embeddings self)) ->
   exists res,
     (recommend_for_user l2_norm user_id k exclude_items popularity_boost
        self).1 = Ok res
     ∧ (Z.of_nat (length res) ≤ k)%Z
     ∧ ((Z.of_nat (length res) < k)%Z ->
        (Z.of_nat (length (catalog_after_exclusions self
                             (default [] exclude_items))) < k)%Z))
  ∧ ((1 ≤ k)%Z ->
     exists res,
       (_recommend_popular k exclude_items self).1 = Ok res
       ∧ (Z.of_nat (length res) ≤ k)%Z
       ∧ ((Z.of_nat (length res) < k)%Z ->
          (Z.of_nat (length (catalog_after_exclusions self
                               (default [] exclude_items))) < k)%Z))
  ∧ (exists res,
       (recommend_similar_items l2_norm item_id k exclude_self self).1 = Ok res
       ∧ (Z.of_nat (length res) ≤ k)%Z
       ∧ (item_id ∈ item_ids self ->
          (Z.of_nat (length res) < k)%Z ->
          (Z.of_nat (length (catalog_after_exclusions self
                               (if exclude_self then [item_id] else []))) < k)%Z)
       ∧ (item_id ∉ item_ids self -> res = [])).
Proof.
  intros Hwf Hk. split_and!.
  - intros Hcase. by apply recommend_for_user_count.
  - intros Hk1. apply recommend_popular_count; [apply Hwf|done].
  - by apply recommend_similar_items_count.
Qed.

Lemma recommendations_at_most_k_witness :
  exists res,
    (_recommend_popular 2 (Some [2%Z]) Examples.catalog_with_history).1 = Ok res
    ∧ (Z.of_nat (length res) ≤ 2)%Z
    ∧ ((Z.of_nat (length res) < 2)%Z ->
       (Z.of_nat (length (catalog_after_exclusions Examples.catalog_with_history
                            [2%Z])) < 2)%Z).
Proof.
  refine (proj1 (proj2 (recommendations_at_most_k Examples.sample_norm
    Examples.catalog_with_history "u1" 1%Z 2 (Some [2%Z]) 0%Qc true
    catalog_with_history_well_formed _)) _); lia.
Defined.

(** C8 as stated fails: for an item that is not in the catalog
    [recommend_similar_items] returns no result, fewer than k = 1, while
    the catalog (from which nothing is removed) holds two items. *)
Lemma recommend_similar_items_unknown_counterexample :
  ~ (forall res,
       (recommend_similar_items Examples.sample_norm 99 1 true
          Examples.catalog).1 = Ok res ->
       (Z.of_nat (length res) ≤ 1)%Z
       ∧ ((Z.of_nat (length res) < 1)%Z ->
          (Z.of_nat (length (catalog_after_exclusions Examples.catalog
                               [99%Z])) < 1)%Z)).
Proof.
  intros H. destruct (H [] eq_refl) as [_ Hfew].
  assert (Z.of_nat 0 < 1)%Z as Hlt by lia.
  specialize (Hfew Hlt). vm_compute in Hfew. discriminate.
Qed.

(** With k = 0 the popularity fallback returns one result: its loop
    tests the length only after it has appended. *)
Lemma recommend_popular_zero :
  (_recommend_popular 0 None Examples.catalog_with_history).1
  = Ok [(1%Z, Qc_of_nat 1)]
  ∧ (recommend_for_user Examples.sample_norm "nobody" 0 None 0%Qc
       Examples.catalog_with_history).1
    = Ok [(1%Z, Qc_of_nat 1)].
Proof. split; vm_compute; reflexivity. Qed.

(** Outside the well-formed states the count can fall short too: a
    catalog that repeats an identifier is padded with it once, and a
    catalog with fewer embedding rows than identifiers is cut to the
    rows. *)
Lemma recommend_short_of_k_ill_formed :
  (_recommend_popular 3 None Examples.repeated_catalog).1 = Ok [(1%Z, 0%Qc)]
  ∧ length (catalog_after_exclusions Examples.repeated_catalog []) = 3%nat
  ∧ (exists res,
       (recommend_for_user Examples.sample_norm "u1" 3 None 0%Qc
          Examples.short_catalog).1 = Ok res
       ∧ length res = 1%nat)
  ∧ length (catalog_after_exclusions Examples.short_catalog []) = 3%nat.
Proof.
  split_and!; [vm_compute; reflexivity|reflexivity| |reflexivity].
  eexists. split; [vm_compute; reflexivity|reflexivity].
Qed.

(** C10. The three read operations leave the recommender exactly as they
    found it (catalog, profiles and popularity counts), whatever they
    return; [set_items] and [update_user_profile] do change it. *)
Theorem read_operations_preserve_state :
  (forall l2_norm user_id k exclude_items popularity_boost self,
     (recommend_for_user l2_norm user_id k exclude_items popularity_boost
        self).2 = self)
  ∧ (forall l2_norm item_id k exclude_self self,
       (recommend_similar_items l2_norm item_id k exclude_self self).2 = self)
  ∧ (forall k exclude_items self,
       (_recommend_popular k exclude_items self).2 = self)
  ∧ (set_items [1; 2]%Z [[1; 0]; [0; 1]]%Qc init).2 ≠ init
  ∧ (update_user_profile Examples.sample_norm "u1" [1%Z] Examples.catalog).2
    ≠ Examples.catalog.
Proof.
  split_and!.
  - intros. apply frame_recommend_for_user.
  - intros. apply frame_recommend_similar_items.
  - intros. apply frame_recommend_popular.
  - intros H. apply (f_equal item_ids) in H. discriminate.
  - intros H. apply (f_equal item_popularity) in H. vm_compute in H.
    discriminate.
Qed.
End RecommendClaims.

(** ** Similarity clustering *)

Section UnionFindFacts.
Import Embeddings Dedup.
Implicit Types (p : list (Z * Z)) (uf : UnionFind) (x y r : Z).

(** *** Roots *)

Lemma root_of_fun p x r1 r2 : root_of p x r1 -> root_of p x r2 -> r1 = r2.
Proof.
  intros H1. revert r2. induction H1 as [x Hx|x q r Hx Hq H1 IH]; intros r2 H2.
  - inversion H2 as [? Hx'|? q' ? Hx' Hq' ?]; subst; [done|congruence].
  - inversion H2 as [? Hx'|? q' ? Hx' Hq' H2']; subst; [congruence|].
    apply IH. congruence.
Qed.

Lemma root_of_is_root p x r : root_of p x r -> PyDict.get p r = Some r.
Proof. induction 1; done. Qed.

Lemma root_of_root p x r : root_of p x r -> root_of p r r.
Proof. intros H. apply root_here. by eapply root_of_is_root. Qed.

Lemma root_of_present p x r : root_of p x r -> x ∈ PyDict.keys p.
Proof. intros H. inversion H; subst; by eapply get_Some_keys. Qed.

(** Path compression: pointing a node that is not a root at its own root
    changes the root of no node. *)
Lemma root_of_compress p x q r :
  PyDict.get p x = Some q -> q ≠ x -> root_of p x r ->
  forall y ry, root_of p y ry -> root_of (PyDict.set p x r) y ry.
Proof.
  intros Hx Hq Hr y ry Hy.
  assert (r ≠ x) as Hrx.
  { intros ->. apply root_of_is_root in Hr. congruence. }
  induction Hy as [y Hy|y q' ry Hy Hq' Hy' IH].
  - apply root_here. rewrite get_set. destruct (decide (x = y)); [congruence|done].
  - destruct (decide (x = y)) as [<-|Hne].
    + assert (ry = r) as ->.
      { eapply root_of_fun; [|exact Hr]. by eapply root_up. }
      eapply root_up; [by rewrite get_set_eq|done|].
      apply root_here. rewrite get_set_ne by done. by eapply root_of_is_root.
    + eapply root_up; [|exact Hq'|exact IH]. by rewrite get_set_ne.
Qed.

(** Linking the root [a] below the root [b] moves the nodes of [a] to [b]
    and changes nothing else. *)
Lemma root_of_link p a b :
  PyDict.get p a = Some a -> PyDict.get p b = Some b -> a ≠ b ->
  forall z rz,
    root_of p z rz -> root_of (PyDict.set p a b) z (if decide (rz = a) then b else rz).
Proof.
  intros Ha Hb Hab z rz Hz.
  induction Hz as [z Hz|z q rz Hz Hq Hz' IH].
  - destruct (decide (z = a)) as [->|Hne].
    + eapply root_up; [by rewrite get_set_eq|done|].
      apply root_here. by rewrite get_set_ne.
    + apply root_here. by rewrite get_set_ne.
  - eapply root_up; [|exact Hq|exact IH].
    rewrite get_set_ne; [done|]. intros ->. congruence.
Qed.

(** A new node is its own root, and the roots of the others stay. *)
Lemma root_of_add p x :
  x ∉ PyDict.keys p ->
  root_of (PyDict.set p x x) x x
  ∧ forall y ry, root_of p y ry -> root_of (PyDict.set p x x) y ry.
Proof.
  intros Hnew. split.
  - apply root_here. by rewrite get_set_eq.
  - intros y ry Hy. induction Hy as [y Hy|y q ry Hy Hq Hy' IH].
    + apply root_here. rewrite get_set_ne; [done|].
      intros ->. apply Hnew. by eapply get_Some_keys.
    + eapply root_up; [|exact Hq|exact IH].
      rewrite get_set_ne; [done|].
      intros ->. apply Hnew. by eapply get_Some_keys.
Qed.

(** *** Counting ranks and nodes below a root *)

Lemma nonroots_le_length p : nonroots p ≤ length p.
Proof.
  unfold nonroots. induction p as [|kv p IH]; simpl; [done|].
  destruct (bool_decide _); simpl; lia.
Qed.

Lemma nonroots_app p1 p2 : nonroots (p1 ++ p2) = nonroots p1 + nonroots p2.
Proof. unfold nonroots. by rewrite List.filter_app, length_app. Qed.

Lemma nonroots_set_present p x q v :
  PyDict.get p x = Some q ->
  nonroots (PyDict.set p x v) + (if decide (x = q) then 0 else 1)
  = nonroots p + (if decide (x = v) then 0 else 1).
Proof.
  intros Hg. destruct (set_present_split p x v q Hg) as (p1 & p2 & -> & ->).
  rewrite !nonroots_app. unfold nonroots. simpl.
  destruct (decide (x = q)), (decide (x = v)).
  - rewrite !bool_decide_eq_false_2 by tauto. simpl. lia.
  - rewrite bool_decide_eq_true_2, bool_decide_eq_false_2 by tauto. simpl. lia.
  - rewrite bool_decide_eq_false_2, bool_decide_eq_true_2 by tauto. simpl. lia.
  - rewrite !bool_decide_eq_true_2 by tauto. simpl. lia.
Qed.

Lemma nonroots_add p x : x ∉ PyDict.keys p -> nonroots (PyDict.set p x x) = nonroots p.
Proof.
  intros Hnew. rewrite set_absent by done. rewrite nonroots_app.
  unfold nonroots. simpl. rewrite bool_decide_eq_false_2 by tauto. simpl. lia.
Qed.

Lemma sum_set_present (d : list (Z * nat)) x v0 v :
  PyDict.get d x = Some v0 ->
  sum_list (PyDict.values (PyDict.set d x v)) + v0
  = sum_list (PyDict.values d) + v.
Proof.
  intros Hg. destruct (set_present_split d x v v0 Hg) as (d1 & d2 & -> & ->).
  unfold PyDict.values. rewrite !fmap_app, !sum_list_with_app. csimpl. lia.
Qed.

Lemma sum_set_absent (d : list (Z * nat)) x v :
  x ∉ PyDict.keys d ->
  sum_list (PyDict.values (PyDict.set d x v)) = sum_list (PyDict.values d) + v.
Proof.
  intros Hnew. rewrite set_absent by done. unfold PyDict.values.
  rewrite fmap_app, sum_list_with_app. csimpl. lia.
Qed.

Lemma get_le_sum (d : list (Z * nat)) x v :
  PyDict.get d x = Some v -> v ≤ sum_list (PyDict.values d).
Proof.
  intros Hg. destruct (set_present_split d x v v Hg) as (d1 & d2 & -> & _).
  unfold PyDict.values. rewrite fmap_app, sum_list_with_app. csimpl. lia.
Qed.

(** *** The invariant *)

Lemma wf_new : wf new.
Proof.
  split; simpl.
  - done.
  - apply NoDup_nil_2.
  - intros x q Hg. done.
  - done.
Qed.

Lemma wf_rank_present uf x :
  wf uf -> x ∈ PyDict.keys (parent uf) -> is_Some (PyDict.get (rank uf) x).
Proof.
  intros Hwf Hx. apply get_is_Some. by rewrite <-(wf_keys uf Hwf).
Qed.

Lemma wf_rank_bound uf x rx :
  wf uf -> PyDict.get (rank uf) x = Some rx -> rx ≤ length (parent uf).
Proof.
  intros Hwf Hg. pose proof (get_le_sum _ _ _ Hg) as Hle.
  pose proof (wf_sum uf Hwf). pose proof (nonroots_le_length (parent uf)). lia.
Qed.

Lemma root_of_rank_le uf y r :
  wf uf -> root_of (parent uf) y r ->
  exists ry rr,
    PyDict.get (rank uf) y = Some ry ∧ PyDict.get (rank uf) r = Some rr
    ∧ ry ≤ rr.
Proof.
  intros Hwf Hy. induction Hy as [y Hy|y q r Hy Hq Hy' IH].
  - destruct (wf_rank_present uf y Hwf) as [ry Hry]; [by eapply get_Some_keys|].
    exists ry, ry. done.
  - destruct IH as (rq & rr & Hrq & Hrr & Hle).
    destruct (wf_rank uf Hwf y q Hy Hq) as (ry & rq' & Hry & Hrq' & Hlt).
    exists ry, rr. split_and!; [done|done|]. simplify_eq. lia.
Qed.

Lemma root_of_rank_lt uf x q r :
  wf uf -> PyDict.get (parent uf) x = Some q -> q ≠ x ->
  root_of (parent uf) q r ->
  exists rx rr,
    PyDict.get (rank uf) x = Some rx ∧ PyDict.get (rank uf) r = Some rr
    ∧ rx < rr.
Proof.
  intros Hwf Hx Hq Hr.
  destruct (root_of_rank_le uf q r Hwf Hr) as (rq & rr & Hrq & Hrr & Hle).
  destruct (wf_rank uf Hwf x q Hx Hq) as (rx & rq' & Hrx & Hrq' & Hlt).
  exists rx, rr. split_and!; [done|done|]. simplify_eq. lia.
Qed.

Lemma wf_add uf x :
  wf uf -> x ∉ PyDict.keys (parent uf) ->
  wf {| parent := PyDict.set (parent uf) x x;
        rank := PyDict.set (rank uf) x 0 |}.
Proof.
  intros Hwf Hnew.
  assert (x ∉ PyDict.keys (rank uf)) as Hnew' by by rewrite <-(wf_keys uf Hwf).
  split; simpl.
  - rewrite !keys_set_absent by done. by rewrite (wf_keys uf Hwf).
  - apply NoDup_keys_set, Hwf.
  - intros y q. rewrite get_set. destruct (decide (x = y)) as [->|Hne].
    { intros [= <-] Hq. done. }
    intros Hy Hq. destruct (wf_rank uf Hwf y q Hy Hq) as (ry & rq & Hry & Hrq & Hlt).
    exists ry, rq. rewrite !get_set_ne; [done| |done].
    intros ->. apply Hnew'. by eapply get_Some_keys.
  - rewrite nonroots_add, sum_set_absent by done.
    pose proof (wf_sum uf Hwf). lia.
Qed.

Lemma wf_compress uf x q r :
  wf uf -> PyDict.get (parent uf) x = Some q -> q ≠ x ->
  root_of (parent uf) x r ->
  wf {| parent := PyDict.set (parent uf) x r; rank := rank uf |}.
Proof.
  intros Hwf Hx Hq Hr.
  assert (root_of (parent uf) q r) as Hqr.
  { inversion Hr as [? Hx'|? q' ? Hx' Hq' Hr']; subst; congruence. }
  destruct (root_of_rank_lt uf x q r Hwf Hx Hq Hqr)
    as (rx & rr & Hrx & Hrr & Hlt).
  assert (x ≠ r) as Hxr by (intros ->; simplify_eq; lia).
  split; simpl.
  - rewrite keys_set_present; [apply Hwf|by eapply get_Some_keys].
  - apply NoDup_keys_set, Hwf.
  - intros y p'. rewrite get_set. destruct (decide (x = y)) as [<-|Hne].
    + intros [= <-] _. by exists rx, rr.
    + apply Hwf.
  - pose proof (nonroots_set_present (parent uf) x q r Hx) as Hn.
    rewrite !decide_False in Hn by done. pose proof (wf_sum uf Hwf). lia.
Qed.

(** Linking a root below another root of larger rank, or of equal rank
    when the rank of the new root is then incremented. *)
Lemma wf_link_lt uf a b ra rb :
  wf uf -> PyDict.get (parent uf) a = Some a ->
  PyDict.get (rank uf) a = Some ra -> PyDict.get (rank uf) b = Some rb ->
  ra < rb ->
  wf {| parent := PyDict.set (parent uf) a b; rank := rank uf |}.
Proof.
  intros Hwf Ha Hra Hrb Hlt.
  assert (a ≠ b) as Hab by (intros ->; simplify_eq; lia).
  split; simpl.
  - rewrite keys_set_present; [apply Hwf|by eapply get_Some_keys].
  - apply NoDup_keys_set, Hwf.
  - intros y p'. rewrite get_set. destruct (decide (a = y)) as [<-|Hne].
    + intros [= <-] _. by exists ra, rb.
    + apply Hwf.
  - pose proof (nonroots_set_present (parent uf) a a b Ha) as Hn.
    rewrite decide_True, decide_False in Hn by done.
    pose proof (wf_sum uf Hwf). lia.
Qed.

Lemma wf_link_eq uf a b ra :
  wf uf -> PyDict.get (parent uf) a = Some a ->
  PyDict.get (parent uf) b = Some b -> a ≠ b ->
  PyDict.get (rank uf) a = Some ra -> PyDict.get (rank uf) b = Some ra ->
  wf {| parent := PyDict.set (parent uf) a b;
        rank := PyDict.set (rank uf) b (ra + 1) |}.
Proof.
  intros Hwf Ha Hb Hab Hra Hrb. split; simpl.
  - rewrite !keys_set_present; [apply Hwf|by eapply get_Some_keys..].
  - apply NoDup_keys_set, Hwf.
  - intros y p'. rewrite get_set. destruct (decide (a = y)) as [<-|Hne].
    + intros [= <-] _. exists ra, (ra + 1).
      rewrite get_set_ne, get_set_eq by done. split_and!; [done|done|lia].
    + intros Hy Hp'.
      destruct (wf_rank uf Hwf y p' Hy Hp') as (ry & rp & Hry & Hrp & Hlt).
      assert (y ≠ b) as Hyb by (intros ->; congruence).
      rewrite get_set_ne by done. rewrite get_set.
      destruct (decide (b = p')) as [<-|Hne'].
      * exists ry, (ra + 1). split_and!; [done|done|]. simplify_eq. lia.
      * by exists ry, rp.
  - pose proof (nonroots_set_present (parent uf) a a b Ha) as Hn.
    rewrite decide_True, decide_False in Hn by done.
    pose proof (sum_set_present (rank uf) b ra (ra + 1) Hrb) as Hs.
    pose proof (wf_sum uf Hwf). lia.
Qed.

(** *** [find] *)

Lemma find_rec_present depth uf x rx :
  wf uf -> PyDict.get (rank uf) x = Some rx ->
  length (parent uf) - rx < depth ->
  exists uf' r,
    find_rec depth uf x = Ok (uf', r)
    ∧ wf uf'
    ∧ PyDict.keys (parent uf') = PyDict.keys (parent uf)
    ∧ rank uf' = rank uf
    ∧ root_of (parent uf) x r
    ∧ (forall y ry, root_of (parent uf) y ry -> root_of (parent uf') y ry).
Proof.
  intros Hwf. revert x rx.
  induction depth as [|depth IH]; intros x rx Hrx Hdepth; [lia|].
  simpl.
  assert (is_Some (PyDict.get (parent uf) x)) as [q Hx].
  { apply get_is_Some. rewrite (wf_keys uf Hwf). by eapply get_Some_keys. }
  rewrite Hx. case_bool_decide as Hq.
  - destruct (wf_rank uf Hwf x q Hx Hq) as (rx' & rq & Hrx' & Hrq & Hlt).
    pose proof (wf_rank_bound uf q rq Hwf Hrq) as Hbound.
    destruct (IH q rq Hrq) as (uf1 & r & -> & Hwf1 & Hkeys & Hrank & Hroot & Hfwd).
    { simplify_eq. lia. }
    simpl.
    assert (root_of (parent uf) x r) as Hxr by by eapply root_up.
    destruct (root_of_rank_lt uf x q r Hwf Hx Hq Hroot)
      as (rx2 & rr & Hrx2 & Hrr & Hlt2).
    assert (r ≠ x) as Hne by (intros ->; simplify_eq; lia).
    pose proof (Hfwd x r Hxr) as Hxr1.
    inversion Hxr1 as [? Hx1|? q1 ? Hx1 Hq1 Hr1]; subst; [done|].
    eexists _, r. split_and!; [done| | |done|done|].
    + by eapply wf_compress.
    + simpl. rewrite keys_set_present; [done|by eapply get_Some_keys].
    + intros y ry Hy. simpl. eapply root_of_compress; eauto.
  - subst q.
    exists uf, x. split_and!; [done..| |done]. by apply root_here.
Qed.

Lemma find_total uf x :
  wf uf ->
  exists uf' r,
    find uf x = Ok (uf', r)
    ∧ wf uf'
    ∧ (forall k, k ∈ PyDict.keys (parent uf')
                 <-> k = x ∨ k ∈ PyDict.keys (parent uf))
    ∧ (x ∈ PyDict.keys (parent uf) ->
       PyDict.keys (parent uf') = PyDict.keys (parent uf))
    ∧ root_of (parent uf') x r
    ∧ (forall y ry, root_of (parent uf) y ry -> root_of (parent uf') y ry).
Proof.
  intros Hwf. unfold find.
  destruct (decide (x ∈ PyDict.keys (parent uf))) as [Hin|Hnew].
  - destruct (wf_rank_present uf x Hwf Hin) as [rx Hrx].
    destruct (find_rec_present (S (length (parent uf))) uf x rx Hwf Hrx)
      as (uf' & r & Hfind & Hwf' & Hkeys & _ & Hroot & Hfwd); [lia|].
    exists uf', r. split_and!; [done|done| |done|by apply Hfwd|done].
    intros k. rewrite Hkeys. split; [by right|]. by intros [->|?].
  - simpl. apply get_None in Hnew as Hget. rewrite Hget.
    destruct (root_of_add (parent uf) x Hnew) as [Hself Hfwd].
    eexists _, x. split_and!; [done| | |done|done|done].
    + by apply wf_add.
    + intros k. simpl. by rewrite elem_keys_set.
Qed.

(** Every node of a well-formed structure has a root. *)
Lemma has_root uf x :
  wf uf -> x ∈ PyDict.keys (parent uf) -> exists r, root_of (parent uf) x r.
Proof.
  intros Hwf Hin. destruct (wf_rank_present uf x Hwf Hin) as [rx Hrx].
  destruct (find_rec_present (S (length (parent uf))) uf x rx Hwf Hrx)
    as (uf' & r & _ & _ & _ & _ & Hroot & _); [lia|]. by exists r.
Qed.

(** *** Classes that respect a labelling of the nodes *)

Lemma respects_new {L : Type} (kappa : Z -> L) : respects kappa new.
Proof. intros z rz Hz. inversion Hz; subst; done. Qed.

Lemma respects_find {L : Type} (kappa : Z -> L) uf x uf' r :
  wf uf -> find uf x = Ok (uf', r) -> respects kappa uf -> respects kappa uf'.
Proof.
  intros Hwf Hfind Hresp z rz Hz.
  destruct (find_total uf x Hwf)
    as (uf1 & r1 & Hfind1 & Hwf1 & Hkeys & _ & Hroot & Hfwd).
  rewrite Hfind in Hfind1. injection Hfind1 as <- <-.
  pose proof (root_of_present _ _ _ Hz) as Hin. apply Hkeys in Hin as [->|Hin].
  - destruct (decide (x ∈ PyDict.keys (parent uf))) as [Hold|Hnew].
    + destruct (has_root uf x Hwf Hold) as [r0 Hr0].
      rewrite (root_of_fun _ _ _ _ Hz (Hfwd _ _ Hr0)). by apply Hresp.
    + assert (root_of (parent uf') x x) as Hself.
      { unfold find in Hfind. simpl in Hfind. apply get_None in Hnew.
        rewrite Hnew in Hfind. injection Hfind as <- _. simpl.
        apply root_here. by rewrite get_set_eq. }
      by rewrite (root_of_fun _ _ _ _ Hz Hself).
  - destruct (has_root uf z Hwf Hin) as [r0 Hr0].
    rewrite (root_of_fun _ _ _ _ Hz (Hfwd _ _ Hr0)). by apply Hresp.
Qed.

Lemma respects_link {L : Type} (kappa : Z -> L) uf a b rk :
  wf uf -> PyDict.get (parent uf) a = Some a ->
  PyDict.get (parent uf) b = Some b -> a ≠ b -> kappa a = kappa b ->
  respects kappa uf ->
  respects kappa {| parent := PyDict.set (parent uf) a b; rank := rk |}.
Proof.
  intros Hwf Ha Hb Hab Hk Hresp z rz' Hz. simpl in Hz.
  assert (z ∈ PyDict.keys (parent uf)) as Hin.
  { apply root_of_present in Hz.
    rewrite keys_set_present in Hz; [done|by eapply get_Some_keys]. }
  destruct (has_root uf z Hwf Hin) as [rz Hrz].
  pose proof (root_of_link _ a b Ha Hb Hab z rz Hrz) as Hz'.
  rewrite (root_of_fun _ _ _ _ Hz Hz').
  destruct (decide (rz = a)) as [->|Hne].
  - rewrite <-Hk. by apply Hresp.
  - by apply Hresp.
Qed.

(** *** [union] *)

Lemma union_total uf x y :
  wf uf ->
  exists uf',
    union uf x y = Ok uf'
    ∧ wf uf'
    ∧ (forall k, k ∈ PyDict.keys (parent uf')
                 <-> k = x ∨ k = y ∨ k ∈ PyDict.keys (parent uf))
    ∧ (forall (L : Type) (kappa : Z -> L),
         kappa x = kappa y -> respects kappa uf -> respects kappa uf').
Proof.
  intros Hwf. unfold union.
  destruct (find_total uf x Hwf)
    as (uf1 & rx & Hf1 & Hwf1 & Hkeys1 & _ & Hroot1 & Hfwd1).
  destruct (find_total uf1 y Hwf1)
    as (uf2 & ry & Hf2 & Hwf2 & Hkeys2 & _ & Hroot2 & Hfwd2).
  rewrite Hf1. simpl. rewrite Hf2. simpl.
  assert (forall k, k ∈ PyDict.keys (parent uf2)
                    <-> k = x ∨ k = y ∨ k ∈ PyDict.keys (parent uf)) as Hkeys.
  { intros k. rewrite Hkeys2, Hkeys1. tauto. }
  assert (forall (L : Type) (kappa : Z -> L),
            respects kappa uf -> respects kappa uf2) as Hresp2.
  { intros L kappa Hr. eapply respects_find; [exact Hwf1|exact Hf2|].
    eapply respects_find; [exact Hwf|exact Hf1|exact Hr]. }
  pose proof (Hfwd2 _ _ Hroot1) as Hrootx.
  case_bool_decide as Heq.
  { exists uf2. split_and!; [done|done|done|]. intros L kappa _. apply Hresp2. }
  pose proof (root_of_is_root _ _ _ Hrootx) as Hpx.
  pose proof (root_of_is_root _ _ _ Hroot2) as Hpy.
  destruct (wf_rank_present uf2 rx Hwf2) as [rank_x Hrank_x];
    [by eapply get_Some_keys|].
  destruct (wf_rank_present uf2 ry Hwf2) as [rank_y Hrank_y];
    [by eapply get_Some_keys|].
  unfold getitem. rewrite Hrank_x, Hrank_y. simpl.
  assert (forall (L : Type) (kappa : Z -> L),
            kappa x = kappa y -> respects kappa uf -> kappa rx = kappa ry)
    as Hlabel.
  { intros L kappa Hk Hr. pose proof (Hresp2 L kappa Hr) as Hr2.
    rewrite (Hr2 _ _ Hrootx), (Hr2 _ _ Hroot2). done. }
  assert (forall a b rk k,
            PyDict.get (parent uf2) a = Some a ->
            (k ∈ PyDict.keys
                   (parent {| parent := PyDict.set (parent uf2) a b; rank := rk |})
             <-> k = x ∨ k = y ∨ k ∈ PyDict.keys (parent uf))) as Hkeys'.
  { intros a b rk k Ha. simpl.
    rewrite keys_set_present; [apply Hkeys|by eapply get_Some_keys]. }
  case_bool_decide as Hlt; [|case_bool_decide as Hgt].
  - eexists. split_and!; [done| | |].
    + by eapply wf_link_lt.
    + intros k. by apply Hkeys'.
    + intros L kappa Hk Hr. apply respects_link; auto.
  - eexists. split_and!; [done| | |].
    + by eapply wf_link_lt.
    + intros k. by apply Hkeys'.
    + intros L kappa Hk Hr. apply respects_link; auto.
      symmetry. by apply Hlabel.
  - assert (rank_y = rank_x) as -> by lia.
    eexists. split_and!; [done| | |].
    + apply wf_link_eq; auto.
    + intros k. by apply Hkeys'.
    + intros L kappa Hk Hr. apply respects_link; auto.
      symmetry. by apply Hlabel.
Qed.

(** *** [get_clusters] *)

Lemma dd_append_keys_NoDup {K V : Type} `{EqDecision K}
    (d : list (K * list V)) (k : K) (x : V) :
  NoDup (PyDict.keys d) -> NoDup (PyDict.keys (dd_append d k x)).
Proof. apply NoDup_keys_set. Qed.

Lemma dd_append_elem {K V : Type} `{EqDecision K}
    (d : list (K * list V)) (k : K) (x : V) k' items :
  (k', items) ∈ dd_append d k x ->
  (k' = k ∧ items = default [] (PyDict.get d k) ++ [x]) ∨ (k', items) ∈ d.
Proof. apply elem_of_set. Qed.

Lemma dd_append_concat {K V : Type} `{EqDecision K}
    (d : list (K * list V)) (k : K) (x : V) :
  concat (PyDict.values (dd_append d k x)) ≡ₚ x :: concat (PyDict.values d).
Proof.
  unfold dd_append. destruct (PyDict.get d k) as [v0|] eqn:Hg; simpl.
  - destruct (set_present_split d k (v0 ++ [x]) v0 Hg) as (d1 & d2 & -> & ->).
    unfold PyDict.values. rewrite !fmap_app, !concat_app. csimpl.
    rewrite <-!app_assoc. simpl.
    rewrite (Permutation_middle (concat d1.*2)).
    apply Permutation_app_head.
    rewrite (Permutation_middle v0). done.
  - apply get_None in Hg. rewrite set_absent by done.
    unfold PyDict.values. rewrite fmap_app, concat_app. csimpl.
    by rewrite <-Permutation_cons_append.
Qed.

Lemma get_clusters_loop uf0 todo uf cl seen :
  wf uf0 -> wf uf ->
  PyDict.keys (parent uf) = PyDict.keys (parent uf0) ->
  (forall y ry, root_of (parent uf0) y ry -> root_of (parent uf) y ry) ->
  (forall x, x ∈ todo -> x ∈ PyDict.keys (parent uf0)) ->
  NoDup (PyDict.keys cl) ->
  concat (PyDict.values cl) ≡ₚ seen ->
  (forall r items, (r, items) ∈ cl ->
     forall x, x ∈ items -> root_of (parent uf0) x r) ->
  exists uf' cl',
    rfold
      (fun (sc : UnionFind * list (Z * list Z)) item =>
         sr <-r find sc.1 item ;; Ok (sr.1, dd_append sc.2 sr.2 item))
      todo (uf, cl) = Ok (uf', cl')
    ∧ NoDup (PyDict.keys cl')
    ∧ concat (PyDict.values cl') ≡ₚ seen ++ todo
    ∧ (forall r items, (r, items) ∈ cl' ->
         forall x, x ∈ items -> root_of (parent uf0) x r).
Proof.
  intros Hwf0. revert uf cl seen.
  induction todo as [|x todo IH];
    intros uf cl seen Hwf Hkeys Hfwd Htodo Hnd Hperm Hcl.
  - exists uf, cl. rewrite app_nil_r. done.
  - simpl.
    assert (x ∈ PyDict.keys (parent uf0)) as Hx by (apply Htodo; left).
    destruct (find_total uf x Hwf)
      as (uf1 & r & Hfind & Hwf1 & _ & Hkeys1 & Hroot & Hfwd1).
    rewrite Hfind. simpl.
    assert (root_of (parent uf0) x r) as Hroot0.
    { destruct (has_root uf0 x Hwf0 Hx) as [r0 Hr0].
      by rewrite (root_of_fun _ _ _ _ Hroot (Hfwd1 _ _ (Hfwd _ _ Hr0))). }
    destruct (IH uf1 (dd_append cl r x) (seen ++ [x]))
      as (uf' & cl' & Hrun & Hnd' & Hperm' & Hcl'); [done|..].
    + rewrite Hkeys1; [done|]. by rewrite Hkeys.
    + intros y ry Hy. by apply Hfwd1, Hfwd.
    + intros y Hy. apply Htodo. by right.
    + by apply dd_append_keys_NoDup.
    + rewrite dd_append_concat, Hperm. apply Permutation_cons_append.
    + intros r' items Hin y Hy.
      apply dd_append_elem in Hin as [[-> ->]|Hin]; [|by eapply Hcl].
      apply elem_of_app in Hy as [Hy|Hy].
      * destruct (PyDict.get cl r) as [old|] eqn:Hold; simpl in Hy.
        -- eapply Hcl; [|exact Hy]. by apply get_Some_elem.
        -- by apply elem_of_nil in Hy.
      * by apply list_elem_of_singleton in Hy as ->.
    + exists uf', cl'. split_and!; [done|done| |done].
      by rewrite Hperm', <-app_assoc.
Qed.

Lemma get_clusters_total uf :
  wf uf ->
  exists uf' cl,
    get_clusters uf = Ok (uf', cl)
    ∧ NoDup (PyDict.keys cl)
    ∧ concat (PyDict.values cl) ≡ₚ PyDict.keys (parent uf)
    ∧ (forall r items, (r, items) ∈ cl ->
         forall x, x ∈ items -> root_of (parent uf) x r).
Proof.
  intros Hwf. unfold get_clusters.
  destruct (get_clusters_loop uf (PyDict.keys (parent uf)) uf [] [])
    as (uf' & cl & Hrun & Hnd & Hperm & Hcl); try done.
  - apply NoDup_nil_2.
  - intros r items Hin. by apply elem_of_nil in Hin.
  - by exists uf', cl.
Qed.

(** *** The loops of [deduplicate_items] *)

Lemma init_loop_covers (l : list Z) uf0 uf1 :
  rfold (fun uf item_id => sr <-r find uf item_id ;; Ok sr.1) l uf0 = Ok uf1 ->
  wf uf0 ->
  forall k, k ∈ l ∨ k ∈ PyDict.keys (parent uf0) ->
            k ∈ PyDict.keys (parent uf1).
Proof.
  revert uf0. induction l as [|x l IH]; intros uf0 Hr Hwf0 k Hk; simpl in Hr.
  - injection Hr as <-. destruct Hk as [Hk|Hk]; [|done].
    by apply elem_of_nil in Hk.
  - destruct (find_total uf0 x Hwf0) as (uf' & r & Hfind & Hwf' & Hkeys & _).
    rewrite Hfind in Hr. simpl in Hr.
    eapply IH; [exact Hr|exact Hwf'|].
    destruct Hk as [Hk|Hk].
    + apply elem_of_cons in Hk as [->|Hk]; [|by left].
      right. apply Hkeys. by left.
    + right. apply Hkeys. by right.
Qed.

Lemma init_loop_total {L : Type} (kappa : Z -> L) (item_ids : list Z) :
  exists uf,
    rfold (fun uf item_id => sr <-r find uf item_id ;; Ok sr.1) item_ids new
    = Ok uf
    ∧ good item_ids kappa uf.
Proof.
  destruct (rfold_total
    (fun uf => wf uf
               ∧ (forall k, k ∈ PyDict.keys (parent uf) -> k ∈ item_ids)
               ∧ respects kappa uf)
    (fun uf item_id => sr <-r find uf item_id ;; Ok sr.1) item_ids)
    with new as (uf & Hrun & Hwf & Hsub & Hresp).
  - intros uf x Hx (Hwf & Hsub & Hresp).
    destruct (find_total uf x Hwf) as (uf' & r & Hfind & Hwf' & Hkeys & _).
    exists uf'. rewrite Hfind. simpl. split_and!; [done|done| |].
    + intros k Hk. apply Hkeys in Hk as [->|Hk]; auto.
    + exact (respects_find kappa uf x uf' r Hwf Hfind Hresp).
  - split_and!; [apply wf_new| |apply respects_new].
    intros k Hk. by apply elem_of_nil in Hk.
  - exists uf. split; [done|]. split_and!; [done| |done].
    intros k. split; [apply Hsub|]. intros Hk.
    eapply init_loop_covers; [exact Hrun|apply wf_new|by left].
Qed.

Lemma row_Ok {A : Type} (m : list A) (i : nat) (r : A) :
  row m i = Ok r <-> m !! i = Some r.
Proof.
  unfold row. destruct (m !! i); split; intros H; by simplify_eq.
Qed.

Lemma union_step_good {L : Type} (kappa : Z -> L) all_ids sim ids thr uf ij uf' :
  (forall a, a ∈ ids -> a ∈ all_ids) ->
  (forall a b, a ∈ ids -> b ∈ ids -> kappa a = kappa b) ->
  good all_ids kappa uf ->
  union_step sim ids thr uf ij = Ok uf' ->
  good all_ids kappa uf'.
Proof.
  intros Hsub Hk (Hwf & Hkeys & Hresp). unfold union_step.
  destruct (entry sim ij.1 ij.2) as [s|e]; simpl; [|done].
  destruct (Qc_geb s thr); [|by intros [= <-]].
  destruct (row ids ij.1) as [a|e] eqn:Ha; simpl; [|done].
  destruct (row ids ij.2) as [b|e] eqn:Hb; simpl; [|done].
  apply row_Ok, list_elem_of_lookup_2 in Ha, Hb.
  destruct (union_total uf a b Hwf) as (uf1 & -> & Hwf1 & Hkeys1 & Hresp1).
  intros [= <-]. split_and!; [done| |by apply Hresp1; auto].
  intros k. rewrite Hkeys1, Hkeys. split; [|by auto].
  intros [->|[->|?]]; auto.
Qed.

Lemma union_step_total {L : Type} (kappa : Z -> L) all_ids sim ids thr uf ij :
  (forall a, a ∈ ids -> a ∈ all_ids) ->
  (forall a b, a ∈ ids -> b ∈ ids -> kappa a = kappa b) ->
  good all_ids kappa uf ->
  is_ok (entry sim ij.1 ij.2) -> ij.1 < length ids -> ij.2 < length ids ->
  exists uf', union_step sim ids thr uf ij = Ok uf' ∧ good all_ids kappa uf'.
Proof.
  intros Hsub Hk Hgood Hentry H1 H2.
  assert (exists uf', union_step sim ids thr uf ij = Ok uf') as [uf' Hrun].
  { unfold union_step. destruct (entry sim ij.1 ij.2) as [s|e]; [|done]. simpl.
    destruct (Qc_geb s thr); [|by eexists].
    destruct (lookup_lt_is_Some_2 ids ij.1 H1) as [a Ha].
    destruct (lookup_lt_is_Some_2 ids ij.2 H2) as [b Hb].
    unfold row at 1. rewrite Ha. simpl. unfold row at 1. rewrite Hb. simpl.
    destruct Hgood as (Hwf & _).
    destruct (union_total uf a b Hwf) as (uf1 & -> & _). by eexists. }
  exists uf'. split; [done|]. by eapply union_step_good.
Qed.

Lemma index_pairs_bound n i j : (i, j) ∈ index_pairs n -> i < j < n.
Proof.
  unfold index_pairs. rewrite list_elem_of_In, in_flat_map.
  intros (i' & Hi' & Hin). apply in_seq in Hi'.
  apply in_map_iff in Hin as (j' & [= <- <-] & Hj'). apply in_seq in Hj'. lia.
Qed.

Lemma entry_square l2_norm (rows : list vec) i j :
  i < length rows -> j < length rows ->
  is_ok (entry (batch_cosine_similarity l2_norm rows rows) i j).
Proof.
  intros Hi Hj. unfold entry, row, batch_cosine_similarity.
  rewrite !list_lookup_fmap.
  destruct (lookup_lt_is_Some_2 rows i Hi) as [ri ->]. simpl.
  rewrite !list_lookup_fmap.
  destruct (lookup_lt_is_Some_2 rows j Hj) as [rj ->]. done.
Qed.

Lemma union_similar_good {L : Type} (kappa : Z -> L) all_ids sim ids n
    thr uf uf' :
  (forall a, a ∈ ids -> a ∈ all_ids) ->
  (forall a b, a ∈ ids -> b ∈ ids -> kappa a = kappa b) ->
  good all_ids kappa uf ->
  union_similar sim ids n thr uf = Ok uf' ->
  good all_ids kappa uf'.
Proof.
  intros Hsub Hk Hgood. unfold union_similar.
  apply (rfold_invariant (good all_ids kappa)); [|done].
  intros a ij a' _ Ha. by apply (union_step_good kappa all_ids sim ids thr a ij a').
Qed.

Lemma union_similar_total {L : Type} (kappa : Z -> L) l2_norm all_ids rows ids
    thr uf :
  (forall a, a ∈ ids -> a ∈ all_ids) ->
  (forall a b, a ∈ ids -> b ∈ ids -> kappa a = kappa b) ->
  good all_ids kappa uf ->
  length ids ≤ length rows ->
  exists uf',
    union_similar (batch_cosine_similarity l2_norm rows rows) ids
      (length ids) thr uf = Ok uf'
    ∧ good all_ids kappa uf'.
Proof.
  intros Hsub Hk Hgood Hlen. unfold union_similar.
  apply (rfold_total (good all_ids kappa)); [|done].
  intros a [i j] Hij Ha. apply index_pairs_bound in Hij.
  apply (union_step_total kappa all_ids _ ids thr a (i, j)); simpl;
    [done|done|done| |lia|lia].
  apply entry_square; lia.
Qed.

Lemma block_groups_elem item_ids blocks b items i x :
  (b, items) ∈ block_groups item_ids blocks -> (i, x) ∈ items ->
  item_ids !! i = Some x ∧ blocks !! i = Some b.
Proof.
  unfold block_groups. revert b items i x.
  apply (fold_left_invariant
    (fun groups : list (string * list (nat * Z)) =>
       forall b items i x, (b, items) ∈ groups -> (i, x) ∈ items ->
         item_ids !! i = Some x ∧ blocks !! i = Some b)).
  - intros groups [i0 [x0 b0]] Hin Hinv b items i x Hb Hix. simpl in Hb.
    apply elem_of_lookup_imap in Hin as (i' & [x' b'] & [= <- <- <-] & Hz).
    apply lookup_zip_with_Some in Hz as (x1 & b1 & [= <- <-] & Hx & Hb0).
    apply dd_append_elem in Hb as [[-> ->]|Hb]; [|by eapply Hinv].
    apply elem_of_app in Hix as [Hix|Hix].
    + destruct (PyDict.get groups b0) as [old|] eqn:Hold; simpl in Hix.
      * eapply Hinv; [|exact Hix]. by apply get_Some_elem.
      * by apply elem_of_nil in Hix.
    + by apply list_elem_of_singleton in Hix as [= -> ->].
  - intros b items i x Hb. by apply elem_of_nil in Hb.
Qed.

Lemma take_rows_total (embeddings : list vec) (indices : list nat) :
  Forall (fun i => i < length embeddings) indices ->
  exists rows,
    take_rows embeddings indices = Ok rows ∧ length rows = length indices.
Proof.
  induction indices as [|i indices IH]; intros Hall; simpl.
  - by exists [].
  - apply Forall_cons in Hall as [Hi Hall].
    destruct (lookup_lt_is_Some_2 embeddings i Hi) as [r Hr].
    unfold row. rewrite Hr. simpl.
    destruct (IH Hall) as (rows & -> & Hlen). simpl.
    exists (r :: rows). simpl. by rewrite Hlen.
Qed.

Section BlockLoop.
Context {L : Type} (kappa : Z -> L).
Variables (l2_norm : vec -> Qc) (all_ids : list Z) (embeddings : list vec).
Variable sim_threshold : Qc.

Lemma block_step_good uf block_items uf' :
  (forall a, a ∈ block_items.*2 -> a ∈ all_ids) ->
  (forall a b, a ∈ block_items.*2 -> b ∈ block_items.*2 -> kappa a = kappa b) ->
  good all_ids kappa uf ->
  block_step l2_norm embeddings sim_threshold uf block_items = Ok uf' ->
  good all_ids kappa uf'.
Proof.
  intros Hsub Hk Hgood. unfold block_step.
  case_bool_decide; [by intros [= <-]|].
  destruct (take_rows embeddings block_items.*1) as [rows|e]; simpl; [|done].
  by apply union_similar_good.
Qed.

Lemma block_step_total uf block_items :
  (forall a, a ∈ block_items.*2 -> a ∈ all_ids) ->
  (forall a b, a ∈ block_items.*2 -> b ∈ block_items.*2 -> kappa a = kappa b) ->
  good all_ids kappa uf ->
  Forall (fun i => i < length embeddings) block_items.*1 ->
  exists uf',
    block_step l2_norm embeddings sim_threshold uf block_items = Ok uf'
    ∧ good all_ids kappa uf'.
Proof.
  intros Hsub Hk Hgood Hall. unfold block_step.
  case_bool_decide; [by exists uf|].
  destruct (take_rows_total embeddings block_items.*1 Hall)
    as (rows & -> & Hlen).
  simpl. rewrite length_fmap in *.
  rewrite <-(length_fmap snd block_items).
  apply (union_similar_total kappa l2_norm all_ids rows); [done|done|done|].
  rewrite length_fmap. lia.
Qed.
End BlockLoop.

Lemma cluster_partition_good {L : Type} (kappa : Z -> L) l2_norm item_ids
    embeddings sim_threshold blocks :
  uniform_on_blocks kappa item_ids blocks ->
  (forall part,
     cluster_partition l2_norm item_ids embeddings sim_threshold blocks
     = Ok part ->
     exists uf,
       good item_ids kappa uf
       ∧ NoDup (PyDict.keys part)
       ∧ concat (PyDict.values part) ≡ₚ PyDict.keys (parent uf)
       ∧ (forall r items, (r, items) ∈ part ->
            forall x, x ∈ items -> root_of (parent uf) x r))
  ∧ (length item_ids ≤ length embeddings ->
     is_ok (cluster_partition l2_norm item_ids embeddings sim_threshold blocks)).
Proof.
  intros Hunif. unfold cluster_partition.
  destruct (init_loop_total kappa item_ids) as (uf0 & -> & Hgood0). simpl.
  set (stage := match blocks with
                | Some ((_ :: _) as blocks0) =>
                    rfold (block_step l2_norm embeddings sim_threshold)
                      (PyDict.values (block_groups item_ids blocks0)) uf0
                | _ =>
                    union_similar
                      (batch_cosine_similarity l2_norm embeddings embeddings)
                      item_ids (length item_ids) sim_threshold uf0
                end).
  assert ((forall uf1, stage = Ok uf1 -> good item_ids kappa uf1)
          ∧ (length item_ids ≤ length embeddings -> is_ok stage))
    as [Hstage Htotal].
  { unfold stage. destruct blocks as [[|b0 blocks0]|]; simpl in Hunif.
    - split.
      + intros uf1. by apply union_similar_good.
      + intros Hlen.
        destruct (union_similar_total kappa l2_norm item_ids embeddings
                    item_ids sim_threshold uf0) as (uf1 & -> & _); done.
    - assert (forall items,
        items ∈ PyDict.values (block_groups item_ids (b0 :: blocks0)) ->
        (forall a, a ∈ items.*2 -> a ∈ item_ids)
        ∧ (forall a b, a ∈ items.*2 -> b ∈ items.*2 -> kappa a = kappa b)
        ∧ Forall (fun i => i < length item_ids) items.*1) as Hgroups.
      { intros items Hin. unfold PyDict.values in Hin.
        apply list_elem_of_fmap in Hin as ([b items'] & -> & Hin). simpl.
        split_and!.
        - intros a Ha. apply list_elem_of_fmap in Ha as ([i a'] & -> & Ha).
          destruct (block_groups_elem _ _ _ _ _ _ Hin Ha) as [Hi _].
          by eapply list_elem_of_lookup_2.
        - intros a1 a2 Ha1 Ha2.
          apply list_elem_of_fmap in Ha1 as ([i1 a1'] & -> & Ha1).
          apply list_elem_of_fmap in Ha2 as ([i2 a2'] & -> & Ha2).
          destruct (block_groups_elem _ _ _ _ _ _ Hin Ha1) as [Hi1 Hb1].
          destruct (block_groups_elem _ _ _ _ _ _ Hin Ha2) as [Hi2 Hb2].
          simpl. by eapply Hunif.
        - apply Forall_forall. intros i Hi.
          apply list_elem_of_fmap in Hi as ([i' a] & -> & Ha).
          destruct (block_groups_elem _ _ _ _ _ _ Hin Ha) as [Hi _].
          simpl. by eapply lookup_lt_Some. }
      split.
      + intros uf1.
        apply (rfold_invariant (good item_ids kappa)); [|done].
        intros uf items uf' Hin Hgood.
        destruct (Hgroups items Hin) as (Hsub & Hk & _).
        by apply block_step_good.
      + intros Hlen.
        destruct (rfold_total (good item_ids kappa)
                    (block_step l2_norm embeddings sim_threshold)
                    (PyDict.values (block_groups item_ids (b0 :: blocks0))))
          with uf0 as (uf1 & -> & _); [|done|done].
        intros uf items Hin Hgood.
        destruct (Hgroups items Hin) as (Hsub & Hk & Hidx).
        apply block_step_total; [done|done|done|].
        eapply Forall_impl; [exact Hidx|]. simpl. lia.
    - split.
      + intros uf1. by apply union_similar_good.
      + intros Hlen.
        destruct (union_similar_total kappa l2_norm item_ids embeddings
                    item_ids sim_threshold uf0) as (uf1 & -> & _); done. }
  fold stage. destruct stage as [uf1|e]; simpl.
  - pose proof (Hstage uf1 eq_refl) as Hgood1.
    destruct Hgood1 as (Hwf1 & Hkeys1 & Hresp1).
    destruct (get_clusters_total uf1 Hwf1) as (uf2 & cl & -> & Hnd & Hperm & Hcl).
    simpl. split; [|done]. intros part [= <-]. by exists uf1.
  - split; [done|]. intros Hlen. by apply Htotal.
Qed.
End UnionFindFacts.

(** *** Clusters *)

(** The union-find test of the repository: after [union(1, 2)],
    [union(2, 3)], [union(4, 5)] the clusters are [1, 2, 3] and [4, 5]; and
    the deduplication test: two clusters, item 30 in neither. *)
Example union_find_test :
  (u <-r Dedup.union Dedup.new 1 2 ;;
   u <-r Dedup.union u 2 3 ;;
   u <-r Dedup.union u 4 5 ;;
   sc <-r Dedup.get_clusters u ;;
   Ok sc.2)
  = Ok [(1%Z, [1; 2; 3]%Z); (4%Z, [4; 5]%Z)].
Proof. vm_compute. reflexivity. Qed.

Example deduplication_test :
  Dedup.deduplicate_items Examples.sample_norm Examples.test_item_ids
    Examples.test_embeddings (Q2Qc (95 # 100)) None
  = Ok [(10%Z, [10; 11]%Z); (20%Z, [20; 21]%Z)].
Proof. vm_compute. reflexivity. Qed.

Section ClusterFacts.
Import Embeddings Dedup.
Implicit Types (part : list (Z * list Z)).

Lemma elem_concat_values part x :
  x ∈ concat (PyDict.values part) <-> exists c, c ∈ part ∧ x ∈ c.2.
Proof.
  unfold PyDict.values. induction part as [|c part IH]; csimpl.
  - split; [intros H; by apply elem_of_nil in H|].
    intros (c & Hc & _). by apply elem_of_nil in Hc.
  - rewrite elem_of_app, IH. split.
    + intros [Hx|(c' & Hc' & Hx)]; [exists c|exists c']; split; try done;
        [left|by right].
    + intros (c' & Hc' & Hx). apply elem_of_cons in Hc' as [->|Hc'];
        [by left|right; by exists c'].
Qed.

Lemma cluster_unique part c c' x :
  NoDup (concat (PyDict.values part)) ->
  c ∈ part -> c' ∈ part -> x ∈ c.2 -> x ∈ c'.2 -> c = c'.
Proof.
  unfold PyDict.values. induction part as [|c0 part IH]; csimpl.
  - intros _ Hc. by apply elem_of_nil in Hc.
  - rewrite NoDup_app. intros (Hnd0 & Hdisj & Hnd) Hc Hc' Hx Hx'.
    apply elem_of_cons in Hc as [->|Hc], Hc' as [->|Hc']; [done| | |by apply IH].
    + exfalso. apply (Hdisj x Hx). apply elem_concat_values. by exists c'.
    + exfalso. apply (Hdisj x Hx'). apply elem_concat_values. by exists c.
Qed.

Lemma filter_concat_NoDup (f : Z * list Z -> bool) part :
  NoDup (concat (PyDict.values part)) ->
  NoDup (concat (PyDict.values (List.filter f part))).
Proof.
  unfold PyDict.values. induction part as [|c part IH]; csimpl; [done|].
  rewrite NoDup_app. intros (Hnd0 & Hdisj & Hnd).
  destruct (f c); csimpl; [|by apply IH].
  apply NoDup_app. split_and!; [done| |by apply IH].
  intros x Hx Hx'. apply (Hdisj x Hx).
  apply elem_concat_values in Hx' as (c' & Hc' & Hx').
  apply elem_concat_values. exists c'. split; [|done].
  apply list_elem_of_In in Hc'. apply List.filter_In in Hc' as [Hc' _].
  by apply list_elem_of_In.
Qed.

Lemma filter_keys_NoDup (f : Z * list Z -> bool) part :
  NoDup (PyDict.keys part) -> NoDup (PyDict.keys (List.filter f part)).
Proof.
  unfold PyDict.keys. induction part as [|c part IH]; csimpl; [done|].
  rewrite NoDup_cons. intros [Hnin Hnd].
  destruct (f c); csimpl; [|by apply IH].
  apply NoDup_cons. split; [|by apply IH].
  intros Hin. apply Hnin.
  apply list_elem_of_fmap in Hin as (c' & -> & Hc').
  apply list_elem_of_In, List.filter_In in Hc' as [Hc' _].
  apply list_elem_of_fmap. exists c'. split; [done|]. by apply list_elem_of_In.
Qed.

Lemma index_of_lookup (ids : list Z) (i : nat) (x : Z) :
  NoDup ids -> ids !! i = Some x -> Recommend.index_of x ids = i.
Proof.
  revert i. induction ids as [|y ids IH]; intros i Hnd Hi; [done|].
  apply NoDup_cons in Hnd as [Hnin Hnd]. simpl.
  destruct i as [|i]; simpl in Hi.
  - injection Hi as ->. by rewrite decide_True.
  - rewrite decide_False; [by rewrite (IH i)|].
    intros ->. apply Hnin. by eapply list_elem_of_lookup_2.
Qed.

(** C6. When [deduplicate_items] returns (and it does whenever there is
    an embedding row for every identifier): every returned cluster has at
    least two members, all of them identifiers of the call; the returned
    clusters are pairwise disjoint; and they are the clusters of more than
    one member of a partition in which every identifier of the call lies
    in exactly one cluster, a singleton cluster being that of its own
    member. *)
Theorem deduplicate_items_partition
    (l2_norm : vec -> Qc) (item_ids : list Z) (embeddings : list vec)
    (sim_threshold : Qc) (blocks : option (list string)) :
  (length item_ids ≤ length embeddings ->
   is_ok (deduplicate_items l2_norm item_ids embeddings sim_threshold blocks))
  ∧ forall res,
      deduplicate_items l2_norm item_ids embeddings sim_threshold blocks
      = Ok res ->
      (forall cid items, (cid, items) ∈ res ->
         2 ≤ length items ∧ forall x, x ∈ items -> x ∈ item_ids)
      ∧ NoDup (PyDict.keys res)
      ∧ NoDup (concat (PyDict.values res))
      ∧ exists part,
          cluster_partition l2_norm item_ids embeddings sim_threshold blocks
          = Ok part
          ∧ res = List.filter
                    (fun c : Z * list Z => bool_decide (1 < length c.2)) part
          ∧ (forall x, x ∈ item_ids ->
               exists c, c ∈ part ∧ x ∈ c.2
                         ∧ forall c', c' ∈ part -> x ∈ c'.2 -> c' = c)
          ∧ (forall cid x, (cid, [x]) ∈ part -> cid = x).
Proof.
  destruct (cluster_partition_good (fun _ : Z => tt) l2_norm item_ids
              embeddings sim_threshold blocks) as [Hpart Htotal].
  { unfold uniform_on_blocks. by destruct blocks as [[|? ?]|]. }
  unfold deduplicate_items.
  destruct (cluster_partition l2_norm item_ids embeddings sim_threshold blocks)
    as [part|e]; simpl.
  2:{ split; [done|]. intros res Hres. done. }
  split; [done|]. intros res [= <-].
  destruct (Hpart part eq_refl)
    as (uf & (Hwf & Hkeys & _) & Hnd & Hperm & Hcl).
  assert (NoDup (concat (PyDict.values part))) as Hndc.
  { rewrite Hperm. apply Hwf. }
  assert (forall x, x ∈ concat (PyDict.values part) <-> x ∈ item_ids) as Hmem.
  { intros x. by rewrite Hperm, Hkeys. }
  split_and!.
  - intros cid items Hin.
    apply list_elem_of_In, List.filter_In in Hin as [Hin Hlen].
    apply list_elem_of_In in Hin. apply bool_decide_eq_true in Hlen.
    simpl in Hlen. split; [lia|]. intros x Hx. apply Hmem.
    apply elem_concat_values. by exists (cid, items).
  - by apply filter_keys_NoDup.
  - by apply filter_concat_NoDup.
  - exists part. split_and!; [done|done| |].
    + intros x Hx. apply Hmem, elem_concat_values in Hx as (c & Hc & Hx).
      exists c. split_and!; [done|done|]. intros c' Hc' Hx'.
      by eapply cluster_unique.
    + intros cid x Hin.
      assert (root_of (parent uf) x cid) as Hroot.
      { eapply Hcl; [exact Hin|]. by apply list_elem_of_singleton. }
      pose proof (root_of_root _ _ _ Hroot) as Hself.
      assert (cid ∈ concat (PyDict.values part)) as Hcid.
      { rewrite Hperm. by eapply root_of_present. }
      apply elem_concat_values in Hcid as ([r items] & Hc & Hcid).
      simpl in Hcid. pose proof (Hcl r items Hc cid Hcid) as Hroot'.
      pose proof (root_of_fun _ _ _ _ Hroot' Hself) as ->.
      pose proof (elem_get_NoDup _ _ _ Hnd Hc) as Hg1.
      pose proof (elem_get_NoDup _ _ _ Hnd Hin) as Hg2.
      rewrite Hg1 in Hg2. injection Hg2 as ->.
      by apply list_elem_of_singleton in Hcid.
Qed.

Lemma deduplicate_items_partition_witness :
  is_ok (deduplicate_items Examples.sample_norm Examples.test_item_ids
           Examples.test_embeddings (Q2Qc (95 # 100)) None).
Proof.
  refine (proj1 (deduplicate_items_partition Examples.sample_norm
    Examples.test_item_ids Examples.test_embeddings (Q2Qc (95 # 100)) None) _).
  simpl. lia.
Defined.

(** C2, as the code has it. When the identifiers of the call are pairwise
    distinct, no cluster that [deduplicate_items] returns holds two items
    whose blocking keys differ. *)
Theorem blocking_separates_blocks
    (l2_norm : vec -> Qc) (item_ids : list Z) (embeddings : list vec)
    (sim_threshold : Qc) (blocks : list string)
    (res : list (Z * list Z)) (cid : Z) (items : list Z) (x y : Z)
    (bx by_ : string) :
  NoDup item_ids ->
  deduplicate_items l2_norm item_ids embeddings sim_threshold (Some blocks)
  = Ok res ->
  (cid, items) ∈ res -> x ∈ items -> y ∈ items ->
  has_block_key item_ids blocks x bx -> has_block_key item_ids blocks y by_ ->
  bx = by_.
Proof.
  intros Hnd Hres Hin Hx Hy (i & Hi & Hbi) (j & Hj & Hbj).
  set (kappa := fun z : Z => blocks !! Recommend.index_of z item_ids).
  assert (forall k z b, item_ids !! k = Some z -> blocks !! k = Some b ->
            kappa z = Some b) as Hkappa.
  { intros k z b Hk Hb. unfold kappa. by rewrite (index_of_lookup _ k z). }
  destruct (cluster_partition_good kappa l2_norm item_ids embeddings
              sim_threshold (Some blocks)) as [Hpart _].
  { unfold uniform_on_blocks. destruct blocks as [|b0 blocks0].
    - by rewrite lookup_nil in Hbi.
    - intros i' j' x' y' b Hi' Hj' Hbi' Hbj'.
      by rewrite (Hkappa i' x' b), (Hkappa j' y' b). }
  unfold deduplicate_items in Hres.
  destruct (cluster_partition l2_norm item_ids embeddings sim_threshold
              (Some blocks)) as [part|e]; simpl in Hres; [|done].
  injection Hres as <-.
  destruct (Hpart part eq_refl) as (uf & (Hwf & Hkeys & Hresp) & _ & _ & Hcl).
  apply list_elem_of_In, List.filter_In in Hin as [Hin _].
  apply list_elem_of_In in Hin.
  pose proof (Hresp _ _ (Hcl cid items Hin x Hx)) as Hkx.
  pose proof (Hresp _ _ (Hcl cid items Hin y Hy)) as Hky.
  rewrite (Hkappa i x bx) in Hkx by done.
  rewrite (Hkappa j y by_) in Hky by done. congruence.
Qed.

Lemma blocking_separates_blocks_witness : "A" = "A".
Proof.
  apply (blocking_separates_blocks Examples.sample_norm
           [1; 2; 3; 4]%Z [[1]; [1]; [1]; [1]]%Qc (Q2Qc (1 # 2))
           ["A"; "A"; "B"; "B"] [(1%Z, [1; 2]%Z); (3%Z, [3; 4]%Z)]
           1%Z [1; 2]%Z 1%Z 2%Z "A" "A").
  - apply (bool_decide_unpack _). vm_compute. reflexivity.
  - vm_compute. reflexivity.
  - left.
  - left.
  - right. left.
  - exists 0. split; reflexivity.
  - exists 1. split; reflexivity.
Defined.

(** C2 as stated fails when an identifier occurs twice, under two keys:
    identifier 1 stands in block "A" with 2 and in block "B" with 3, so
    the one cluster returned holds 2 (key "A") and 3 (key "B"). *)
Lemma blocking_repeated_id_counterexample :
  ~ (forall res cid items x y bx by_,
       deduplicate_items Examples.sample_norm [1; 2; 1; 3]%Z
         [[1]; [1]; [1]; [1]]%Qc (Q2Qc (1 # 2))
         (Some ["A"; "A"; "B"; "B"]) = Ok res ->
       (cid, items) ∈ res -> x ∈ items -> y ∈ items ->
       has_block_key [1; 2; 1; 3]%Z ["A"; "A"; "B"; "B"] x bx ->
       has_block_key [1; 2; 1; 3]%Z ["A"; "A"; "B"; "B"] y by_ ->
       bx = by_).
Proof.
  intros H.
  specialize (H [(1%Z, [1; 2; 3]%Z)] 1%Z [1; 2; 3]%Z 2%Z 3%Z "A" "B").
  assert ("A" = "B") as Habs; [|discriminate].
  apply H.
  - vm_compute. reflexivity.
  - left.
  - right. left.
  - right. right. left.
  - exists 1. split; reflexivity.
  - exists 3. split; reflexivity.
Qed.
End ClusterFacts.

(** ** Text normalizer *)

Section NormalizeFacts.
Import Normalize.
Local Open Scope Z_scope.
Implicit Types (c : Z) (s : str).

(** C9 (the code departs from the claim). With diacritics removed, the
    text U+064B, space, "a" is normalized to space, "a": the text is
    stripped before the diacritic is removed, and the space the removal
    exposes stays. Normalizing the result strips it, so the second pass
    differs from the first. *)
Theorem normalize_text_exposes_whitespace :
  normalize_text [0x64B; 0x20; 0x61] true = [0x20; 0x61]
  ∧ normalize_text (normalize_text [0x64B; 0x20; 0x61] true) true = [0x61]
  ∧ normalize_text (normalize_text [0x64B; 0x20; 0x61] true) true
    ≠ normalize_text [0x64B; 0x20; 0x61] true.
Proof. split_and!; [reflexivity|reflexivity|discriminate]. Qed.

(** *** What does hold *)







Lemma is_diacritic_true c :
  is_diacritic c = true -> 0x617 ≤ c ≤ 0x61A ∨ 0x64B ≤ c ≤ 0x652.
Proof.
  unfold is_diacritic, in_range.
  repeat (case_bool_decide; simpl; try lia); done.
Qed.























End NormalizeFacts.

(** * Further properties *)

(** ** Order and arithmetic *)

Section OrderFacts.
Local Open Scope Qc_scope.

Lemma Qc_div_unit (a b : Qc) : 0 ≤ a -> a ≤ b -> 0 < b -> 0 ≤ a / b ∧ a / b ≤ 1.
Proof.
  intros Ha Hab Hb. pose proof (Qcinv_pos b Hb) as Hinv.
  unfold Qcdiv. split.
  - apply Qcmult_nonneg_nonneg; [done|by apply Qclt_le_weak].
  - rewrite <-(Qcmult_inv_r b) by (intros ->; by apply (Qclt_not_eq 0 0)).
    apply Qcmult_le_mono_nonneg_r; [by apply Qclt_le_weak|done].
Qed.

Lemma Qc_ltb_true (x y : Qc) : Qc_ltb x y = true <-> x < y.
Proof. unfold Qc_ltb. apply bool_decide_eq_true. Qed.

Lemma Qc_ltb_false (x y : Qc) : Qc_ltb x y = false <-> y ≤ x.
Proof.
  unfold Qc_ltb. rewrite bool_decide_eq_false. symmetry. apply Qcle_ngt.
Qed.

Lemma fold_min_le (l : list Qc) (m x : Qc) :
  x = m ∨ x ∈ l -> fold_left Qc_min2 l m ≤ x.
Proof.
  revert m x. induction l as [|y l IH]; intros m x Hx; simpl.
  - destruct Hx as [->|Hx]; [apply Qcle_refl|by apply elem_of_nil in Hx].
  - unfold Qc_min2 at 2. destruct (Qc_ltb y m) eqn:Hlt.
    + destruct Hx as [->|Hx].
      * apply Qcle_trans with y; [apply IH; by left|].
        apply Qclt_le_weak. by apply Qc_ltb_true.
      * apply elem_of_cons in Hx as [->|Hx]; apply IH; [by left|by right].
    + destruct Hx as [->|Hx]; [apply IH; by left|].
      apply elem_of_cons in Hx as [->|Hx]; [|apply IH; by right].
      apply Qcle_trans with m; [apply IH; by left|]. by apply Qc_ltb_false.
Qed.

Lemma fold_max_ge (l : list Qc) (m x : Qc) :
  x = m ∨ x ∈ l -> x ≤ fold_left Qc_max2 l m.
Proof.
  revert m x. induction l as [|y l IH]; intros m x Hx; simpl.
  - destruct Hx as [->|Hx]; [apply Qcle_refl|by apply elem_of_nil in Hx].
  - unfold Qc_max2 at 2. destruct (Qc_ltb m y) eqn:Hlt.
    + destruct Hx as [->|Hx].
      * apply Qcle_trans with y; [|apply IH; by left].
        apply Qclt_le_weak. by apply Qc_ltb_true.
      * apply elem_of_cons in Hx as [->|Hx]; apply IH; [by left|by right].
    + destruct Hx as [->|Hx]; [apply IH; by left|].
      apply elem_of_cons in Hx as [->|Hx]; [|apply IH; by right].
      apply Qcle_trans with m; [|apply IH; by left]. by apply Qc_ltb_false.
Qed.

Lemma list_min_le (l : list Qc) (x : Qc) : x ∈ l -> list_min l ≤ x.
Proof.
  destruct l as [|y l]; [intros H; by apply elem_of_nil in H|].
  intros Hx. simpl. apply fold_min_le.
  apply elem_of_cons in Hx as [->|Hx]; [by left|by right].
Qed.

Lemma list_max_ge (l : list Qc) (x : Qc) : x ∈ l -> x ≤ list_max l.
Proof.
  destruct l as [|y l]; [intros H; by apply elem_of_nil in H|].
  intros Hx. simpl. apply fold_max_ge.
  apply elem_of_cons in Hx as [->|Hx]; [by left|by right].
Qed.

(** [sorted(..., reverse=True)] sorts. *)
Lemma insert_desc_sorted {A : Type} (key : A -> Qc) (x : A) (l : list A) :
  StronglySorted (desc_by key) l ->
  StronglySorted (desc_by key) (insert_desc key x l).
Proof.
  induction l as [|y l IH]; intros Hs; simpl.
  - by repeat constructor.
  - apply StronglySorted_inv in Hs as [Hs Hall].
    destruct (Qc_ltb (key x) (key y)) eqn:Hlt.
    + constructor; [by apply IH|].
      rewrite insert_desc_perm. constructor; [|done].
      apply Qclt_le_weak. by apply Qc_ltb_true.
    + apply Qc_ltb_false in Hlt. constructor; [by constructor|].
      constructor; [done|].
      eapply Forall_impl; [exact Hall|]. intros z Hz. unfold desc_by in *.
      by apply Qcle_trans with (key y).
Qed.

Lemma sorted_desc_sorted {A : Type} (key : A -> Qc) (l : list A) :
  StronglySorted (desc_by key) (sorted_desc key l).
Proof.
  unfold sorted_desc. induction l as [|x l IH]; simpl; [constructor|].
  by apply insert_desc_sorted.
Qed.

Lemma StronglySorted_take {A : Type} (R : A -> A -> Prop) (n : nat) (l : list A) :
  StronglySorted R l -> StronglySorted R (take n l).
Proof.
  revert n. induction l as [|x l IH]; intros [|n] Hs; simpl; try constructor.
  - apply IH. by apply StronglySorted_inv in Hs as [? _].
  - apply StronglySorted_inv in Hs as [_ Hall].
    apply Forall_take. done.
Qed.

Lemma slice_to_sorted {A : Type} (R : A -> A -> Prop) (l : list A) (k : Z) :
  StronglySorted R l -> StronglySorted R (slice_to l k).
Proof.
  intros Hs. unfold slice_to. destruct (bool_decide _); by apply StronglySorted_take.
Qed.

Lemma slice_to_subseteq {A : Type} (l : list A) (k : Z) x :
  x ∈ slice_to l k -> x ∈ l.
Proof.
  unfold slice_to. destruct (bool_decide _); intros Hx;
    by eapply subseteq_take.
Qed.
End OrderFacts.

(** ** Score normalization and fusion, continued *)

Section FusionFacts.
Import Utils Hybrid.
Local Open Scope Qc_scope.

Lemma eps_pos : 0 < eps.
Proof. apply (bool_decide_unpack _). vm_compute. reflexivity. Qed.

Lemma normalized_in_unit (l : list Qc) (s : Qc) :
  s ∈ l -> 0 ≤ normalized_in l s ∧ normalized_in l s ≤ 1.
Proof.
  intros Hs. unfold normalized_in.
  destruct (Qc_ltb (list_max l - list_min l) eps) eqn:Hspread.
  - split; apply (bool_decide_unpack _); vm_compute; reflexivity.
  - apply Qc_ltb_false in Hspread.
    pose proof (list_min_le l s Hs) as Hmin.
    pose proof (list_max_ge l s Hs) as Hmax.
    apply Qc_div_unit.
    + unfold Qcminus. by apply Qcle_minus_iff in Hmin.
    + unfold Qcminus. by apply Qcplus_le_mono_r.
    + eapply Qclt_le_trans; [apply eps_pos|done].
Qed.

(** X1. [min_max_normalize] keeps the length of its input, and every
    value it returns lies between 0 and 1. *)
Theorem min_max_normalize_unit_interval (scores : list Qc) :
  length (min_max_normalize scores) = length scores
  ∧ Forall (fun x => 0 ≤ x ∧ x ≤ 1) (min_max_normalize scores).
Proof.
  split; [apply min_max_normalize_length|].
  rewrite min_max_normalize_map. apply Forall_forall. intros x Hx.
  apply list_elem_of_In, in_map_iff in Hx as (s & <- & Hs).
  apply normalized_in_unit. by apply list_elem_of_In.
Qed.

(** X2. The list [combine_scores] returns is sorted: no entry has a larger
    combined score than an entry before it. *)
Theorem combine_scores_descending (sp de : list (Z * Qc)) (alpha : Qc) :
  StronglySorted (desc_by snd) (combine_scores sp de alpha).
Proof. unfold combine_scores. apply sorted_desc_sorted. Qed.

Lemma normalized_dict_unit (l : list (Z * Qc)) (id_ : Z) :
  let v := default 0
             (PyDict.get
                (match l with
                 | [] => PyDict.of_items l
                 | _ => normalize_dict (PyDict.of_items l)
                 end) id_) in
  0 ≤ v ∧ v ≤ 1.
Proof.
  assert (0 ≤ 0 ∧ (0:Qc) ≤ 1) as Hzero.
  { split; apply (bool_decide_unpack _); vm_compute; reflexivity. }
  destruct l as [|kv l]; [done|].
  rewrite normalize_dict_get by apply of_items_NoDup_keys.
  destruct (PyDict.get (PyDict.of_items (kv :: l)) id_) as [s|] eqn:Hg;
    simpl; [|done].
  apply normalized_in_unit. apply get_Some_elem in Hg.
  unfold PyDict.values. apply list_elem_of_fmap. by exists (id_, s).
Qed.

Lemma convex_unit (alpha s d : Qc) :
  0 ≤ alpha -> alpha ≤ 1 -> 0 ≤ s ∧ s ≤ 1 -> 0 ≤ d ∧ d ≤ 1 ->
  0 ≤ alpha * s + (1 - alpha) * d ∧ alpha * s + (1 - alpha) * d ≤ 1.
Proof.
  intros Ha0 Ha1 [Hs0 Hs1] [Hd0 Hd1].
  assert (0 ≤ 1 - alpha) as Hb.
  { unfold Qcminus. by apply Qcle_minus_iff in Ha1. }
  split.
  - apply Qcplus_nonneg_nonneg; by apply Qcmult_nonneg_nonneg.
  - apply Qcle_trans with (alpha * 1 + (1 - alpha) * 1).
    + apply Qcplus_le_compat; by apply Qcmult_le_mono_nonneg_l.
    + assert (alpha * 1 + (1 - alpha) * 1 = 1) as -> by ring.
      apply Qcle_refl.
Qed.

(** X3. For alpha between 0 and 1 every combined score that
    [combine_scores] returns lies between 0 and 1. *)
Theorem combine_scores_unit_interval (sp de : list (Z * Qc)) (alpha : Qc) :
  0 ≤ alpha -> alpha ≤ 1 ->
  Forall (fun entry : Z * Qc => 0 ≤ entry.2 ∧ entry.2 ≤ 1)
    (combine_scores sp de alpha).
Proof.
  intros Ha0 Ha1. rewrite combine_scores_perm. apply Forall_forall.
  intros entry Hin. apply list_elem_of_In, in_map_iff in Hin as (id_ & <- & _).
  simpl. apply convex_unit; [done|done|apply normalized_dict_unit..].
Qed.

Lemma combine_scores_unit_interval_witness :
  Forall (fun entry : Z * Qc => 0 ≤ entry.2 ∧ entry.2 ≤ 1)
    (combine_scores Examples.example_sparse Examples.example_dense
       (Q2Qc (2 # 5))).
Proof.
  apply combine_scores_unit_interval;
    apply (bool_decide_unpack _); vm_compute; reflexivity.
Defined.

(** *** [merge_scores] *)

Lemma merge_step_get (w : Qc) (c : list (Z * Qc)) (k : Z) (s v : Qc) (id_ : Z) :
  PyDict.get (merge_step w c ((k, s), v)) id_
  = if decide (k = id_) then Some (default 0 (PyDict.get c k) + w * v)
    else PyDict.get c id_.
Proof.
  unfold merge_step. simpl. rewrite get_set.
  destruct (decide (k = id_)) as [<-|Hne].
  - destruct (PyDict.get c k) as [old|] eqn:Hg; [by rewrite Hg|].
    by rewrite get_set_eq.
  - destruct (PyDict.get c k); [done|]. by rewrite get_set_ne.
Qed.

Lemma merge_step_NoDup (w : Qc) (c : list (Z * Qc)) entry :
  NoDup (PyDict.keys c) -> NoDup (PyDict.keys (merge_step w c entry)).
Proof.
  intros Hnd. unfold merge_step. apply NoDup_keys_set.
  destruct (PyDict.get c entry.1.1); [done|]. by apply NoDup_keys_set.
Qed.

Lemma zip_values_map {K : Type} (f : Qc -> Qc) (l : list (K * Qc)) :
  zip l (map f l.*2) = map (fun kv => (kv, f kv.2)) l.
Proof. induction l as [|kv l IH]; csimpl; [done|]. by rewrite IH. Qed.

Lemma merge_inner_get (w : Qc) (f : Qc -> Qc) (l c : list (Z * Qc)) (id_ : Z) :
  NoDup l.*1 ->
  PyDict.get (fold_left (merge_step w) (map (fun kv => (kv, f kv.2)) l) c) id_
  = match PyDict.get l id_ with
    | Some s => Some (default 0 (PyDict.get c id_) + w * f s)
    | None => PyDict.get c id_
    end.
Proof.
  revert c. induction l as [|[k s] l IH]; intros c Hnd; csimpl; [done|].
  apply NoDup_cons in Hnd as [Hk Hnd]. simpl in Hk. rewrite IH by done.
  rewrite merge_step_get. destruct (decide (k = id_)) as [<-|Hne].
  - apply get_None in Hk. by rewrite Hk.
  - done.
Qed.

Lemma merge_inner_NoDup (w : Qc) (entries : list ((Z * Qc) * Qc))
    (c : list (Z * Qc)) :
  NoDup (PyDict.keys c) ->
  NoDup (PyDict.keys (fold_left (merge_step w) entries c)).
Proof.
  revert c. induction entries as [|e entries IH]; intros c Hnd; simpl; [done|].
  apply IH. by apply merge_step_NoDup.
Qed.

Lemma merge_list_get (w : Qc) (l c : list (Z * Qc)) (id_ : Z) :
  NoDup l.*1 ->
  PyDict.get (merge_list c (l, w)) id_
  = match PyDict.get l id_ with
    | Some s => Some (default 0 (PyDict.get c id_) + w * normalized_in l.*2 s)
    | None => PyDict.get c id_
    end.
Proof.
  intros Hnd. unfold merge_list. cbn [fst snd].
  destruct l as [|kv l]; [done|]. cbv zeta.
  rewrite min_max_normalize_map, zip_values_map. by apply merge_inner_get.
Qed.

Lemma merge_list_NoDup (c : list (Z * Qc)) (lw : list (Z * Qc) * Qc) :
  NoDup (PyDict.keys c) -> NoDup (PyDict.keys (merge_list c lw)).
Proof.
  intros Hnd. unfold merge_list. destruct lw.1; [done|].
  by apply merge_inner_NoDup.
Qed.

Lemma normalized_get (l : list (Z * Qc)) (id_ : Z) :
  NoDup l.*1 ->
  PyDict.get (match l with
              | [] => PyDict.of_items l
              | _ => normalize_dict (PyDict.of_items l)
              end) id_
  = normalized_in l.*2 <$> PyDict.get l id_.
Proof.
  intros Hnd. rewrite (of_items_NoDup l) by done.
  destruct l as [|kv l]; [done|]. by rewrite normalize_dict_get.
Qed.

(** X4. On two score lists without repeated identifiers, [merge_scores]
    with the weights alpha and 1 - alpha passes its assertions and gives
    every identifier the score [combine_scores] gives it. *)
Theorem merge_scores_agrees_with_combine (sp de : list (Z * Qc)) (alpha : Qc) :
  NoDup sp.*1 -> NoDup de.*1 ->
  exists res,
    merge_scores [sp; de] [alpha; 1 - alpha] = Passed res
    ∧ forall id_ : Z,
        PyDict.get res id_ = PyDict.get (combine_scores sp de alpha) id_.
Proof.
  intros Hsp Hde. unfold merge_scores.
  rewrite bool_decide_eq_false_2 by (intros H; by apply H).
  assert (Qc_sum [alpha; 1 - alpha] - 1 = 0) as ->.
  { unfold Qc_sum. simpl. ring. }
  assert (negb (Qc_ltb (Qc_abs 0) (Q2Qc (1 # 1000000))) = false) as ->.
  { vm_compute. reflexivity. }
  eexists. split; [done|]. intros id_. cbn [zip_with fold_left].
  assert (NoDup (PyDict.keys
            (merge_list (merge_list [] (sp, alpha)) (de, 1 - alpha)))) as Hnd.
  { apply merge_list_NoDup, merge_list_NoDup, NoDup_nil_2. }
  rewrite <-(get_perm _ _ _ Hnd) by by rewrite sorted_desc_perm.
  rewrite !merge_list_get by done.
  rewrite combine_scores_get, !normalized_get by done.
  pose proof (get_is_Some sp id_) as Hs. pose proof (get_is_Some de id_) as Hd.
  unfold PyDict.keys in *.
  destruct (PyDict.get sp id_) as [s|], (PyDict.get de id_) as [d|]; simpl.
  - rewrite decide_True by (left; apply Hs; eauto). f_equal. ring.
  - rewrite decide_True by (left; apply Hs; eauto). f_equal. ring.
  - rewrite decide_True by (right; apply Hd; eauto). f_equal. ring.
  - rewrite decide_False; [done|].
    intros [H|H]; [apply Hs in H|apply Hd in H]; by destruct H.
Qed.

Lemma merge_scores_agrees_with_combine_witness :
  exists res,
    merge_scores [Examples.example_sparse; Examples.example_dense]
      [Q2Qc (2 # 5); 1 - Q2Qc (2 # 5)] = Passed res
    ∧ forall id_ : Z,
        PyDict.get res id_
        = PyDict.get (combine_scores Examples.example_sparse
                        Examples.example_dense (Q2Qc (2 # 5))) id_.
Proof.
  apply merge_scores_agrees_with_combine;
    apply (bool_decide_unpack _); vm_compute; reflexivity.
Defined.

(** *** [hybrid_search] *)

(** X5. [hybrid_search] fails with the exception of the first retriever
    that fails, the sparse one first; when both return and k >= 0 it
    returns at most k entries, sorted by descending score, with pairwise
    distinct identifiers that each come from one of the two candidate
    lists. *)
Theorem hybrid_search_contract
    (query : list Z)
    (sparse_retriever dense_retriever : list Z -> Z -> result (list (Z * Qc)))
    (k : Z) (alpha : Qc) (sparse_k dense_k : Z) :
  (0 ≤ k)%Z ->
  match sparse_retriever query sparse_k, dense_retriever query dense_k with
  | Raise e, _ =>
      hybrid_search query sparse_retriever dense_retriever k alpha
        sparse_k dense_k = Raise e
  | Ok _, Raise e =>
      hybrid_search query sparse_retriever dense_retriever k alpha
        sparse_k dense_k = Raise e
  | Ok sparse_results, Ok dense_results =>
      exists res,
        hybrid_search query sparse_retriever dense_retriever k alpha
          sparse_k dense_k = Ok res
        ∧ (Z.of_nat (length res) ≤ k)%Z
        ∧ StronglySorted (desc_by snd) res
        ∧ NoDup res.*1
        ∧ forall id_ : Z,
            id_ ∈ res.*1 -> id_ ∈ sparse_results.*1 ∨ id_ ∈ dense_results.*1
  end.
Proof.
  intros Hk. unfold hybrid_search.
  destruct (sparse_retriever query sparse_k) as [sp|e]; simpl; [|done].
  destruct (dense_retriever query dense_k) as [de|e]; simpl; [|done].
  eexists. split; [done|].
  assert (slice_to (combine_scores sp de alpha) k
          = take (Z.to_nat k) (combine_scores sp de alpha)) as Hslice.
  { unfold slice_to. by rewrite bool_decide_eq_true_2. }
  split_and!.
  - rewrite slice_to_length, bool_decide_eq_true_2 by done. lia.
  - apply slice_to_sorted. unfold combine_scores. apply sorted_desc_sorted.
  - rewrite Hslice, fmap_take.
    eapply sublist_NoDup; [apply combine_scores_NoDup|apply sublist_take].
  - intros id_ Hin. apply combine_scores_keys with (alpha := alpha).
    rewrite Hslice, fmap_take in Hin. by eapply subseteq_take.
Qed.

Lemma hybrid_search_contract_witness :
  exists res,
    hybrid_search [] (fun _ _ => Ok Examples.example_sparse)
      (fun _ _ => Ok Examples.example_dense) 2 (Q2Qc (2 # 5)) 100 100 = Ok res
    ∧ (Z.of_nat (length res) ≤ 2)%Z
    ∧ StronglySorted (desc_by snd) res
    ∧ NoDup res.*1
    ∧ forall id_ : Z,
        id_ ∈ res.*1 ->
        id_ ∈ Examples.example_sparse.*1 ∨ id_ ∈ Examples.example_dense.*1.
Proof.
  apply (hybrid_search_contract [] (fun _ _ => Ok Examples.example_sparse)
           (fun _ _ => Ok Examples.example_dense) 2 (Q2Qc (2 # 5)) 100 100).
  lia.
Defined.
End FusionFacts.

(** ** Union-find, continued *)

Section UnionFindClasses.
Import Embeddings Dedup.
Implicit Types (uf : UnionFind) (x y z w r : Z).

Lemma same_class_sym uf x y : same_class uf x y -> same_class uf y x.
Proof. intros (r & Hx & Hy). by exists r. Qed.

Lemma same_class_trans uf x y z :
  same_class uf x y -> same_class uf y z -> same_class uf x z.
Proof.
  intros (r & Hx & Hy) (r' & Hy' & Hz).
  rewrite (root_of_fun _ _ _ _ Hy' Hy) in Hz. by exists r.
Qed.

Lemma same_class_present uf x y :
  same_class uf x y ->
  x ∈ PyDict.keys (parent uf) ∧ y ∈ PyDict.keys (parent uf).
Proof. intros (r & Hx & Hy). split; by eapply root_of_present. Qed.

Lemma same_class_refl uf x :
  wf uf -> x ∈ PyDict.keys (parent uf) -> same_class uf x x.
Proof. intros Hwf Hx. destruct (has_root uf x Hwf Hx) as [r Hr]. by exists r. Qed.

(** A structure that keeps the roots of another keeps its classes. *)
Lemma same_class_forward uf uf' :
  (forall y ry, root_of (parent uf) y ry -> root_of (parent uf') y ry) ->
  forall z w, same_class uf z w -> same_class uf' z w.
Proof. intros Hfwd z w (r & Hz & Hw). exists r. auto. Qed.



Lemma find_returns_root uf z rz :
  wf uf -> root_of (parent uf) z rz ->
  exists uf1, find uf z = Ok (uf1, rz).
Proof.
  intros Hwf Hz.
  destruct (wf_rank_present uf z Hwf) as [rk Hrk]; [by eapply root_of_present|].
  destruct (find_rec_present (S (length (parent uf))) uf z rk Hwf Hrk)
    as (uf1 & r & Hfind & _ & _ & _ & Hroot & _); [lia|].
  rewrite (root_of_fun _ _ _ _ Hz Hroot). by exists uf1.
Qed.



Lemma link_same_class uf a b rk x y :
  PyDict.get (parent uf) a = Some a -> PyDict.get (parent uf) b = Some b ->
  a ≠ b ->
  (root_of (parent uf) x a ∧ root_of (parent uf) y b)
  ∨ (root_of (parent uf) x b ∧ root_of (parent uf) y a) ->
  same_class {| parent := PyDict.set (parent uf) a b; rank := rk |} x y
  ∧ forall z w,
      same_class uf z w ->
      same_class {| parent := PyDict.set (parent uf) a b; rank := rk |} z w.
Proof.
  intros Ha Hb Hab Hxy.
  pose proof (root_of_link (parent uf) a b Ha Hb Hab) as Hlink.
  split.
  - exists b. simpl. destruct Hxy as [[Hx Hy]|[Hx Hy]].
    + pose proof (Hlink x a Hx) as Hx'. pose proof (Hlink y b Hy) as Hy'.
      rewrite decide_True in Hx' by done. rewrite decide_False in Hy' by done.
      done.
    + pose proof (Hlink x b Hx) as Hx'. pose proof (Hlink y a Hy) as Hy'.
      rewrite decide_False in Hx' by done. rewrite decide_True in Hy' by done.
      done.
  - intros z w (r & Hz & Hw).
    exists (if decide (r = a) then b else r). simpl. split; by apply Hlink.
Qed.

(** [union] returns, puts its two arguments in one class and keeps
    together what was together. *)
Lemma union_forward uf x y :
  wf uf ->
  exists uf',
    union uf x y = Ok uf'
    ∧ same_class uf' x y
    ∧ forall z w, same_class uf z w -> same_class uf' z w.
Proof.
  intros Hwf. unfold union.
  destruct (find_total uf x Hwf)
    as (uf1 & rx & Hf1 & Hwf1 & Hkeys1 & _ & Hroot1 & Hfwd1).
  destruct (find_total uf1 y Hwf1)
    as (uf2 & ry & Hf2 & Hwf2 & Hkeys2 & _ & Hroot2 & Hfwd2).
  rewrite Hf1. simpl. rewrite Hf2. simpl.
  pose proof (Hfwd2 _ _ Hroot1) as Hrootx.
  assert (forall z w, same_class uf z w -> same_class uf2 z w) as Hfwd.
  { intros z w Hzw. apply (same_class_forward uf1); [done|].
    by apply (same_class_forward uf). }
  case_bool_decide as Heq.
  { exists uf2. split_and!; [done| |done]. exists rx. split; [done|by subst]. }
  pose proof (root_of_is_root _ _ _ Hrootx) as Hpx.
  pose proof (root_of_is_root _ _ _ Hroot2) as Hpy.
  destruct (wf_rank_present uf2 rx Hwf2) as [rank_x Hrank_x];
    [by eapply get_Some_keys|].
  destruct (wf_rank_present uf2 ry Hwf2) as [rank_y Hrank_y];
    [by eapply get_Some_keys|].
  unfold getitem. rewrite Hrank_x, Hrank_y. simpl.
  case_bool_decide as Hlt; [|case_bool_decide as Hgt].
  - destruct (link_same_class uf2 rx ry (rank uf2) x y) as [Hxy Hkeep];
      [done|done|done|by left|].
    eexists. split_and!; [done|exact Hxy|]. intros z w Hzw. by apply Hkeep, Hfwd.
  - destruct (link_same_class uf2 ry rx (rank uf2) x y) as [Hxy Hkeep];
      [done|done|done|by right|].
    eexists. split_and!; [done|exact Hxy|]. intros z w Hzw. by apply Hkeep, Hfwd.
  - destruct (link_same_class uf2 ry rx
                (PyDict.set (rank uf2) rx (rank_x + 1)) x y) as [Hxy Hkeep];
      [done|done|done|by right|].
    eexists. split_and!; [done|exact Hxy|]. intros z w Hzw. by apply Hkeep, Hfwd.
Qed.

Lemma merged_label_root uf rx ry z rz :
  wf uf -> root_of (parent uf) z rz ->
  merged_label uf rx ry z = if bool_decide (rz = ry) then rx else rz.
Proof.
  intros Hwf Hz. unfold merged_label.
  by destruct (find_returns_root uf z rz Hwf Hz) as [uf1 ->].
Qed.

Lemma merged_label_respects uf rx ry :
  wf uf -> respects (merged_label uf rx ry) uf.
Proof.
  intros Hwf z rz Hz.
  rewrite (merged_label_root uf rx ry z rz Hwf Hz).
  by rewrite (merged_label_root uf rx ry rz rz Hwf (root_of_root _ _ _ Hz)).
Qed.

(** X7. [union] on two nodes of a well-formed structure returns a
    well-formed structure over the same nodes in which two nodes are in
    one class exactly when they were before, or one was in the class of
    the first argument and the other in the class of the second. *)
Theorem union_merges_exactly_two_classes uf x y :
  wf uf ->
  x ∈ PyDict.keys (parent uf) -> y ∈ PyDict.keys (parent uf) ->
  exists uf',
    union uf x y = Ok uf'
    ∧ wf uf'
    ∧ (forall k, k ∈ PyDict.keys (parent uf') <-> k ∈ PyDict.keys (parent uf))
    ∧ forall z w,
        z ∈ PyDict.keys (parent uf) -> w ∈ PyDict.keys (parent uf) ->
        (same_class uf' z w
         <-> same_class uf z w
             ∨ (same_class uf z x ∧ same_class uf w y)
             ∨ (same_class uf z y ∧ same_class uf w x)).
Proof.
  intros Hwf Hx Hy.
  destruct (union_total uf x y Hwf) as (uf' & Hrun & Hwf' & Hkeys & Hresp).
  destruct (union_forward uf x y Hwf) as (uf'' & Hrun' & Hxy & Hkeep).
  rewrite Hrun in Hrun'. injection Hrun' as <-.
  exists uf'. split_and!; [done|done| |].
  { intros k. rewrite Hkeys. split; [|by auto]. by intros [->|[->|?]]. }
  intros z w Hz Hw. split.
  - intros (r' & Hz' & Hw').
    destruct (has_root uf x Hwf Hx) as [rx Hrx].
    destruct (has_root uf y Hwf Hy) as [ry Hry].
    destruct (has_root uf z Hwf Hz) as [rz Hrz].
    destruct (has_root uf w Hwf Hw) as [rw Hrw].
    pose proof (Hresp Z (merged_label uf rx ry)) as Hlab.
    rewrite (merged_label_root uf rx ry x rx Hwf Hrx) in Hlab.
    rewrite (merged_label_root uf rx ry y ry Hwf Hry) in Hlab.
    rewrite (bool_decide_eq_true_2 (ry = ry)) in Hlab by done.
    assert (respects (merged_label uf rx ry) uf') as Hresp'.
    { apply Hlab; [by case_bool_decide|by apply merged_label_respects]. }
    pose proof (Hresp' z r' Hz') as Hlz. pose proof (Hresp' w r' Hw') as Hlw.
    rewrite (merged_label_root uf rx ry z rz Hwf Hrz) in Hlz.
    rewrite (merged_label_root uf rx ry w rw Hwf Hrw) in Hlw.
    rewrite Hlz in Hlw. clear Hlz.
    destruct (bool_decide (rz = ry)) eqn:Ez; destruct (bool_decide (rw = ry)) eqn:Ew;
      try apply bool_decide_eq_true in Ez; try apply bool_decide_eq_true in Ew.
    + left. exists ry. by rewrite <-Ez at 1; rewrite <-Ew.
    + right. right. rewrite Ez in Hrz. rewrite <-Hlw in Hrw.
      split; [by exists ry|by exists rx].
    + right. left. rewrite Ew in Hrw. rewrite Hlw in Hrz.
      split; [by exists rx|by exists ry].
    + left. rewrite Hlw in Hrz. by exists rw.
  - intros [Hzw|[[Hzx Hwy]|[Hzy Hwx]]].
    + by apply Hkeep.
    + apply (same_class_trans uf' z x w); [by apply Hkeep|].
      apply (same_class_trans uf' x y w); [done|].
      by apply same_class_sym, Hkeep.
    + apply (same_class_trans uf' z y w); [by apply Hkeep|].
      apply (same_class_trans uf' y x w); [by apply same_class_sym|].
      by apply same_class_sym, Hkeep.
Qed.

Lemma wf_two_singletons : wf Examples.two_singletons.
Proof.
  split.
  - reflexivity.
  - apply (bool_decide_unpack _). vm_compute. reflexivity.
  - intros x p Hx Hp. unfold Examples.two_singletons in Hx. simpl in Hx.
    repeat case_decide; simplify_eq.
  - simpl. lia.
Qed.

Lemma union_merges_exactly_two_classes_witness :
  exists uf',
    union Examples.two_singletons 1 2 = Ok uf'
    ∧ wf uf'
    ∧ (forall k, k ∈ PyDict.keys (parent uf')
                 <-> k ∈ PyDict.keys (parent Examples.two_singletons))
    ∧ forall z w,
        z ∈ PyDict.keys (parent Examples.two_singletons) ->
        w ∈ PyDict.keys (parent Examples.two_singletons) ->
        (same_class uf' z w
         <-> same_class Examples.two_singletons z w
             ∨ (same_class Examples.two_singletons z 1
                ∧ same_class Examples.two_singletons w 2)
             ∨ (same_class Examples.two_singletons z 2
                ∧ same_class Examples.two_singletons w 1)).
Proof.
  apply (union_merges_exactly_two_classes Examples.two_singletons 1 2).
  - apply wf_two_singletons.
  - apply (bool_decide_unpack _). vm_compute. reflexivity.
  - apply (bool_decide_unpack _). vm_compute. reflexivity.
Defined.
End UnionFindClasses.

(** ** Clusters and similar pairs *)

Section SimilarPairs.
Import Embeddings Dedup.

Lemma rfold_established {A B : Type} (I Q : A -> Prop)
    (step : A -> B -> result A) (l : list B) (x : B) :
  x ∈ l ->
  (forall a y a', y ∈ l -> I a -> step a y = Ok a' -> I a') ->
  (forall a y a', y ∈ l -> I a -> Q a -> step a y = Ok a' -> Q a') ->
  (forall a a', I a -> step a x = Ok a' -> Q a') ->
  forall acc acc', I acc -> rfold step l acc = Ok acc' -> Q acc'.
Proof.
  intros Hx HI HQ Hest.
  assert (forall l' acc acc',
            (forall y, y ∈ l' -> y ∈ l) -> I acc -> Q acc ->
            rfold step l' acc = Ok acc' -> Q acc') as Hkeep.
  { induction l' as [|y l' IH]; intros acc acc' Hsub Hacc Hq; simpl.
    - by intros [= <-].
    - destruct (step acc y) as [a1|e] eqn:Hstep; simpl; [|done].
      apply IH.
      + intros z Hz. apply Hsub. by right.
      + eapply HI; [|exact Hacc|exact Hstep]. apply Hsub. by left.
      + eapply HQ; [|exact Hacc|exact Hq|exact Hstep]. apply Hsub. by left. }
  assert (forall l' acc acc',
            (forall y, y ∈ l' -> y ∈ l) -> x ∈ l' -> I acc ->
            rfold step l' acc = Ok acc' -> Q acc') as Hgo.
  { induction l' as [|y l' IH]; intros acc acc' Hsub Hin Hacc; simpl.
    - by apply elem_of_nil in Hin.
    - destruct (step acc y) as [a1|e] eqn:Hstep; simpl; [|done].
      assert (I a1) as Ha1.
      { eapply HI; [|exact Hacc|exact Hstep]. apply Hsub. by left. }
      apply elem_of_cons in Hin as [Heq|Hin].
      + apply Hkeep; [|done|]; [|rewrite Heq in Hest; exact (Hest acc a1 Hacc Hstep)].
        intros z Hz. apply Hsub. by right.
      + apply IH; [|done|done]. intros z Hz. apply Hsub. by right. }
  intros acc acc'. by apply Hgo.
Qed.

Lemma index_pairs_elem n i j : i < j < n -> (i, j) ∈ index_pairs n.
Proof.
  intros Hij. unfold index_pairs. rewrite list_elem_of_In, in_flat_map.
  exists i. split; [apply in_seq; lia|].
  apply in_map, in_seq. lia.
Qed.

Lemma union_step_wf sim ids thr uf ij uf' :
  wf uf -> union_step sim ids thr uf ij = Ok uf' -> wf uf'.
Proof.
  intros Hwf. unfold union_step.
  destruct (entry sim ij.1 ij.2) as [s|e]; simpl; [|done].
  destruct (Qc_geb s thr); [|by intros [= <-]].
  destruct (row ids ij.1) as [a|e]; simpl; [|done].
  destruct (row ids ij.2) as [b|e]; simpl; [|done].
  destruct (union_total uf a b Hwf) as (uf1 & -> & Hwf1 & _).
  by intros [= <-].
Qed.

Lemma union_step_keeps sim ids thr uf ij uf' z w :
  wf uf -> union_step sim ids thr uf ij = Ok uf' ->
  same_class uf z w -> same_class uf' z w.
Proof.
  intros Hwf. unfold union_step.
  destruct (entry sim ij.1 ij.2) as [s|e]; simpl; [|done].
  destruct (Qc_geb s thr); [|by intros [= <-]].
  destruct (row ids ij.1) as [a|e]; simpl; [|done].
  destruct (row ids ij.2) as [b|e]; simpl; [|done].
  destruct (union_forward uf a b Hwf) as (uf1 & -> & _ & Hkeep).
  intros [= <-]. apply Hkeep.
Qed.

Lemma union_step_joins sim ids thr uf i j a b s uf' :
  wf uf -> entry sim i j = Ok s -> (thr ≤ s)%Qc ->
  ids !! i = Some a -> ids !! j = Some b ->
  union_step sim ids thr uf (i, j) = Ok uf' -> same_class uf' a b.
Proof.
  intros Hwf Hs Hthr Ha Hb. unfold union_step. simpl. rewrite Hs. simpl.
  unfold Qc_geb. rewrite bool_decide_eq_true_2 by done.
  apply row_Ok in Ha, Hb. rewrite Ha. simpl. rewrite Hb. simpl.
  destruct (union_forward uf a b Hwf) as (uf1 & -> & Hab & _).
  by intros [= <-].
Qed.

Lemma union_step_respects {L : Type} (kappa : Z -> L) sim ids thr uf ij uf' :
  (forall a b s,
     ids !! ij.1 = Some a -> ids !! ij.2 = Some b ->
     entry sim ij.1 ij.2 = Ok s -> (thr ≤ s)%Qc -> kappa a = kappa b) ->
  wf uf -> respects kappa uf ->
  union_step sim ids thr uf ij = Ok uf' -> respects kappa uf'.
Proof.
  intros Hk Hwf Hresp. unfold union_step.
  destruct (entry sim ij.1 ij.2) as [s|e] eqn:Hs; simpl; [|done].
  unfold Qc_geb. case_bool_decide as Hthr; [|by intros [= <-]].
  destruct (row ids ij.1) as [a|e] eqn:Ha; simpl; [|done].
  destruct (row ids ij.2) as [b|e] eqn:Hb; simpl; [|done].
  apply row_Ok in Ha, Hb.
  destruct (union_total uf a b Hwf) as (uf1 & -> & _ & _ & Hresp1).
  intros [= <-]. apply Hresp1; [|done]. by eapply Hk.
Qed.

Lemma two_members (l : list Z) (a b : Z) :
  a ∈ l -> b ∈ l -> a ≠ b -> 1 < length l.
Proof.
  intros Ha Hb Hab. destruct l as [|x [|y l]]; simpl; [|exfalso|lia].
  - by apply elem_of_nil in Ha.
  - apply list_elem_of_singleton in Ha, Hb. congruence.
Qed.

(** X8. Without blocking keys, two different identifiers whose rows have
    a cosine similarity of at least the threshold are members of one
    returned cluster. *)
Theorem similar_pair_clustered
    (l2_norm : vec -> Qc) (item_ids : list Z) (embeddings : list vec)
    (sim_threshold : Qc) (i j : nat) (a b : Z) (s : Qc)
    (res : list (Z * list Z)) :
  i < j -> item_ids !! i = Some a -> item_ids !! j = Some b -> a ≠ b ->
  entry (batch_cosine_similarity l2_norm embeddings embeddings) i j = Ok s ->
  (sim_threshold ≤ s)%Qc ->
  deduplicate_items l2_norm item_ids embeddings sim_threshold None = Ok res ->
  exists cid items, (cid, items) ∈ res ∧ a ∈ items ∧ b ∈ items.
Proof.
  intros Hij Ha Hb Hab Hs Hthr. unfold deduplicate_items, cluster_partition.
  destruct (init_loop_total (fun _ : Z => tt) item_ids)
    as (uf0 & -> & Hwf0 & _ & _). simpl.
  destruct (union_similar _ item_ids (length item_ids) sim_threshold uf0)
    as [uf1|e] eqn:Hsim; simpl; [|done].
  unfold union_similar in Hsim.
  assert (wf uf1) as Hwf1.
  { revert Hsim. apply (rfold_invariant wf); [|done].
    intros uf ij uf' _ Hwf. by apply union_step_wf. }
  assert (same_class uf1 a b) as (r & Hra & Hrb).
  { revert Hsim. apply (rfold_established wf (fun uf => same_class uf a b)
                          _ _ (i, j)); [| | | |done].
    - apply index_pairs_elem. split; [done|]. by eapply lookup_lt_Some.
    - intros uf ij uf' _ Hwf. by apply union_step_wf.
    - intros uf ij uf' _ Hwf Hq Hstep. by eapply union_step_keeps.
    - intros uf uf' Hwf Hstep. by eapply union_step_joins. }
  destruct (get_clusters_total uf1 Hwf1) as (uf2 & cl & -> & Hnd & Hperm & Hcl).
  simpl. intros [= <-].
  assert (forall x, root_of (parent uf1) x r ->
            exists items, (r, items) ∈ cl ∧ x ∈ items) as Hfind.
  { intros x Hx. pose proof (root_of_present _ _ _ Hx) as Hin.
    rewrite <-Hperm in Hin.
    apply elem_concat_values in Hin as ([r' items] & Hc & Hin). simpl in Hin.
    pose proof (root_of_fun _ _ _ _ (Hcl r' items Hc x Hin) Hx) as ->.
    by exists items. }
  destruct (Hfind a Hra) as (items & Hc & Hina).
  destruct (Hfind b Hrb) as (items' & Hc' & Hinb).
  pose proof (elem_get_NoDup _ _ _ Hnd Hc) as Hg.
  pose proof (elem_get_NoDup _ _ _ Hnd Hc') as Hg'.
  rewrite Hg in Hg'. injection Hg' as <-.
  exists r, items. split_and!; [|done|done].
  apply list_elem_of_In, List.filter_In. split; [by apply list_elem_of_In|].
  apply bool_decide_eq_true. simpl. exact (two_members items a b Hina Hinb Hab).
Qed.

Lemma similar_pair_clustered_witness :
  exists cid items,
    (cid, items) ∈ [(10%Z, [10; 11]%Z); (20%Z, [20; 21]%Z)]
    ∧ 10%Z ∈ items ∧ 11%Z ∈ items.
Proof.
  eapply (similar_pair_clustered Examples.sample_norm Examples.test_item_ids
            Examples.test_embeddings (Q2Qc (95 # 100)) 0 1 10 11).
  - lia.
  - reflexivity.
  - reflexivity.
  - done.
  - vm_compute. reflexivity.
  - apply (bool_decide_unpack _). vm_compute. reflexivity.
  - vm_compute. reflexivity.
Defined.

(** X9. Without blocking keys, the members of a returned cluster are
    connected by pairs of similar rows: a labelling of the identifiers
    that gives both identifiers of every such pair the same label gives
    all members of a cluster the same label. *)
Theorem clusters_follow_similar_pairs {L : Type} (kappa : Z -> L)
    (l2_norm : vec -> Qc) (item_ids : list Z) (embeddings : list vec)
    (sim_threshold : Qc) (res : list (Z * list Z)) :
  (forall i j a b s,
     i < j -> item_ids !! i = Some a -> item_ids !! j = Some b ->
     entry (batch_cosine_similarity l2_norm embeddings embeddings) i j = Ok s ->
     (sim_threshold ≤ s)%Qc -> kappa a = kappa b) ->
  deduplicate_items l2_norm item_ids embeddings sim_threshold None = Ok res ->
  forall cid items x y,
    (cid, items) ∈ res -> x ∈ items -> y ∈ items -> kappa x = kappa y.
Proof.
  intros Hk. unfold deduplicate_items, cluster_partition.
  destruct (init_loop_total kappa item_ids) as (uf0 & -> & Hwf0 & _ & Hresp0).
  simpl.
  destruct (union_similar _ item_ids (length item_ids) sim_threshold uf0)
    as [uf1|e] eqn:Hsim; simpl; [|done].
  unfold union_similar in Hsim.
  assert (wf uf1 ∧ respects kappa uf1) as [Hwf1 Hresp1].
  { revert Hsim.
    apply (rfold_invariant (fun uf => wf uf ∧ respects kappa uf)); [|done].
    intros uf [i j] uf' Hin [Hwf Hresp] Hstep.
    apply index_pairs_bound in Hin.
    split; [by eapply union_step_wf|].
    eapply union_step_respects; [|exact Hwf|exact Hresp|exact Hstep].
    simpl. intros a b s Ha Hb Hs Hthr. eapply (Hk i j); eauto. lia. }
  destruct (get_clusters_total uf1 Hwf1) as (uf2 & cl & -> & Hnd & Hperm & Hcl).
  simpl. intros [= <-] cid items x y Hin Hx Hy.
  apply list_elem_of_In, List.filter_In in Hin as [Hin _].
  apply list_elem_of_In in Hin.
  rewrite <-(Hresp1 x cid), <-(Hresp1 y cid); [done|by eapply Hcl..].
Qed.

Lemma clusters_follow_similar_pairs_witness : (20 / 10 = 21 / 10)%Z.
Proof.
  apply (clusters_follow_similar_pairs (fun z => (z / 10)%Z)
           Examples.sample_norm Examples.test_item_ids
           Examples.test_embeddings (Q2Qc (95 # 100))
           [(10%Z, [10; 11]%Z); (20%Z, [20; 21]%Z)]) with 20%Z [20; 21]%Z.
  - intros i j a b s Hij Ha Hb Hs Hthr.
    destruct i as [|[|[|[|[|i]]]]]; destruct j as [|[|[|[|[|j]]]]];
      try lia; try done;
      injection Ha as <-; injection Hb as <-; try reflexivity;
      vm_compute in Hs; injection Hs as <-;
      exfalso; apply Hthr; vm_compute; reflexivity.
  - vm_compute. reflexivity.
  - apply (bool_decide_unpack _). vm_compute. reflexivity.
  - apply (bool_decide_unpack _). vm_compute. reflexivity.
  - apply (bool_decide_unpack _). vm_compute. reflexivity.
Defined.
End SimilarPairs.

(** ** Duplicate pairs *)

Section DedupPairs.
Import Dedup.
Implicit Types (clusters : list (Z * list Z)) (items : list Z).

Lemma flat_map_bind {A B : Type} (f : A -> list B) (l : list A) :
  flat_map f l = l ≫= f.
Proof. induction l as [|x l IH]; csimpl; [done|by rewrite IH]. Qed.

Lemma index_pairs_NoDup n : NoDup (index_pairs n).
Proof.
  unfold index_pairs. rewrite flat_map_bind. apply NoDup_bind.
  - intros i1 i2 [i j] _ _ H1 H2.
    apply list_elem_of_fmap in H1 as (j1 & [= -> ->] & _).
    by apply list_elem_of_fmap in H2 as (j2 & [= -> ->] & _).
  - intros i _. apply (NoDup_fmap_2_strong (pair i)); [|apply NoDup_seq].
    by intros j1 j2 _ _ [= ->].
  - apply NoDup_seq.
Qed.

Lemma compute_dedup_pairs_cons (c : Z * list Z) clusters :
  compute_dedup_pairs (c :: clusters)
  = compute_dedup_pairs [c] ++ compute_dedup_pairs clusters.
Proof. unfold compute_dedup_pairs. csimpl. by rewrite app_nil_r. Qed.

Lemma pairs_elem clusters a b :
  (a, b) ∈ compute_dedup_pairs clusters
  <-> exists c i j,
        c ∈ clusters ∧ i < j ∧ c.2 !! i = Some a ∧ c.2 !! j = Some b.
Proof.
  unfold compute_dedup_pairs, PyDict.values.
  rewrite list_elem_of_In, in_flat_map. split.
  - intros (items & Hitems & Hin).
    apply list_elem_of_In, list_elem_of_fmap in Hitems as (c & -> & Hc).
    apply in_flat_map in Hin as ([i j] & Hij & Hin). simpl in Hin.
    apply list_elem_of_In, index_pairs_bound in Hij.
    destruct (c.2 !! i) as [a'|] eqn:Ha; [|done].
    destruct (c.2 !! j) as [b'|] eqn:Hb; [|done].
    destruct Hin as [[= -> ->]|[]].
    exists c, i, j. split_and!; [done|lia|done|done].
  - intros (c & i & j & Hc & Hij & Ha & Hb).
    exists c.2. split.
    + apply list_elem_of_In, list_elem_of_fmap. by exists c.
    + apply in_flat_map. exists (i, j). split.
      * apply list_elem_of_In, index_pairs_elem. split; [done|].
        by eapply lookup_lt_Some.
      * simpl. rewrite Ha, Hb. by left.
Qed.

Lemma cluster_NoDup clusters (c : Z * list Z) :
  NoDup (concat (PyDict.values clusters)) -> c ∈ clusters -> NoDup c.2.
Proof.
  unfold PyDict.values. induction clusters as [|c0 clusters IH]; csimpl.
  - intros _ Hc. by apply elem_of_nil in Hc.
  - rewrite NoDup_app. intros (Hnd0 & _ & Hnd) Hc.
    apply elem_of_cons in Hc as [->|Hc]; [done|by apply IH].
Qed.

Lemma single_cluster_pairs_NoDup (c : Z * list Z) :
  NoDup c.2 -> NoDup (compute_dedup_pairs [c]).
Proof.
  intros Hnd. unfold compute_dedup_pairs. csimpl. rewrite app_nil_r.
  rewrite flat_map_bind. apply NoDup_bind; [| |apply index_pairs_NoDup].
  - intros [i1 j1] [i2 j2] [a b] _ _ H1 H2. simpl in H1, H2.
    destruct (c.2 !! i1) as [a1|] eqn:Ha1; [|by apply elem_of_nil in H1].
    destruct (c.2 !! j1) as [b1|] eqn:Hb1; [|by apply elem_of_nil in H1].
    destruct (c.2 !! i2) as [a2|] eqn:Ha2; [|by apply elem_of_nil in H2].
    destruct (c.2 !! j2) as [b2|] eqn:Hb2; [|by apply elem_of_nil in H2].
    apply list_elem_of_singleton in H1, H2. simplify_eq.
    f_equal; by eapply NoDup_lookup.
  - intros [i j] _. simpl.
    destruct (c.2 !! i); [|apply NoDup_nil_2].
    destruct (c.2 !! j); [apply NoDup_singleton|apply NoDup_nil_2].
Qed.

(** X10. On clusters that share no member and repeat none (as
    [deduplicate_items] returns them), [compute_dedup_pairs] lists every
    pair of two different members of one cluster exactly once and in one
    order only, and lists nothing else. *)
Theorem compute_dedup_pairs_each_pair_once clusters :
  NoDup (concat (PyDict.values clusters)) ->
  NoDup (compute_dedup_pairs clusters)
  ∧ (forall a b,
       (a, b) ∈ compute_dedup_pairs clusters ->
       a ≠ b ∧ ((b, a) ∉ compute_dedup_pairs clusters)
       ∧ exists c, c ∈ clusters ∧ a ∈ c.2 ∧ b ∈ c.2)
  ∧ (forall c a b,
       c ∈ clusters -> a ∈ c.2 -> b ∈ c.2 -> a ≠ b ->
       (a, b) ∈ compute_dedup_pairs clusters
       ∨ (b, a) ∈ compute_dedup_pairs clusters).
Proof.
  intros Hnd. split_and!.
  - induction clusters as [|c clusters IH]; [apply NoDup_nil_2|].
    rewrite compute_dedup_pairs_cons.
    pose proof Hnd as Hnd'. unfold PyDict.values in Hnd'. csimpl in Hnd'.
    apply NoDup_app in Hnd' as (Hnd0 & Hdisj & Hnd1).
    apply NoDup_app. split_and!.
    + by apply single_cluster_pairs_NoDup.
    + intros [a b] H1 H2.
      apply pairs_elem in H1 as (c1 & i1 & j1 & Hc1 & _ & Ha1 & _).
      apply pairs_elem in H2 as (c2 & i2 & j2 & Hc2 & _ & Ha2 & _).
      apply list_elem_of_singleton in Hc1 as ->.
      apply (Hdisj a); [by eapply list_elem_of_lookup_2|].
      apply elem_concat_values. exists c2. split; [done|].
      by eapply list_elem_of_lookup_2.
    + by apply IH.
  - intros a b Hab.
    apply pairs_elem in Hab as (c & i & j & Hc & Hij & Ha & Hb).
    pose proof (cluster_NoDup clusters c Hnd Hc) as Hndc.
    split_and!.
    + intros ->. pose proof (NoDup_lookup _ _ _ _ Hndc Ha Hb). lia.
    + intros Hba.
      apply pairs_elem in Hba as (c' & i' & j' & Hc' & Hij' & Hb' & Ha').
      assert (c = c') as <-.
      { eapply (cluster_unique clusters c c' a); [done|done|done| |];
          by eapply list_elem_of_lookup_2. }
      pose proof (NoDup_lookup _ _ _ _ Hndc Ha Ha').
      pose proof (NoDup_lookup _ _ _ _ Hndc Hb Hb'). lia.
    + exists c. split_and!; [done|by eapply list_elem_of_lookup_2..].
  - intros c a b Hc Ha Hb Hab.
    apply list_elem_of_lookup_1 in Ha as [i Hi].
    apply list_elem_of_lookup_1 in Hb as [j Hj].
    destruct (decide (i < j)) as [Hlt|Hge].
    + left. apply pairs_elem. by exists c, i, j.
    + right. apply pairs_elem. exists c, j, i. split_and!; [done| |done|done].
      assert (i ≠ j) by (intros ->; congruence). lia.
Qed.

Lemma compute_dedup_pairs_each_pair_once_witness :
  NoDup (compute_dedup_pairs [(10%Z, [10; 11; 12]%Z); (20%Z, [20; 21]%Z)])
  ∧ (forall a b,
       (a, b) ∈ compute_dedup_pairs
                  [(10%Z, [10; 11; 12]%Z); (20%Z, [20; 21]%Z)] ->
       a ≠ b
       ∧ ((b, a) ∉ compute_dedup_pairs
                     [(10%Z, [10; 11; 12]%Z); (20%Z, [20; 21]%Z)])
       ∧ exists c, c ∈ [(10%Z, [10; 11; 12]%Z); (20%Z, [20; 21]%Z)]
                   ∧ a ∈ c.2 ∧ b ∈ c.2)
  ∧ (forall c a b,
       c ∈ [(10%Z, [10; 11; 12]%Z); (20%Z, [20; 21]%Z)] ->
       a ∈ c.2 -> b ∈ c.2 -> a ≠ b ->
       (a, b) ∈ compute_dedup_pairs
                  [(10%Z, [10; 11; 12]%Z); (20%Z, [20; 21]%Z)]
       ∨ (b, a) ∈ compute_dedup_pairs
                    [(10%Z, [10; 11; 12]%Z); (20%Z, [20; 21]%Z)]).
Proof.
  apply (compute_dedup_pairs_each_pair_once
           [(10%Z, [10; 11; 12]%Z); (20%Z, [20; 21]%Z)]).
  apply (bool_decide_unpack _). vm_compute. reflexivity.
Defined.
End DedupPairs.

(** ** Counts as rationals *)

Section Counting.
Local Open Scope Qc_scope.

Lemma Qc_of_nat_le (n m : nat) : (n ≤ m)%nat -> Qc_of_nat n ≤ Qc_of_nat m.
Proof.
  intros Hnm. unfold Qc_of_nat. rewrite <-Z2Qc_inj_le. lia.
Qed.

Lemma Qc_of_nat_nonneg (n : nat) : 0 ≤ Qc_of_nat n.
Proof. unfold Qc_of_nat. rewrite <-Z2Qc_inj_0, <-Z2Qc_inj_le. lia. Qed.

Lemma Qc_of_nat_pos (n : nat) : (0 < n)%nat -> 0 < Qc_of_nat n.
Proof.
  intros Hn. unfold Qc_of_nat. rewrite <-Z2Qc_inj_0, <-Z2Qc_inj_lt. lia.
Qed.

Lemma Qc_ratio_unit (n m : nat) :
  (n ≤ m)%nat -> (0 < m)%nat ->
  0 ≤ Qc_of_nat n / Qc_of_nat m ∧ Qc_of_nat n / Qc_of_nat m ≤ 1.
Proof.
  intros Hnm Hm. apply Qc_div_unit;
    [apply Qc_of_nat_nonneg|by apply Qc_of_nat_le|by apply Qc_of_nat_pos].
Qed.

Lemma Qc_ratio_one (n : nat) : (0 < n)%nat -> Qc_of_nat n / Qc_of_nat n = 1.
Proof.
  intros Hn. unfold Qcdiv. apply Qcmult_inv_r.
  intros H0. pose proof (Qc_of_nat_pos n Hn) as Hpos. rewrite H0 in Hpos.
  by apply (Qclt_not_eq 0 0).
Qed.
End Counting.

(** ** [evaluate_dedup_pairs] *)

Section PairMetrics.
Import Dedup.
Local Open Scope Qc_scope.
Implicit Types (pairs : list (Z * Z)).

Lemma sorted_pair_swap (a b : Z) : sorted_pair (b, a) = sorted_pair (a, b).
Proof.
  unfold sorted_pair. simpl.
  destruct (decide (a < b)%Z) as [Hab|Hab]; destruct (decide (b < a)%Z) as [Hba|Hba];
    first [rewrite (bool_decide_eq_true_2 _ Hab)|rewrite (bool_decide_eq_false_2 _ Hab)];
    first [rewrite (bool_decide_eq_true_2 _ Hba)|rewrite (bool_decide_eq_false_2 _ Hba)];
    try done; try lia.
  assert (a = b) as -> by lia. done.
Qed.

Lemma sorted_pair_elem pairs (x : Z * Z) :
  x ∈ map sorted_pair pairs
  <-> sorted_pair x = x ∧ ((x.1, x.2) ∈ pairs ∨ (x.2, x.1) ∈ pairs).
Proof.
  rewrite list_elem_of_fmap. split.
  - intros ([a b] & -> & Hin).
    destruct (decide (b < a)%Z) as [Hlt|Hlt].
    + assert (sorted_pair (a, b) = (b, a)) as ->.
      { unfold sorted_pair. simpl. by rewrite bool_decide_eq_true_2. }
      unfold sorted_pair. simpl.
      rewrite bool_decide_eq_false_2 by lia. split; [done|by right].
    + assert (sorted_pair (a, b) = (a, b)) as ->.
      { unfold sorted_pair. simpl. by rewrite bool_decide_eq_false_2. }
      unfold sorted_pair. simpl.
      rewrite bool_decide_eq_false_2 by done. split; [done|by left].
  - destruct x as [a b]. simpl. intros [Hfix [Hin|Hin]].
    + by exists (a, b).
    + exists (b, a). by rewrite sorted_pair_swap.
Qed.

Lemma sorted_pair_set pairs pairs' :
  (forall a b, (a, b) ∈ pairs ∨ (b, a) ∈ pairs
               <-> (a, b) ∈ pairs' ∨ (b, a) ∈ pairs') ->
  (list_to_set (map sorted_pair pairs) : gset (Z * Z))
  = list_to_set (map sorted_pair pairs').
Proof.
  intros H. apply set_eq. intros x.
  rewrite !elem_of_list_to_set, !sorted_pair_elem. by rewrite (H x.1 x.2).
Qed.

(** X11. [evaluate_dedup_pairs] looks at unordered pairs only: two lists
    of predictions, and two lists of true pairs, that hold the same pairs
    up to the order of the list, repetitions and the order inside a pair
    get the same metrics. *)
Theorem evaluate_dedup_pairs_unordered
    (predicted_pairs predicted_pairs' true_pairs true_pairs' : list (Z * Z)) :
  (forall a b, (a, b) ∈ predicted_pairs ∨ (b, a) ∈ predicted_pairs
               <-> (a, b) ∈ predicted_pairs' ∨ (b, a) ∈ predicted_pairs') ->
  (forall a b, (a, b) ∈ true_pairs ∨ (b, a) ∈ true_pairs
               <-> (a, b) ∈ true_pairs' ∨ (b, a) ∈ true_pairs') ->
  evaluate_dedup_pairs predicted_pairs true_pairs
  = evaluate_dedup_pairs predicted_pairs' true_pairs'.
Proof.
  intros Hp Ht. unfold evaluate_dedup_pairs.
  by rewrite (sorted_pair_set _ _ Hp), (sorted_pair_set _ _ Ht).
Qed.

Lemma evaluate_dedup_pairs_unordered_witness :
  evaluate_dedup_pairs [(1, 2); (3, 4)]%Z [(2, 1)]%Z
  = evaluate_dedup_pairs [(4, 3); (2, 1); (3, 4)]%Z [(1, 2); (1, 2)]%Z.
Proof.
  apply evaluate_dedup_pairs_unordered; intros a b;
    rewrite ?elem_of_cons, ?elem_of_nil; split; intros H;
    repeat destruct H as [H|H]; simplify_eq; tauto.
Defined.

Lemma size_split (X Y : gset (Z * Z)) :
  (size (X ∩ Y) + size (X ∖ Y))%nat = size X.
Proof.
  rewrite <-size_union by set_solver. f_equal.
  apply set_eq. intros x. rewrite elem_of_union, elem_of_intersection,
    elem_of_difference. destruct (decide (x ∈ Y)); tauto.
Qed.

Lemma Qc_two : Qc_of_Z 2 = 1 + 1.
Proof. apply Qc_is_canon. reflexivity. Qed.

Lemma harmonic_unit (p r : Qc) :
  0 ≤ p -> p ≤ 1 -> 0 ≤ r -> r ≤ 1 -> 0 < p + r ->
  0 ≤ Qc_of_Z 2 * p * r / (p + r) ∧ Qc_of_Z 2 * p * r / (p + r) ≤ 1.
Proof.
  intros Hp0 Hp1 Hr0 Hr1 Hpos. rewrite Qc_two.
  assert (0 ≤ p * r) as Hpr by by apply Qcmult_nonneg_nonneg.
  replace ((1 + 1) * p * r) with (p * r + p * r) by ring.
  apply Qc_div_unit; [|  |done].
  - replace 0 with (0 + 0) by ring. by apply Qcplus_le_compat.
  - apply Qcplus_le_compat.
    + replace p with (p * 1) at 2 by ring. rewrite !(Qcmult_comm p).
      by apply Qcmult_le_compat_r.
    + replace r with (1 * r) at 2 by ring. by apply Qcmult_le_compat_r.
Qed.

(** X12. The counts of [evaluate_dedup_pairs] split the two sets of
    unordered pairs: true and false positives are the predicted pairs,
    true positives and false negatives the true pairs; and precision,
    recall and F1 lie between 0 and 1. *)
Theorem evaluate_dedup_pairs_counts_and_ranges
    (predicted_pairs true_pairs : list (Z * Z)) :
  let m := evaluate_dedup_pairs predicted_pairs true_pairs in
  (true_positives m + false_positives m)%nat
  = size (list_to_set (map sorted_pair predicted_pairs) : gset (Z * Z))
  ∧ (true_positives m + false_negatives m)%nat
    = size (list_to_set (map sorted_pair true_pairs) : gset (Z * Z))
  ∧ (0 ≤ precision m ∧ precision m ≤ 1)
  ∧ (0 ≤ recall m ∧ recall m ≤ 1)
  ∧ (0 ≤ f1 m ∧ f1 m ≤ 1).
Proof.
  unfold evaluate_dedup_pairs. simpl.
  set (pred_set := list_to_set (map sorted_pair predicted_pairs) : gset (Z * Z)).
  set (true_set := list_to_set (map sorted_pair true_pairs) : gset (Z * Z)).
  set (tp := size (pred_set ∩ true_set)).
  set (fp := size (pred_set ∖ true_set)).
  set (fn := size (true_set ∖ pred_set)).
  set (p := if bool_decide (0 < tp + fp)%nat
            then Qc_of_nat tp / Qc_of_nat (tp + fp) else 0).
  set (r := if bool_decide (0 < tp + fn)%nat
            then Qc_of_nat tp / Qc_of_nat (tp + fn) else 0).
  assert (0 ≤ p ∧ p ≤ 1) as [Hp0 Hp1].
  { unfold p. case_bool_decide; [apply Qc_ratio_unit; lia|done]. }
  assert (0 ≤ r ∧ r ≤ 1) as [Hr0 Hr1].
  { unfold r. case_bool_decide; [apply Qc_ratio_unit; lia|done]. }
  split_and!; try done.
  - apply size_split.
  - unfold tp, fn. rewrite (comm_L (∩) pred_set true_set). apply size_split.
  - destruct (Qc_ltb 0 (p + r)) eqn:Hpos; [|done].
    apply Qc_ltb_true in Hpos. by apply harmonic_unit.
  - destruct (Qc_ltb 0 (p + r)) eqn:Hpos; [|done].
    apply Qc_ltb_true in Hpos. by apply harmonic_unit.
Qed.

(** X13. A prediction that is the truth gets precision, recall and F1
    equal to 1 and no false positive or negative; except that with no pair
    at all the three metrics are 0. *)
Theorem evaluate_dedup_pairs_perfect pairs :
  evaluate_dedup_pairs pairs pairs
  = {| precision := if decide (pairs = []) then 0 else 1;
       recall := if decide (pairs = []) then 0 else 1;
       f1 := if decide (pairs = []) then 0 else 1;
       true_positives :=
         size (list_to_set (map sorted_pair pairs) : gset (Z * Z));
       false_positives := 0;
       false_negatives := 0 |}.
Proof.
  unfold evaluate_dedup_pairs.
  set (X := list_to_set (map sorted_pair pairs) : gset (Z * Z)).
  assert (X ∩ X = X) as -> by set_solver.
  assert (X ∖ X = ∅) as -> by set_solver.
  rewrite size_empty, Nat.add_0_r.
  destruct (decide (pairs = [])) as [->|Hne].
  - subst X. vm_compute. reflexivity.
  - assert (0 < size X)%nat as Hpos.
    { destruct pairs as [|x pairs]; [done|]. subst X. csimpl.
      rewrite size_union_alt, size_singleton. lia. }
    rewrite bool_decide_eq_true_2 by done.
    rewrite Qc_ratio_one by done.
    assert (Qc_ltb 0 (1 + 1) = true) as -> by (vm_compute; reflexivity).
    f_equal. apply Qc_is_canon. reflexivity.
Qed.
End PairMetrics.

(** ** Ranges and monotonicity of the retrieval metrics *)

Section EvalRanges.
Import Eval.
Local Open Scope Qc_scope.

Lemma Qc_of_nat_S (n : nat) : Qc_of_nat (S n) = Qc_of_nat n + 1.
Proof.
  unfold Qc_of_nat. rewrite Nat2Z.inj_succ, <-Z.add_1_r.
  by rewrite Z2Qc_inj_add, Z2Qc_inj_1.
Qed.

Lemma Qc_zero_ratio (x : Qc) : Qc_of_nat 0 / x = 0.
Proof.
  change (Qc_of_nat 0) with (Qc_of_Z 0). unfold Qcdiv.
  by rewrite Z2Qc_inj_0, Qcmult_0_l.
Qed.

Lemma fold_sum_bounds (l : list Qc) (acc : Qc) :
  Forall (fun x => 0 ≤ x ∧ x ≤ 1) l ->
  acc ≤ fold_left Qcplus l acc
  ∧ fold_left Qcplus l acc ≤ acc + Qc_of_nat (length l).
Proof.
  revert acc. induction l as [|x l IH]; intros acc Hall; simpl.
  - split; [apply Qcle_refl|]. change (Qc_of_nat 0) with (Qc_of_Z 0).
    rewrite Z2Qc_inj_0, Qcplus_0_r. apply Qcle_refl.
  - apply Forall_cons in Hall as [[Hx0 Hx1] Hall].
    destruct (IH (acc + x) Hall) as [Hlo Hhi]. split.
    + eapply Qcle_trans; [|exact Hlo].
      rewrite <-(Qcplus_0_r acc) at 1. apply Qcplus_le_compat; [apply Qcle_refl|done].
    + eapply Qcle_trans; [exact Hhi|]. rewrite Qc_of_nat_S.
      replace (acc + (Qc_of_nat (length l) + 1))
        with (acc + 1 + Qc_of_nat (length l)) by ring.
      apply Qcplus_le_compat; [|apply Qcle_refl].
      apply Qcplus_le_compat; [apply Qcle_refl|done].
Qed.

Lemma mean_unit (l : list Qc) :
  Forall (fun x => 0 ≤ x ∧ x ≤ 1) l ->
  0 ≤ mean_or_zero l ∧ mean_or_zero l ≤ 1.
Proof.
  intros Hall. destruct l as [|x l]; [done|].
  unfold mean_or_zero, Qc_sum.
  destruct (fold_sum_bounds (x :: l) 0 Hall) as [Hlo Hhi].
  rewrite Qcplus_0_l in Hhi.
  apply Qc_div_unit; [done|done|]. apply Qc_of_nat_pos. simpl. lia.
Qed.

Lemma fold_sum_mono (l1 l2 : list Qc) (a1 a2 : Qc) :
  Forall2 Qcle l1 l2 -> a1 ≤ a2 ->
  fold_left Qcplus l1 a1 ≤ fold_left Qcplus l2 a2.
Proof.
  intros Hall. revert a1 a2.
  induction Hall as [|x y l1 l2 Hxy Hall IH]; intros a1 a2 Ha; simpl; [done|].
  apply IH. by apply Qcplus_le_compat.
Qed.

Lemma mean_mono (l1 l2 : list Qc) :
  Forall2 Qcle l1 l2 -> mean_or_zero l1 ≤ mean_or_zero l2.
Proof.
  intros Hall. pose proof (Forall2_length _ _ _ Hall) as Hlen.
  destruct l1 as [|x l1], l2 as [|y l2]; try done.
  unfold mean_or_zero, Qc_sum. rewrite Hlen. unfold Qcdiv.
  apply Qcmult_le_compat_r; [by apply fold_sum_mono|].
  apply Qclt_le_weak, Qcinv_pos, Qc_of_nat_pos. simpl. lia.
Qed.

Lemma hits_at_le_relevant k pred truth :
  (hits_at k pred truth ≤ size (list_to_set truth : gset Z))%nat.
Proof. unfold hits_at. apply subseteq_size. set_solver. Qed.

Lemma size_list_to_set_bound (l : list Z) :
  (size (list_to_set l : gset Z) ≤ length l)%nat.
Proof.
  induction l as [|x l IH].
  { change (list_to_set [] : gset Z) with (∅ : gset Z). by rewrite size_empty. }
  csimpl. rewrite size_union_alt, size_singleton.
  pose proof (subseteq_size (list_to_set l ∖ {[x]}) (list_to_set l : gset Z)
                ltac:(set_solver)). lia.
Qed.

Lemma hits_at_le_k k pred truth :
  (0 ≤ k)%Z -> (Z.of_nat (hits_at k pred truth) ≤ k)%Z.
Proof.
  intros Hk. unfold hits_at.
  pose proof (subseteq_size
    ((list_to_set (slice_to pred k) : gset Z) ∩ list_to_set truth)
    (list_to_set (slice_to pred k)) ltac:(set_solver)) as H1.
  pose proof (size_list_to_set_bound (slice_to pred k)) as H2.
  pose proof (slice_to_length pred k) as H3.
  rewrite bool_decide_eq_true_2 in H3 by done. lia.
Qed.

Lemma relevant_size_pos (truth : list Z) :
  truth ≠ [] -> (0 < size (list_to_set truth : gset Z))%nat.
Proof.
  intros Hne. destruct truth as [|x truth]; [done|]. csimpl.
  rewrite size_union_alt, size_singleton. lia.
Qed.

Lemma recall_query_unit k pred truth :
  truth ≠ [] -> 0 ≤ recall_query k pred truth ∧ recall_query k pred truth ≤ 1.
Proof.
  intros Hne. unfold recall_query.
  apply Qc_ratio_unit; [apply hits_at_le_relevant|by apply relevant_size_pos].
Qed.

Lemma precision_query_unit k pred truth :
  0 ≤ precision_query k pred truth ∧ precision_query k pred truth ≤ 1.
Proof.
  unfold precision_query. case_bool_decide as Hk; [|done].
  replace (Qc_of_Z k) with (Qc_of_nat (Z.to_nat k))
    by (unfold Qc_of_nat; f_equal; lia).
  apply Qc_ratio_unit; [|lia].
  pose proof (hits_at_le_k k pred truth ltac:(lia)). lia.
Qed.

Lemma first_hit_from_ge n pred (true_set : gset Z) r :
  first_hit_from n pred true_set = Some r ->
  (n ≤ r)%nat
  ∧ exists x, pred !! (r - n)%nat = Some x ∧ x ∈ true_set.
Proof.
  revert n. induction pred as [|item pred IH]; intros n; simpl; [done|].
  case_bool_decide as Hin.
  - intros [= <-]. split; [lia|]. exists item. by rewrite Nat.sub_diag.
  - intros Hr. destruct (IH (S n) Hr) as (Hle & x & Hx & Hxin).
    split; [lia|]. exists x. split; [|done].
    replace (r - n)%nat with (S (r - S n)) by lia. done.
Qed.

Lemma first_hit_from_found n pred (true_set : gset Z) i x :
  pred !! i = Some x -> x ∈ true_set ->
  exists r, first_hit_from n pred true_set = Some r ∧ (r ≤ n + i)%nat.
Proof.
  revert n i. induction pred as [|item pred IH]; intros n i Hi Hx; [done|].
  simpl. case_bool_decide as Hin.
  - exists n. split; [done|lia].
  - destruct i as [|i]; simpl in Hi; [by simplify_eq|].
    destruct (IH (S n) i Hi Hx) as (r & Hr & Hle).
    exists r. split; [done|lia].
Qed.

Lemma reciprocal_rank_query_unit pred truth :
  0 ≤ reciprocal_rank_query pred truth ∧ reciprocal_rank_query pred truth ≤ 1.
Proof.
  unfold reciprocal_rank_query, first_hit.
  destruct (first_hit_from 1 pred (list_to_set truth)) as [r|] eqn:Hr; [|done].
  apply first_hit_from_ge in Hr as [Hle _].
  rewrite <-Z2Qc_inj_1 at 1. change (Qc_of_Z 1) with (Qc_of_nat 1).
  apply Qc_ratio_unit; lia.
Qed.

Lemma average_unit (score : list Z -> list Z -> Qc) preds truth :
  (forall pred t, t ≠ [] -> 0 ≤ score pred t ∧ score pred t ≤ 1) ->
  0 ≤ average_over_relevant score preds truth
  ∧ average_over_relevant score preds truth ≤ 1.
Proof.
  intros Hscore. unfold average_over_relevant. apply mean_unit.
  apply Forall_forall. intros s Hs.
  apply list_elem_of_fmap in Hs as ([pred t] & -> & Hin).
  apply list_elem_of_In, List.filter_In in Hin as [_ Hrel].
  apply bool_decide_eq_true in Hrel. by apply Hscore.
Qed.

(** X14. [recall_at_k], [precision_at_k] and [mean_reciprocal_rank]
    raise the length error when their two inputs differ in length, and
    otherwise return a value between 0 and 1, for every k. *)
Theorem retrieval_metrics_unit_interval
    (predictions ground_truth : list (list Z)) (k : Z) :
  let in_unit (r : result Qc) : Prop :=
    match r with
    | Ok v => length predictions = length ground_truth ∧ 0 ≤ v ∧ v ≤ 1
    | Raise e => length predictions ≠ length ground_truth ∧ e = length_mismatch
    end in
  in_unit (recall_at_k predictions ground_truth k)
  ∧ in_unit (precision_at_k predictions ground_truth k)
  ∧ in_unit (mean_reciprocal_rank predictions ground_truth).
Proof.
  simpl.
  destruct (decide (length predictions = length ground_truth)) as [Hlen|Hne].
  - rewrite recall_at_k_average, precision_at_k_average,
      mean_reciprocal_rank_average by done.
    destruct (average_unit (recall_query k) predictions ground_truth)
      as [? ?]; [intros pred t Ht; by apply recall_query_unit|].
    destruct (average_unit (precision_query k) predictions ground_truth)
      as [? ?]; [intros pred t _; apply precision_query_unit|].
    destruct (average_unit reciprocal_rank_query predictions ground_truth)
      as [? ?]; [intros pred t _; apply reciprocal_rank_query_unit|].
    split_and!; done.
  - destruct (metrics_reject_mismatch Qc_of_Z predictions ground_truth k Hne)
      as (-> & -> & -> & _). done.
Qed.

Lemma take_mono {A : Type} (l : list A) (n m : nat) x :
  (n ≤ m)%nat -> x ∈ take n l -> x ∈ take m l.
Proof.
  intros Hnm Hx. replace n with (n `min` m)%nat in Hx by lia.
  rewrite <-take_take in Hx. by eapply subseteq_take.
Qed.

Lemma hits_at_mono k k' pred truth :
  (0 ≤ k)%Z -> (k ≤ k')%Z -> (hits_at k pred truth ≤ hits_at k' pred truth)%nat.
Proof.
  intros Hk Hkk. unfold hits_at. apply subseteq_size.
  assert (forall x, x ∈ slice_to pred k -> x ∈ slice_to pred k') as Hsub.
  { intros x. unfold slice_to. rewrite !bool_decide_eq_true_2 by lia.
    apply take_mono. lia. }
  intros x. rewrite !elem_of_intersection, !elem_of_list_to_set.
  intros [Hx Ht]. split; [by apply Hsub|done].
Qed.

(** X15. With a cut-off that is not negative, recall does not go down
    when the cut-off grows. *)
Theorem recall_at_k_monotone
    (predictions ground_truth : list (list Z)) (k k' : Z) :
  (0 ≤ k)%Z -> (k ≤ k')%Z -> length predictions = length ground_truth ->
  exists r r',
    recall_at_k predictions ground_truth k = Ok r
    ∧ recall_at_k predictions ground_truth k' = Ok r'
    ∧ r ≤ r'.
Proof.
  intros Hk Hkk Hlen. rewrite !recall_at_k_average by done.
  eexists _, _. split_and!; [done|done|].
  unfold average_over_relevant. apply mean_mono.
  apply Forall2_fmap, Forall_Forall2_diag, Forall_forall.
  intros [pred t] Hin.
  apply list_elem_of_In, List.filter_In in Hin as [_ Hrel].
  apply bool_decide_eq_true in Hrel. simpl in *.
  unfold recall_query, Qcdiv. apply Qcmult_le_compat_r.
  - apply Qc_of_nat_le. by apply hits_at_mono.
  - apply Qclt_le_weak, Qcinv_pos, Qc_of_nat_pos. by apply relevant_size_pos.
Qed.

Lemma recall_at_k_monotone_witness :
  exists r r',
    recall_at_k [[1; 2; 3; 4; 5]; [10; 11; 12]]%Z [[1; 3; 6]; [11; 13]]%Z 1
    = Ok r
    ∧ recall_at_k [[1; 2; 3; 4; 5]; [10; 11; 12]]%Z [[1; 3; 6]; [11; 13]]%Z 5
      = Ok r'
    ∧ r ≤ r'.
Proof.
  apply (recall_at_k_monotone [[1; 2; 3; 4; 5]; [10; 11; 12]]%Z
           [[1; 3; 6]; [11; 13]]%Z 1 5); [lia|lia|reflexivity].
Defined.

(** X16. Every record of [per_query_metrics], for a cut-off that is not
    negative: [hit] is 0 or 1, and it is 1 exactly when the rank of the
    first relevant prediction exists and is at most the cut-off; recall
    and precision lie between 0 and 1, and both are 0 when [hit] is 0. *)
Theorem per_query_metrics_records
    (predictions ground_truth : list (list Z))
    (query_ids : option (list string)) (k : Z) (m : query_metrics) :
  (0 ≤ k)%Z ->
  m ∈ per_query_metrics predictions ground_truth query_ids k ->
  (hit m = 0%nat ∨ hit m = 1%nat)
  ∧ (hit m = 1%nat
     <-> exists r, first_hit_rank m = Some r ∧ (Z.of_nat r ≤ k)%Z)
  ∧ (0 ≤ recall m ∧ recall m ≤ 1)
  ∧ (0 ≤ precision m ∧ precision m ≤ 1)
  ∧ (hit m = 0%nat -> recall m = 0 ∧ precision m = 0).
Proof.
  intros Hk. unfold per_query_metrics. revert m. apply Forall_forall.
  apply fold_left_invariant; [|by apply Forall_nil].
  intros results [qid [pred truth]] _ Hall.
  apply Forall_app. split; [done|]. apply Forall_singleton. simpl.
  set (true_set := list_to_set truth : gset Z).
  set (pred_set := list_to_set (slice_to pred k) : gset Z).
  assert (slice_to pred k = take (Z.to_nat k) pred) as Hslice.
  { unfold slice_to. by rewrite bool_decide_eq_true_2. }
  assert (pred_set ∩ true_set = ∅ -> size (pred_set ∩ true_set) = 0%nat)
    as Hzero by (by intros ->).
  split; [|split; [|split; [|split]]].
  - case_bool_decide; auto.
  - case_bool_decide as Hempty; split.
    + done.
    + intros (r & Hr & Hle). exfalso. unfold first_hit in Hr.
      apply first_hit_from_ge in Hr as (Hge & x & Hx & Hxin).
      assert (x ∈ pred_set ∩ true_set) as Hin; [|set_solver].
      apply elem_of_intersection. split; [|done].
      unfold pred_set. rewrite elem_of_list_to_set, Hslice.
      apply list_elem_of_lookup. exists (r - 1)%nat.
      rewrite lookup_take_lt by lia. done.
    + intros _.
      assert (exists x, x ∈ pred_set ∩ true_set) as [x Hx].
      { apply set_choose_L. done. }
      apply elem_of_intersection in Hx as [Hxp Hxt].
      unfold pred_set in Hxp. rewrite elem_of_list_to_set, Hslice in Hxp.
      apply list_elem_of_lookup in Hxp as [i Hi].
      pose proof (lookup_lt_Some _ _ _ Hi) as Hlt. rewrite length_take in Hlt.
      rewrite lookup_take_lt in Hi by lia.
      destruct (first_hit_from_found 1 pred true_set i x Hi Hxt)
        as (r & Hr & Hle).
      exists r. split; [done|]. lia.
    + done.
  - case_bool_decide as Ht; [done|].
    apply (recall_query_unit k pred truth).
    intros ->. by apply Ht.
  - apply (precision_query_unit k pred truth).
  - case_bool_decide as Hempty; [|done]. intros _.
    rewrite (Hzero Hempty). split.
    + case_bool_decide; [done|]. apply Qc_zero_ratio.
    + case_bool_decide; [|done]. apply Qc_zero_ratio.
Qed.

Lemma per_query_metrics_records_witness :
  Forall
    (fun m =>
       (hit m = 0%nat ∨ hit m = 1%nat)
       ∧ (hit m = 1%nat
          <-> exists r, first_hit_rank m = Some r ∧ (Z.of_nat r ≤ 2)%Z)
       ∧ (0 ≤ recall m ∧ recall m ≤ 1)
       ∧ (0 ≤ precision m ∧ precision m ≤ 1)
       ∧ (hit m = 0%nat -> recall m = 0 ∧ precision m = 0))
    (per_query_metrics [[5; 7; 9]; [1; 2]]%Z [[7; 8]; [3]]%Z None 2).
Proof.
  apply Forall_forall. intros m Hm.
  apply (per_query_metrics_records [[5; 7; 9]; [1; 2]]%Z [[7; 8]; [3]]%Z
           None 2 m); [lia|exact Hm].
Defined.
End EvalRanges.

(** ** [evaluate_tagging] *)

Section TaggingMetrics.
Import Tagging.
Local Open Scope Qc_scope.

Lemma np_mean_unit (l : list Qc) :
  Forall (fun x => 0 ≤ x ∧ x ≤ 1) l -> l ≠ [] ->
  exists v, np_mean l = Some v ∧ 0 ≤ v ∧ v ≤ 1.
Proof.
  intros Hall Hne. destruct l as [|x l]; [done|].
  exists (mean_or_zero (x :: l)). split; [done|]. by apply mean_unit.
Qed.

Lemma tagging_step_unit acc pt :
  let unit := Forall (fun x => 0 ≤ x ∧ x ≤ 1) in
  unit acc.1.1 ∧ unit acc.1.2 ∧ unit acc.2 ->
  unit (tagging_step acc pt).1.1 ∧ unit (tagging_step acc pt).1.2
  ∧ unit (tagging_step acc pt).2.
Proof.
  simpl. intros (H1 & H2 & H3). unfold tagging_step.
  set (pred_set := list_to_set pt.1 : gset (list Z)).
  set (true_set := list_to_set pt.2 : gset (list Z)).
  destruct (bool_decide (size pred_set = 0%nat)
            && bool_decide (size true_set = 0%nat)); simpl.
  - split_and!; (apply Forall_app; split; [done|]); by apply Forall_singleton.
  - set (tp := size (pred_set ∩ true_set)).
    set (p := if bool_decide (0 < size pred_set)%nat
              then Qc_of_nat tp / Qc_of_nat (size pred_set) else 0).
    set (r := if bool_decide (0 < size true_set)%nat
              then Qc_of_nat tp / Qc_of_nat (size true_set) else 0).
    assert (0 ≤ p ∧ p ≤ 1) as [Hp0 Hp1].
    { unfold p. case_bool_decide; [|done]. apply Qc_ratio_unit; [|done].
      apply subseteq_size. set_solver. }
    assert (0 ≤ r ∧ r ≤ 1) as [Hr0 Hr1].
    { unfold r. case_bool_decide; [|done]. apply Qc_ratio_unit; [|done].
      apply subseteq_size. set_solver. }
    split_and!; (apply Forall_app; split; [done|]); apply Forall_singleton;
      [done|done|].
    destruct (Qc_ltb 0 (p + r)) eqn:Hpos; [|done].
    apply Qc_ltb_true in Hpos. by apply harmonic_unit.
Qed.

Lemma tagging_step_length acc pt :
  length (tagging_step acc pt).1.1 = S (length acc.1.1)
  ∧ length (tagging_step acc pt).1.2 = S (length acc.1.2)
  ∧ length (tagging_step acc pt).2 = S (length acc.2).
Proof.
  unfold tagging_step. destruct (_ && _); simpl; rewrite !length_app; simpl;
    split_and!; lia.
Qed.

Lemma tagging_fold_length l acc :
  length (fold_left tagging_step l acc).1.1 = (length acc.1.1 + length l)%nat
  ∧ length (fold_left tagging_step l acc).1.2 = (length acc.1.2 + length l)%nat
  ∧ length (fold_left tagging_step l acc).2 = (length acc.2 + length l)%nat.
Proof.
  revert acc. induction l as [|pt l IH]; intros acc; simpl; [lia|].
  destruct (IH (tagging_step acc pt)) as (-> & -> & ->).
  destruct (tagging_step_length acc pt) as (-> & -> & ->). lia.
Qed.

(** X17. [evaluate_tagging] raises the length error when its inputs
    differ in length. Otherwise the three macro fields repeat the three
    plain ones; on no sample at all every field is nan; and on at least
    one sample precision, recall and F1 are numbers between 0 and 1. *)
Theorem evaluate_tagging_ranges
    (predictions ground_truth : list (list Normalize.str)) :
  match evaluate_tagging predictions ground_truth with
  | Raise e =>
      length predictions ≠ length ground_truth
      ∧ e = ValueError "Predictions and ground truth must have same length"
  | Ok m =>
      length predictions = length ground_truth
      ∧ macro_precision m = precision m ∧ macro_recall m = recall m
      ∧ macro_f1 m = f1 m
      ∧ (predictions = [] ->
         precision m = None ∧ recall m = None ∧ f1 m = None)
      ∧ (predictions ≠ [] ->
         exists p r f,
           precision m = Some p ∧ recall m = Some r ∧ f1 m = Some f
           ∧ (0 ≤ p ∧ p ≤ 1) ∧ (0 ≤ r ∧ r ≤ 1) ∧ (0 ≤ f ∧ f ≤ 1))
  end.
Proof.
  unfold evaluate_tagging. case_bool_decide as Hlen; [done|]. simpl.
  split; [done|]. split; [done|]. split; [done|]. split; [done|]. split.
  - by intros ->.
  - intros Hne.
    set (l := zip predictions ground_truth).
    assert (l ≠ []) as Hl.
    { unfold l. destruct predictions, ground_truth; done. }
    destruct (tagging_fold_length l ([], [], [])) as (L1 & L2 & L3).
    assert (let unit := Forall (fun x => 0 ≤ x ∧ x ≤ 1) in
            unit (fold_left tagging_step l ([], [], [])).1.1
            ∧ unit (fold_left tagging_step l ([], [], [])).1.2
            ∧ unit (fold_left tagging_step l ([], [], [])).2)
      as (U1 & U2 & U3).
    { apply (fold_left_invariant
               (fun acc => Forall (fun x => 0 ≤ x ∧ x ≤ 1) acc.1.1
                           ∧ Forall (fun x => 0 ≤ x ∧ x ≤ 1) acc.1.2
                           ∧ Forall (fun x => 0 ≤ x ∧ x ≤ 1) acc.2)).
      - intros acc pt _. apply tagging_step_unit.
      - simpl. split_and!; apply Forall_nil; done. }
    assert (0 < length l)%nat as Hpos by (destruct l; [done|simpl; lia]).
    destruct (np_mean_unit _ U1) as (p & -> & Hp);
      [intros H0; rewrite H0 in L1; simpl in L1; lia|].
    destruct (np_mean_unit _ U2) as (r & -> & Hr);
      [intros H0; rewrite H0 in L2; simpl in L2; lia|].
    destruct (np_mean_unit _ U3) as (f & -> & Hf);
      [intros H0; rewrite H0 in L3; simpl in L3; lia|].
    by exists p, r, f.
Qed.
End TaggingMetrics.

(** ** The label tagger, continued *)

Section TaggerContract.
Import Embeddings Tagging.
Variable l2_norm : vec -> Qc.
Variable model_encode : Normalize.str -> vec.

Lemma set_set {K V : Type} `{EqDecision K} (d : list (K * V)) (k : K) (v1 v2 : V) :
  PyDict.set (PyDict.set d k v1) k v2 = PyDict.set d k v2.
Proof.
  induction d as [|[k0 v0] d IH]; simpl.
  - by rewrite decide_True.
  - destruct (decide (k0 = k)) as [->|Hne]; simpl.
    + by rewrite decide_True.
    + rewrite decide_False by done. by rewrite IH.
Qed.

(** X18. For a number of labels that is not negative [assign_labels]
    returns, and what it returns is at most that many labels, sorted by
    descending similarity, each a label of the group with a similarity of
    at least the threshold; nothing for a group it has no embeddings for;
    and, when at least one label is asked for, the first returned label
    has the largest similarity of all labels that reach the threshold. *)
Theorem assign_labels_contract
    (self : LabelTagger) (text : Normalize.str) (group_name : string)
    (top_n : Z) (threshold : Qc) :
  (0 ≤ top_n)%Z ->
  exists res,
    assign_labels l2_norm model_encode self text group_name top_n threshold
    = Ok res
    ∧ (Z.of_nat (length res) ≤ top_n)%Z
    ∧ StronglySorted (desc_by snd) res
    ∧ (forall l s,
         (l, s) ∈ res ->
         (threshold ≤ s)%Qc
         ∧ exists data,
             PyDict.get (label_embeddings self) group_name = Some data
             ∧ l ∈ labels data)
    ∧ (PyDict.get (label_embeddings self) group_name = None -> res = [])
    ∧ (forall data l s,
         PyDict.get (label_embeddings self) group_name = Some data ->
         (l, s) ∈ zip (labels data)
                    (map (dot (unit_row l2_norm
                                 (model_encode
                                    (Normalize.normalize_text text true))))
                         (map (unit_row l2_norm) (embeddings data))) ->
         (threshold ≤ s)%Qc -> (1 ≤ top_n)%Z ->
         exists l0 s0 rest, res = (l0, s0) :: rest ∧ (s ≤ s0)%Qc).
Proof.
  intros Hn.
  destruct (PyDict.get (label_embeddings self) group_name) as [data|] eqn:Hg.
  2:{ exists []. unfold assign_labels. rewrite Hg.
      split_and!; [done|simpl; lia|constructor| |done|done].
      intros l s Hin. by apply elem_of_nil in Hin. }
  rewrite (assign_labels_known l2_norm model_encode self text group_name
             top_n threshold data Hg).
  set (scores := zip (labels data) _).
  set (cands := List.filter (fun ls : Normalize.str * Qc => Qc_geb ls.2 threshold)
                  scores).
  eexists. split; [done|]. split_and!.
  - rewrite slice_to_length, bool_decide_eq_true_2 by done. lia.
  - apply slice_to_sorted, sorted_desc_sorted.
  - intros l s Hin. apply slice_to_subseteq in Hin.
    rewrite sorted_desc_perm in Hin.
    apply list_elem_of_In, List.filter_In in Hin as [Hin Hthr].
    apply bool_decide_eq_true in Hthr. split; [done|].
    exists data. split; [done|]. apply list_elem_of_In in Hin.
    by apply elem_of_zip_l in Hin.
  - done.
  - intros data' l s [= <-] Hin Hthr Hn1.
    assert ((l, s) ∈ sorted_desc snd cands) as Hs.
    { rewrite sorted_desc_perm. apply list_elem_of_In, List.filter_In.
      split; [by apply list_elem_of_In|]. by apply bool_decide_eq_true. }
    pose proof (sorted_desc_sorted snd cands) as Hsorted.
    destruct (sorted_desc snd cands) as [|[l0 s0] rest];
      [by apply elem_of_nil in Hs|].
    exists l0, s0, (take (Z.to_nat top_n - 1) rest). split.
    + unfold slice_to. rewrite bool_decide_eq_true_2 by done.
      replace (Z.to_nat top_n) with (S (Z.to_nat top_n - 1)) at 1 by lia.
      done.
    + apply elem_of_cons in Hs as [[= -> ->]|Hs]; [apply Qcle_refl|].
      apply StronglySorted_inv in Hsorted as [_ Hall].
      rewrite Forall_forall in Hall. exact (Hall (l, s) Hs).
Qed.

(** X19. [set_labels] followed by [assign_labels]: the labels returned
    for the group that was set are among the new labels, the answer for
    every other group is what it was, the group is listed with the new
    labels, and setting a group twice leaves what setting it the second
    time alone leaves. *)
Theorem set_labels_then_assign
    (self : LabelTagger) (group_name other : string)
    (labels0 labels1 : list Normalize.str) (text : Normalize.str)
    (top_n : Z) (threshold : Qc) :
  let self' := set_labels model_encode self group_name labels1 in
  (exists res,
     assign_labels l2_norm model_encode self' text group_name top_n threshold
     = Ok res
     ∧ forall l s, (l, s) ∈ res -> l ∈ labels1)
  ∧ (other ≠ group_name ->
     assign_labels l2_norm model_encode self' text other top_n threshold
     = assign_labels l2_norm model_encode self text other top_n threshold)
  ∧ PyDict.get (label_groups self') group_name = Some labels1
  ∧ set_labels model_encode
      (set_labels model_encode self group_name labels0) group_name labels1
    = self'.
Proof.
  simpl. split_and!.
  - rewrite (assign_labels_known l2_norm model_encode _ text group_name
               top_n threshold
               {| labels := labels1;
                  embeddings := encode_texts model_encode labels1 true |}).
    2:{ unfold set_labels. simpl. apply get_set_eq. }
    eexists. split; [done|]. intros l s Hin. apply slice_to_subseteq in Hin.
    rewrite sorted_desc_perm in Hin.
    apply list_elem_of_In, List.filter_In in Hin as [Hin _].
    apply list_elem_of_In in Hin. by apply elem_of_zip_l in Hin.
  - intros Hne. unfold assign_labels, set_labels. simpl.
    by rewrite get_set_ne.
  - unfold set_labels. simpl. apply get_set_eq.
  - unfold set_labels. simpl. by rewrite !set_set.
Qed.

Lemma assign_all_groups_loop self text top_n threshold (todo : list string)
    (acc : list (string * list (Normalize.str * Qc))) :
  NoDup (PyDict.keys acc ++ todo) ->
  exists res,
    rfold
      (fun results group_name =>
         r <-r assign_labels l2_norm model_encode self text group_name top_n
                 threshold ;;
         Ok (PyDict.set results group_name r))
      todo acc = Ok res
    ∧ PyDict.keys res = PyDict.keys acc ++ todo
    ∧ (forall g, g ∈ PyDict.keys acc -> PyDict.get res g = PyDict.get acc g)
    ∧ (forall g, g ∈ todo ->
         exists r,
           assign_labels l2_norm model_encode self text g top_n threshold
           = Ok r
           ∧ PyDict.get res g = Some r).
Proof.
  revert acc. induction todo as [|g todo IH]; intros acc Hnd; simpl.
  - exists acc. rewrite app_nil_r. split_and!; [done|done|done|].
    intros g Hg. by apply elem_of_nil in Hg.
  - assert (exists r, assign_labels l2_norm model_encode self text g top_n
                        threshold = Ok r) as [r Hr].
    { unfold assign_labels.
      destruct (PyDict.get (label_embeddings self) g) as [data|];
        [|by eexists].
      unfold encode_texts, Normalize.normalize_batch, row,
        batch_cosine_similarity. simpl. by eexists. }
    rewrite Hr. simpl.
    assert (g ∉ PyDict.keys acc) as Hnew.
    { apply NoDup_app in Hnd as (_ & Hdisj & _). intros Hin.
      apply (Hdisj g Hin). left. }
    destruct (IH (PyDict.set acc g r)) as (res & Hrun & Hkeys & Hold & Hnew').
    { rewrite keys_set_absent by done. by rewrite <-app_assoc. }
    exists res. split_and!; [done| | |].
    + rewrite Hkeys, keys_set_absent by done. by rewrite <-app_assoc.
    + intros g' Hg'. rewrite Hold.
      * apply get_set_ne. intros ->. done.
      * rewrite keys_set_absent by done. apply elem_of_app. by left.
    + intros g' Hg'. apply elem_of_cons in Hg' as [->|Hg']; [|by apply Hnew'].
      exists r. split; [done|]. rewrite Hold.
      * apply get_set_eq.
      * rewrite keys_set_absent by done. apply elem_of_app. right.
        by apply list_elem_of_singleton.
Qed.

(** X20. On a tagger that lists no group twice, [assign_all_groups]
    returns one entry per listed group, in the order of the list, and
    the entry of a group is what [assign_labels] returns for it. *)
Theorem assign_all_groups_per_group
    (self : LabelTagger) (text : Normalize.str) (top_n : Z) (threshold : Qc) :
  NoDup (PyDict.keys (label_groups self)) ->
  exists res,
    assign_all_groups l2_norm model_encode self text top_n threshold = Ok res
    ∧ PyDict.keys res = PyDict.keys (label_groups self)
    ∧ forall g,
        g ∈ PyDict.keys (label_groups self) ->
        exists r,
          assign_labels l2_norm model_encode self text g top_n threshold
          = Ok r
          ∧ PyDict.get res g = Some r.
Proof.
  intros Hnd. unfold assign_all_groups.
  destruct (assign_all_groups_loop self text top_n threshold
              (PyDict.keys (label_groups self)) [])
    as (res & Hrun & Hkeys & _ & Hall); [done|].
  exists res. by split_and!.
Qed.
End TaggerContract.

Lemma assign_labels_contract_witness :
  exists res,
    Tagging.assign_labels Examples.sample_norm Examples.sample_encode
      Examples.sample_tagger [118; 101; 103]%Z "diet" 1 (Q2Qc (1 # 4))
    = Ok res
    ∧ (Z.of_nat (length res) ≤ 1)%Z
    ∧ StronglySorted (desc_by snd) res
    ∧ (forall l s,
         (l, s) ∈ res ->
         (Q2Qc (1 # 4) ≤ s)%Qc
         ∧ exists data,
             PyDict.get (Tagging.label_embeddings Examples.sample_tagger) "diet"
             = Some data
             ∧ l ∈ Tagging.labels data)
    ∧ (PyDict.get (Tagging.label_embeddings Examples.sample_tagger) "diet" = None ->
       res = [])
    ∧ (forall data l s,
         PyDict.get (Tagging.label_embeddings Examples.sample_tagger) "diet"
         = Some data ->
         (l, s) ∈ zip (Tagging.labels data)
                    (map (Embeddings.dot (Embeddings.unit_row Examples.sample_norm
                                 (Examples.sample_encode
                                    (Normalize.normalize_text
                                       [118; 101; 103]%Z true))))
                         (map (Embeddings.unit_row Examples.sample_norm)
                              (Tagging.embeddings data))) ->
         (Q2Qc (1 # 4) ≤ s)%Qc -> (1 ≤ 1)%Z ->
         exists l0 s0 rest, res = (l0, s0) :: rest ∧ (s ≤ s0)%Qc).
Proof.
  apply (assign_labels_contract Examples.sample_norm Examples.sample_encode
           Examples.sample_tagger [118; 101; 103]%Z
           "diet" 1 (Q2Qc (1 # 4))).
  lia.
Defined.

Lemma assign_all_groups_per_group_witness :
  exists res,
    Tagging.assign_all_groups Examples.sample_norm Examples.sample_encode
      Examples.sample_tagger [118; 101; 103]%Z 1 (Q2Qc (1 # 4)) = Ok res
    ∧ PyDict.keys res = PyDict.keys (Tagging.label_groups Examples.sample_tagger)
    ∧ forall g,
        g ∈ PyDict.keys (Tagging.label_groups Examples.sample_tagger) ->
        exists r,
          Tagging.assign_labels Examples.sample_norm Examples.sample_encode
            Examples.sample_tagger [118; 101; 103]%Z g 1 (Q2Qc (1 # 4))
          = Ok r
          ∧ PyDict.get res g = Some r.
Proof.
  apply (assign_all_groups_per_group Examples.sample_norm
           Examples.sample_encode Examples.sample_tagger).
  apply (bool_decide_unpack _). vm_compute. reflexivity.
Defined.

(** ** The recommender, continued *)

Section RecommendContract.
Import Embeddings Recommend.
Variable l2_norm : vec -> Qc.

Lemma filter_fst_NoDup {A B : Type} (f : A * B -> bool) (l : list (A * B)) :
  NoDup l.*1 -> NoDup (List.filter f l).*1.
Proof.
  induction l as [|c l IH]; csimpl; [done|].
  rewrite NoDup_cons. intros [Hnin Hnd].
  destruct (f c); csimpl; [|by apply IH].
  apply NoDup_cons. split; [|by apply IH].
  intros Hin. apply Hnin.
  apply list_elem_of_fmap in Hin as (c' & -> & Hc').
  apply list_elem_of_In, List.filter_In in Hc' as [Hc' _].
  apply list_elem_of_fmap. exists c'. split; [done|]. by apply list_elem_of_In.
Qed.

(** What both recommendation methods return: the candidates that pass a
    test, best first, cut to k. *)
Lemma ranked_candidates (f : Z * Qc -> bool) (ids : list Z) (sims : list Qc)
    (k : Z) :
  NoDup ids -> length ids = length sims -> (0 ≤ k)%Z ->
  let res := slice_to (sorted_desc snd (List.filter f (zip ids sims))) k in
  StronglySorted (desc_by snd) res
  ∧ NoDup res.*1
  ∧ (forall c, c ∈ res -> c.1 ∈ ids ∧ f c = true)
  ∧ length res
    = (Z.to_nat k `min` length (List.filter f (zip ids sims)))%nat.
Proof.
  intros Hnd Hlen Hk. simpl. split_and!.
  - apply slice_to_sorted, sorted_desc_sorted.
  - unfold slice_to. rewrite bool_decide_eq_true_2 by done. rewrite fmap_take.
    eapply sublist_NoDup; [|apply sublist_take].
    rewrite sorted_desc_perm. apply filter_fst_NoDup.
    rewrite fst_zip by lia. done.
  - intros c Hc. apply slice_to_subseteq in Hc. rewrite sorted_desc_perm in Hc.
    apply list_elem_of_In, List.filter_In in Hc as [Hc Hf].
    split; [|done]. apply list_elem_of_In in Hc. destruct c as [i s].
    by apply elem_of_zip_l in Hc.
  - rewrite slice_to_length, bool_decide_eq_true_2 by done.
    by rewrite sorted_desc_length.
Qed.

Lemma recommend_for_user_shape self user_id k exclude_items boost profile embs :
  well_formed self ->
  PyDict.get (user_profiles self) user_id = Some profile ->
  item_embeddings self = Some embs ->
  exists sims,
    length sims = length (item_ids self)
    ∧ (recommend_for_user l2_norm user_id k exclude_items boost self).1
      = Ok (slice_to
              (sorted_desc snd
                 (List.filter
                    (fun c : Z * Qc =>
                       bool_decide
                         (c.1 ∉ (list_to_set (default [] exclude_items)
                                 : gset Z)))
                    (zip (item_ids self) sims))) k).
Proof.
  intros (Hnd & Hemb & Hpop) Hp He.
  unfold recommend_for_user. unfold bind at 1. unfold gets at 1.
  unfold bind at 1. unfold gets at 1. simpl.
  rewrite Hp, He. rewrite He in Hemb.
  unfold bind at 1. unfold lift at 1. simpl.
  set (sims := map _ (map (unit_row l2_norm) embs)).
  assert (length sims = length (item_ids self)) as Hlen.
  { unfold sims. rewrite !length_map. lia. }
  assert (exists sims',
    (if Qc_ltb 0%Qc boost then
       popularity <- gets item_popularity ;;
       ids <- gets item_ids ;;
       boost_loop boost
         match popularity with
         | [] => 1
         | _ => foldr Nat.max 0 (PyDict.values popularity)
         end ids sims
     else ret sims) self = (Ok sims', self)
    ∧ length sims' = length sims) as (sims' & Hrun & Hlen').
  { destruct (Qc_ltb 0%Qc boost); [|by exists sims].
    unfold bind at 1. unfold gets at 1. unfold bind at 1. unfold gets at 1.
    apply boost_loop_ok; [by apply max_pop_positive|lia]. }
  unfold bind at 1. rewrite Hrun. unfold bind, gets, ret. simpl.
  exists sims'. split; [lia|].
  rewrite (fold_skip_append _
    (fun c : Z * Qc =>
       bool_decide (c.1 ∉ (list_to_set (default [] exclude_items) : gset Z)))
    (fun c => c)) by done.
  simpl. by rewrite map_id.
Qed.

(** X21. For a user with a profile, on a well-formed recommender and
    k >= 0, [recommend_for_user] returns the best min(k, n) of the n
    catalog items that are not excluded: sorted by descending score, no
    item twice, every item from the catalog and none of them excluded. *)
Theorem recommend_for_user_personalised
    (self : ContentBasedRecommender) (user_id : string) (k : Z)
    (exclude_items : option (list Z)) (popularity_boost : Qc) :
  well_formed self -> (0 ≤ k)%Z ->
  is_Some (PyDict.get (user_profiles self) user_id) ->
  is_Some (item_embeddings self) ->
  exists res,
    (recommend_for_user l2_norm user_id k exclude_items popularity_boost
       self).1 = Ok res
    ∧ StronglySorted (desc_by snd) res
    ∧ NoDup res.*1
    ∧ (forall i, i ∈ res.*1 ->
         i ∈ item_ids self ∧ i ∉ default [] exclude_items)
    ∧ length res
      = (Z.to_nat k
         `min` length (catalog_after_exclusions self
                         (default [] exclude_items)))%nat.
Proof.
  intros Hwf Hk [profile Hp] [embs He].
  destruct (recommend_for_user_shape self user_id k exclude_items
              popularity_boost profile embs Hwf Hp He) as (sims & Hlen & ->).
  destruct Hwf as (Hnd & _ & _).
  destruct (ranked_candidates
    (fun c : Z * Qc =>
       bool_decide (c.1 ∉ (list_to_set (default [] exclude_items) : gset Z)))
    (item_ids self) sims k Hnd ltac:(lia) Hk) as (Hsorted & Hnd' & Hmem & Hcount).
  eexists. split; [done|]. split_and!; [done|done| |].
  - intros i Hi. apply list_elem_of_fmap in Hi as (c & -> & Hc).
    destruct (Hmem c Hc) as [Hin Hex]. split; [done|].
    apply bool_decide_eq_true in Hex. by rewrite elem_of_list_to_set in Hex.
  - rewrite Hcount. f_equal.
    pose proof (filter_zip_fst_length
      (fun i => bool_decide
         (i ∉ (list_to_set (default [] exclude_items) : gset Z)))
      (item_ids self) sims ltac:(lia)) as Hf.
    simpl in Hf. rewrite Hf. unfold catalog_after_exclusions. f_equal.
    apply List.filter_ext. intros i. apply bool_decide_ext.
    by rewrite elem_of_list_to_set.
Qed.

(** X22. For an item of the catalog, on a well-formed recommender and
    k >= 0, [recommend_similar_items] returns the best min(k, n) of the n
    catalog items it may return (all of them, or all but the reference
    item): sorted by descending similarity, no item twice, every item from
    the catalog, and never the reference item when it is to be excluded. *)
Theorem recommend_similar_items_contract
    (self : ContentBasedRecommender) (item_id : Z) (k : Z)
    (exclude_self : bool) :
  well_formed self -> (0 ≤ k)%Z -> item_id ∈ item_ids self ->
  exists res,
    (recommend_similar_items l2_norm item_id k exclude_self self).1 = Ok res
    ∧ StronglySorted (desc_by snd) res
    ∧ NoDup res.*1
    ∧ (forall i, i ∈ res.*1 ->
         i ∈ item_ids self ∧ (exclude_self = true -> i ≠ item_id))
    ∧ length res
      = (Z.to_nat k
         `min` length (catalog_after_exclusions self
                         (if exclude_self then [item_id] else [])))%nat.
Proof.
  intros (Hnd & Hemb & Hpop) Hk Hin.
  unfold recommend_similar_items. unfold bind at 1. unfold gets at 1.
  unfold bind at 1. unfold gets at 1. simpl.
  destruct (item_embeddings self) as [embs|] eqn:He.
  2:{ rewrite Hemb in Hin. by apply elem_of_nil in Hin. }
  rewrite bool_decide_eq_true_2 by done.
  assert (exists e, embs !! index_of item_id (item_ids self) = Some e)
    as [e Hrow].
  { apply lookup_lt_is_Some_2. rewrite Hemb. clear -Hin.
    induction (item_ids self) as [|y l IH]; simpl.
    - by apply elem_of_nil in Hin.
    - destruct (decide (y = item_id)); [lia|].
      apply elem_of_cons in Hin as [?|Hin]; [congruence|].
      specialize (IH Hin). lia. }
  unfold bind at 1. unfold lift at 1, row at 1. rewrite Hrow.
  unfold bind, lift, ret. simpl.
  set (sims := map _ (map (unit_row l2_norm) embs)).
  assert (length (item_ids self) = length sims) as Hlen.
  { unfold sims. rewrite !length_map. lia. }
  rewrite (fold_skip_append _
    (fun c : Z * Qc => negb (exclude_self && bool_decide (c.1 = item_id)))
    (fun c => c)).
  2:{ intros acc c. by destruct (exclude_self && _). }
  rewrite map_id.
  destruct (ranked_candidates
    (fun c : Z * Qc => negb (exclude_self && bool_decide (c.1 = item_id)))
    (item_ids self) sims k Hnd Hlen Hk) as (Hsorted & Hnd' & Hmem & Hcount).
  eexists. split; [done|]. split_and!; [done|done| |].
  - intros i Hi. apply list_elem_of_fmap in Hi as (c & -> & Hc).
    destruct (Hmem c Hc) as [Hc1 Hf]. split; [done|].
    intros Hex Heq. rewrite Hex in Hf. simpl in Hf.
    by rewrite bool_decide_eq_true_2 in Hf.
  - eapply eq_trans; [exact Hcount|]. f_equal.
    pose proof (filter_zip_fst_length
      (fun i => negb (exclude_self && bool_decide (i = item_id)))
      (item_ids self) sims ltac:(lia)) as Hf.
    simpl in Hf. rewrite Hf. unfold catalog_after_exclusions. f_equal.
    apply List.filter_ext. intros i. destruct exclude_self; simpl; [|done].
    destruct (decide (i = item_id)) as [->|Hne].
    + rewrite bool_decide_eq_true_2, bool_decide_eq_false_2; [done| |done].
      intros Hn. apply Hn. by apply list_elem_of_singleton.
    + rewrite bool_decide_eq_false_2, bool_decide_eq_true_2; [done| |done].
      by rewrite list_elem_of_singleton.
Qed.

Lemma popular_loop_entries (P : Z * Qc -> Prop) popular exclude_set k results :
  (forall item_id count,
     (item_id, count) ∈ popular -> item_id ∉ exclude_set ->
     P (item_id, Qc_of_nat count)) ->
  Forall P results -> Forall P (popular_loop popular exclude_set k results).
Proof.
  revert results. induction popular as [|[item_id count] popular IH];
    intros results Hnew Hres; simpl; [done|].
  assert (forall i c, (i, c) ∈ popular -> i ∉ exclude_set -> P (i, Qc_of_nat c))
    as Hnew' by (intros i c Hic; apply Hnew; by right).
  case_bool_decide as Hex; [|by apply IH].
  assert (Forall P (results ++ [(item_id, Qc_of_nat count)])) as Hres'.
  { apply Forall_app. split; [done|]. apply Forall_singleton.
    apply Hnew; [left|done]. }
  case_bool_decide; [done|by apply IH].
Qed.

Lemma padding_loop_entries (P : Z * Qc -> Prop) ids exclude_set k results :
  (forall item_id,
     item_id ∈ ids -> item_id ∉ exclude_set -> P (item_id, 0%Qc)) ->
  Forall P results -> Forall P (padding_loop ids exclude_set k results).
Proof.
  revert results. induction ids as [|item_id ids IH];
    intros results Hnew Hres; simpl; [done|].
  assert (forall i, i ∈ ids -> i ∉ exclude_set -> P (i, 0%Qc))
    as Hnew' by (intros i Hi; apply Hnew; by right).
  destruct (bool_decide (item_id ∉ exclude_set)
            && bool_decide (item_id ∉ results.*1)) eqn:Hc; [|by apply IH].
  apply andb_true_iff in Hc as [Hex _]. apply bool_decide_eq_true in Hex.
  assert (Forall P (results ++ [(item_id, 0%Qc)])) as Hres'.
  { apply Forall_app. split; [done|]. apply Forall_singleton.
    apply Hnew; [left|done]. }
  case_bool_decide; [done|by apply IH].
Qed.

(** X23. The popularity fallback always returns, and never an excluded
    item: every entry is an item with its recorded popularity count as
    score, or a catalog item with score 0. [recommend_for_user] is this
    fallback for a user without a profile and for a recommender without
    a catalog. *)
Theorem recommend_popular_entries
    (self : ContentBasedRecommender) (user_id : string) (k : Z)
    (exclude_items : option (list Z)) (popularity_boost : Qc) :
  (exists res,
     (_recommend_popular k exclude_items self).1 = Ok res
     ∧ forall i s,
         (i, s) ∈ res ->
         i ∉ default [] exclude_items
         ∧ ((exists count,
               (i, count) ∈ item_popularity self ∧ s = Qc_of_nat count)
            ∨ (i ∈ item_ids self ∧ s = 0%Qc)))
  ∧ (PyDict.get (user_profiles self) user_id = None
     ∨ item_embeddings self = None ->
     recommend_for_user l2_norm user_id k exclude_items popularity_boost self
     = _recommend_popular k exclude_items self).
Proof.
  split.
  - unfold _recommend_popular, bind, gets, ret. simpl.
    set (ex := list_to_set (default [] exclude_items) : gset Z).
    set (P := fun c : Z * Qc =>
                c.1 ∉ default [] exclude_items
                ∧ ((exists count,
                      (c.1, count) ∈ item_popularity self
                      ∧ c.2 = Qc_of_nat count)
                   ∨ (c.1 ∈ item_ids self ∧ c.2 = 0%Qc))).
    set (popular := sorted_desc (fun x : Z * nat => Qc_of_nat x.2)
                      (item_popularity self)).
    assert (Forall P (popular_loop popular ex k [])) as Hpop.
    { apply popular_loop_entries; [|by apply Forall_nil].
      intros i c Hic Hex. split; simpl.
      - unfold ex in Hex. by rewrite elem_of_list_to_set in Hex.
      - left. exists c. split; [|done]. unfold popular in Hic.
        by rewrite sorted_desc_perm in Hic. }
    assert (Forall P (padding_loop (item_ids self) ex k
                        (popular_loop popular ex k []))) as Hpad.
    { apply padding_loop_entries; [|done].
      intros i Hi Hex. split; simpl.
      - unfold ex in Hex. by rewrite elem_of_list_to_set in Hex.
      - by right. }
    destruct (_ && _); simpl; eexists; (split; [done|]); intros i s Hin.
    + rewrite Forall_forall in Hpad. exact (Hpad (i, s) Hin).
    + rewrite Forall_forall in Hpop. exact (Hpop (i, s) Hin).
  - intros Hcase. unfold recommend_for_user.
    unfold bind at 1. unfold gets at 1. unfold bind at 1. unfold gets at 1.
    simpl. destruct Hcase as [-> | ->]; [done|].
    by destruct (PyDict.get (user_profiles self) user_id).
Qed.

Lemma index_of_lt (x : Z) (l : list Z) : x ∈ l -> index_of x l < length l.
Proof.
  intros Hin. induction l as [|y l IH]; simpl.
  - by apply elem_of_nil in Hin.
  - destruct (decide (y = x)); [lia|].
    apply elem_of_cons in Hin as [?|Hin]; [congruence|].
    specialize (IH Hin). lia.
Qed.

Lemma values_set_Forall {K V : Type} `{EqDecision K} (P : V -> Prop)
    (d : list (K * V)) (k : K) (v : V) :
  Forall P (PyDict.values d) -> P v -> Forall P (PyDict.values (PyDict.set d k v)).
Proof.
  intros Hall Hv. apply Forall_forall. intros v' Hin.
  apply list_elem_of_fmap in Hin as ([k' v''] & -> & Hin).
  apply elem_of_set in Hin as [[_ ->]|Hin]; [done|].
  rewrite Forall_forall in Hall. apply Hall.
  apply list_elem_of_fmap. by exists (k', v'').
Qed.

(** The loop of [update_user_profile] over the interacted items. *)
Lemma update_loop self embs (l : list Z) (acc : list vec) :
  well_formed self -> item_embeddings self = Some embs ->
  exists acc' self',
    mfold
      (fun interacted_embeddings item_id =>
         ids <- gets item_ids ;;
         if bool_decide (item_id ∈ ids) then
           embeddings <- gets item_embeddings ;;
           e <- lift (row (default [] embeddings) (index_of item_id ids)) ;;
           _ <- popularity_incr item_id ;;
           ret (interacted_embeddings ++ [e])
         else ret interacted_embeddings)
      l acc self = (Ok acc', self')
    ∧ well_formed self'
    ∧ item_ids self' = item_ids self
    ∧ item_embeddings self' = Some embs
    ∧ user_profiles self' = user_profiles self
    ∧ (forall i,
         default 0 (PyDict.get (item_popularity self') i)
         = default 0 (PyDict.get (item_popularity self) i)
           + (if bool_decide (i ∈ item_ids self)
              then length (List.filter (fun j => bool_decide (j = i)) l)
              else 0))
    ∧ length acc'
      = length acc
        + length (List.filter (fun j => bool_decide (j ∈ item_ids self)) l)
    ∧ ((forall i, i ∈ l -> i ∉ item_ids self) -> self' = self).
Proof.
  revert acc self. induction l as [|x l IH]; intros acc self Hwf He.
  - exists acc, self. simpl. unfold ret.
    split_and!; try done; try (simpl; lia).
    intros i. case_bool_decide; simpl; lia.
  - cbn [mfold]. unfold bind at 1. unfold bind at 1. unfold gets at 1.
    destruct (decide (x ∈ item_ids self)) as [Hin|Hnin].
    + rewrite bool_decide_eq_true_2 by done.
      unfold bind at 1. unfold gets at 1. rewrite He. simpl.
      destruct Hwf as (Hnd & Hemb & Hpop). rewrite He in Hemb.
      assert (exists e, embs !! index_of x (item_ids self) = Some e) as [e Hrow].
      { apply lookup_lt_is_Some_2. rewrite Hemb. by apply index_of_lt. }
      unfold bind at 1. unfold lift at 1, row at 1. rewrite Hrow.
      unfold bind at 1. unfold popularity_incr, modify. unfold ret at 1.
      set (self1 := {| item_ids := item_ids self;
                       item_embeddings := item_embeddings self;
                       user_profiles := user_profiles self;
                       item_popularity :=
                         PyDict.set (item_popularity self) x
                           (default 0 (PyDict.get (item_popularity self) x) + 1)
                    |}).
      destruct (IH (acc ++ [e]) self1)
        as (acc' & self' & Hrun & Hwf' & Hids & Hembs & Hprof & Hcount & Hlen & _).
      { unfold self1, well_formed. simpl. rewrite He.
        split_and!; [done|done|]. apply values_set_Forall; [done|lia]. }
      { done. }
      exists acc', self'. split; [exact Hrun|].
      split_and!; [done|done|done|done| | |].
      * intros i. rewrite Hcount. unfold self1. simpl.
        destruct (decide (x = i)) as [->|Hne].
        -- rewrite get_set_eq. simpl.
           rewrite !(bool_decide_eq_true_2 (i ∈ item_ids self)) by done.
           rewrite (bool_decide_eq_true_2 (i = i)) by done. simpl. lia.
        -- rewrite get_set_ne by done.
           rewrite (bool_decide_eq_false_2 (x = i)) by done. done.
      * rewrite Hlen, length_app. simpl.
        rewrite (bool_decide_eq_true_2 (x ∈ item_ids self)) by done.
        simpl. lia.
      * intros Hall. exfalso. apply (Hall x); [left|done].
    + rewrite bool_decide_eq_false_2 by done. unfold ret at 1.
      destruct (IH acc self Hwf He)
        as (acc' & self' & Hrun & Hwf' & Hids & Hembs & Hprof & Hcount & Hlen
            & Hsame).
      exists acc', self'. split; [exact Hrun|].
      split_and!; [done|done|done|done| | |].
      * intros i. rewrite Hcount. simpl.
        destruct (decide (x = i)) as [->|Hne].
        -- by rewrite !(bool_decide_eq_false_2 (i ∈ item_ids self)) by done.
        -- by rewrite (bool_decide_eq_false_2 (x = i)) by done.
      * rewrite Hlen. simpl.
        by rewrite (bool_decide_eq_false_2 (x ∈ item_ids self)) by done.
      * intros Hall. apply Hsame. intros i Hi. apply Hall. by right.
Qed.

(** X24. On a well-formed recommender [update_user_profile] returns and
    leaves a well-formed recommender with the same catalog and the same
    profiles of the other users; the popularity count of every catalog
    item grows by the number of times it occurs among the interacted
    items, and no other count changes. When none of the interacted items
    is in the catalog nothing changes at all; when one is, the user has a
    profile afterwards. *)
Theorem update_user_profile_effect
    (self : ContentBasedRecommender) (user_id : string)
    (interacted_item_ids : list Z) :
  well_formed self ->
  exists self',
    update_user_profile l2_norm user_id interacted_item_ids self
    = (Ok tt, self')
    ∧ well_formed self'
    ∧ item_ids self' = item_ids self
    ∧ item_embeddings self' = item_embeddings self
    ∧ (forall u, u ≠ user_id ->
         PyDict.get (user_profiles self') u = PyDict.get (user_profiles self) u)
    ∧ (forall i,
         default 0 (PyDict.get (item_popularity self') i)
         = default 0 (PyDict.get (item_popularity self) i)
           + (if bool_decide (i ∈ item_ids self)
              then length (List.filter (fun j => bool_decide (j = i))
                             interacted_item_ids)
              else 0))
    ∧ ((forall i, i ∈ interacted_item_ids -> i ∉ item_ids self) ->
       self' = self)
    ∧ ((exists i, i ∈ interacted_item_ids ∧ i ∈ item_ids self) ->
       is_Some (PyDict.get (user_profiles self') user_id)).
Proof.
  intros Hwf. unfold update_user_profile. unfold bind at 1. unfold gets at 1.
  destruct (item_embeddings self) as [embs|] eqn:He.
  2:{ exists self. unfold ret.
      destruct Hwf as (Hnd & Hemb & Hpop). rewrite He in Hemb.
      split_and!; try done.
      - unfold well_formed. by rewrite He.
      - intros i. rewrite Hemb. rewrite bool_decide_eq_false_2; [lia|].
        apply not_elem_of_nil.
      - intros (i & _ & Hi). rewrite Hemb in Hi. by apply elem_of_nil in Hi. }
  destruct (update_loop self embs interacted_item_ids [] Hwf He)
    as (acc' & self1 & Hrun & Hwf1 & Hids & Hembs & Hprof & Hcount & Hlen
        & Hsame).
  unfold bind at 1. rewrite Hrun.
  destruct acc' as [|e acc'].
  - exists self1. unfold ret.
    split_and!; [done|done|done|congruence|by rewrite Hprof|done|done|].
    intros (i & Hi & Hin). exfalso. simpl in Hlen.
    assert (i ∈ List.filter (fun j => bool_decide (j ∈ item_ids self))
                  interacted_item_ids) as Hf.
    { apply list_elem_of_In, List.filter_In. split; [by apply list_elem_of_In|].
      by apply bool_decide_eq_true. }
    destruct (List.filter _ interacted_item_ids); [|done].
    by apply elem_of_nil in Hf.
  - unfold modify. eexists. split; [done|].
    destruct Hwf1 as (Hnd1 & Hemb1 & Hpop1).
    split_and!; simpl; [done|done|congruence| |done| |].
    + intros u Hu. rewrite get_set_ne by done. by rewrite Hprof.
    + intros Hall. exfalso. simpl in Hlen.
      assert (List.filter (fun j => bool_decide (j ∈ item_ids self))
                interacted_item_ids = []) as Hnil; [|by rewrite Hnil in Hlen].
      clear -Hall. induction interacted_item_ids as [|x l IH]; [done|]. simpl.
      rewrite bool_decide_eq_false_2 by (apply Hall; left).
      apply IH. intros i Hi. apply Hall. by right.
    + intros _. rewrite get_set_eq. by eexists.
Qed.
End RecommendContract.

Lemma recommend_for_user_personalised_witness :
  exists res,
    (Recommend.recommend_for_user Examples.sample_norm "u1" 1 (Some [2%Z])
       (Q2Qc (1 # 10)) Examples.catalog_with_history).1 = Ok res
    ∧ StronglySorted (desc_by snd) res
    ∧ NoDup res.*1
    ∧ (forall i, i ∈ res.*1 ->
         i ∈ Recommend.item_ids Examples.catalog_with_history
         ∧ i ∉ default [] (Some [2%Z]))
    ∧ length res
      = (Z.to_nat 1
         `min` length (Recommend.catalog_after_exclusions
                         Examples.catalog_with_history
                         (default [] (Some [2%Z]))))%nat.
Proof.
  apply (recommend_for_user_personalised Examples.sample_norm
           Examples.catalog_with_history "u1" 1 (Some [2%Z]) (Q2Qc (1 # 10))).
  - apply catalog_with_history_well_formed.
  - lia.
  - vm_compute. by eexists.
  - vm_compute. by eexists.
Defined.

Lemma recommend_similar_items_contract_witness :
  exists res,
    (Recommend.recommend_similar_items Examples.sample_norm 1 5 true
       Examples.catalog_with_history).1 = Ok res
    ∧ StronglySorted (desc_by snd) res
    ∧ NoDup res.*1
    ∧ (forall i, i ∈ res.*1 ->
         i ∈ Recommend.item_ids Examples.catalog_with_history
         ∧ (true = true -> i ≠ 1%Z))
    ∧ length res
      = (Z.to_nat 5
         `min` length (Recommend.catalog_after_exclusions
                         Examples.catalog_with_history
                         (if true then [1%Z] else [])))%nat.
Proof.
  apply (recommend_similar_items_contract Examples.sample_norm
           Examples.catalog_with_history 1 5 true).
  - apply catalog_with_history_well_formed.
  - lia.
  - apply (bool_decide_unpack _). vm_compute. reflexivity.
Defined.

Lemma update_user_profile_effect_witness :
  exists self',
    Recommend.update_user_profile Examples.sample_norm "u2" [2; 7; 2]%Z
      Examples.catalog_with_history
    = (Ok tt, self')
    ∧ Recommend.well_formed self'
    ∧ Recommend.item_ids self'
      = Recommend.item_ids Examples.catalog_with_history
    ∧ Recommend.item_embeddings self'
      = Recommend.item_embeddings Examples.catalog_with_history
    ∧ (forall u, u ≠ "u2" ->
         PyDict.get (Recommend.user_profiles self') u
         = PyDict.get (Recommend.user_profiles Examples.catalog_with_history) u)
    ∧ (forall i,
         default 0 (PyDict.get (Recommend.item_popularity self') i)
         = default 0
             (PyDict.get
                (Recommend.item_popularity Examples.catalog_with_history) i)
           + (if bool_decide
                   (i ∈ Recommend.item_ids Examples.catalog_with_history)
              then length (List.filter (fun j => bool_decide (j = i))
                             [2; 7; 2]%Z)
              else 0))
    ∧ ((forall i, i ∈ [2; 7; 2]%Z ->
          i ∉ Recommend.item_ids Examples.catalog_with_history) ->
       self' = Examples.catalog_with_history)
    ∧ ((exists i, i ∈ [2; 7; 2]%Z
                  ∧ i ∈ Recommend.item_ids Examples.catalog_with_history) ->
       is_Some (PyDict.get (Recommend.user_profiles self') "u2")).
Proof.
  apply (update_user_profile_effect Examples.sample_norm
           Examples.catalog_with_history "u2" [2; 7; 2]%Z).
  apply catalog_with_history_well_formed.
Defined.

(** ** The normalizer, continued *)

Section NormalizeContract.
Import Normalize.
Local Open Scope Z_scope.
Implicit Types (c : Z) (s : str).




End NormalizeContract.

(** ** Similarities *)

Section Similarities.
Import Embeddings.
Variable l2_norm : vec -> Qc.

Lemma dot_comm (a b : vec) : dot a b = dot b a.
Proof.
  unfold dot. f_equal. revert b.
  induction a as [|x a IH]; intros [|y b]; simpl; [done..|].
  by rewrite IH, Qcmult_comm.
Qed.

(** X27. [batch_cosine_similarity] returns one row per query with one
    entry per document, the entry at [i, j] being the product of the
    scaled query [i] and the scaled document [j]; and the matrix of a set
    of rows against itself is symmetric, also in where it has no entry. *)
Theorem batch_cosine_similarity_shape_and_symmetry
    (queries docs rows : list vec) (i j : nat) :
  length (batch_cosine_similarity l2_norm queries docs) = length queries
  ∧ Forall (fun r => length r = length docs)
      (batch_cosine_similarity l2_norm queries docs)
  ∧ entry (batch_cosine_similarity l2_norm queries docs) i j
    = match queries !! i, docs !! j with
      | Some q, Some d => Ok (dot (unit_row l2_norm q) (unit_row l2_norm d))
      | _, _ => Raise IndexError
      end
  ∧ entry (batch_cosine_similarity l2_norm rows rows) i j
    = entry (batch_cosine_similarity l2_norm rows rows) j i.
Proof.
  assert (forall qs ds a b,
    entry (batch_cosine_similarity l2_norm qs ds) a b
    = match qs !! a, ds !! b with
      | Some q, Some d => Ok (dot (unit_row l2_norm q) (unit_row l2_norm d))
      | _, _ => Raise IndexError
      end) as Hentry.
  { intros qs ds a b. unfold entry, row, batch_cosine_similarity.
    rewrite !list_lookup_fmap.
    destruct (qs !! a) as [q|]; simpl; [|done].
    rewrite !list_lookup_fmap. by destruct (ds !! b). }
  split_and!.
  - unfold batch_cosine_similarity. by rewrite !length_map.
  - unfold batch_cosine_similarity. apply Forall_forall. intros r Hr.
    apply list_elem_of_fmap in Hr as (q & -> & _). by rewrite !length_map.
  - apply Hentry.
  - rewrite !Hentry.
    destruct (rows !! i) as [ri|], (rows !! j) as [rj|]; try done.
    by rewrite dot_comm.
Qed.
End Similarities.

(** ** [get_clusters] *)

Section ClustersByRoot.
Import Dedup.

(** X28. On a well-formed structure [get_clusters] returns one cluster
    per root, under the root as key: the members of a cluster are exactly
    the nodes that reach its key, no cluster is empty, and the clusters
    together hold every node once. *)
Theorem get_clusters_by_root (uf : UnionFind) :
  wf uf ->
  exists uf' cl,
    get_clusters uf = Ok (uf', cl)
    ∧ NoDup (PyDict.keys cl)
    ∧ concat (PyDict.values cl) ≡ₚ PyDict.keys (parent uf)
    ∧ forall r items,
        (r, items) ∈ cl ->
        items ≠ [] ∧ forall x, x ∈ items <-> root_of (parent uf) x r.
Proof.
  intros Hwf.
  destruct (get_clusters_total uf Hwf) as (uf' & cl & Hrun & Hnd & Hperm & Hcl).
  exists uf', cl. split_and!; [done|done|done|].
  assert (Forall (fun c : Z * list Z => c.2 ≠ []) cl) as Hne.
  { unfold get_clusters in Hrun.
    pose proof (rfold_invariant
      (fun sc : UnionFind * list (Z * list Z) =>
         Forall (fun c : Z * list Z => c.2 ≠ []) sc.2)
      (fun (sc : UnionFind * list (Z * list Z)) item =>
         sr <-r find sc.1 item ;; Ok (sr.1, dd_append sc.2 sr.2 item))
      (PyDict.keys (parent uf))) as Hinv.
    apply (Hinv) in Hrun; [done| |by apply Forall_nil].
    intros sc item sc' _ Hall.
    destruct (find sc.1 item) as [sr|e]; simpl; [|done].
    intros [= <-]. simpl. apply Forall_forall. intros [r items] Hin.
    apply dd_append_elem in Hin as [[-> ->]|Hin]; simpl.
    - intros Hnil. by apply app_eq_nil in Hnil as [_ ?].
    - rewrite Forall_forall in Hall. exact (Hall (r, items) Hin). }
  intros r items Hin. split.
  - rewrite Forall_forall in Hne. exact (Hne (r, items) Hin).
  - intros x. split; [by apply (Hcl r items)|].
    intros Hx. pose proof (root_of_present _ _ _ Hx) as Hk.
    rewrite <-Hperm in Hk.
    apply elem_concat_values in Hk as ([r' items'] & Hc & Hx'). simpl in Hx'.
    pose proof (root_of_fun _ _ _ _ (Hcl r' items' Hc x Hx') Hx) as ->.
    pose proof (elem_get_NoDup _ _ _ Hnd Hc) as Hg.
    pose proof (elem_get_NoDup _ _ _ Hnd Hin) as Hg'.
    rewrite Hg in Hg'. by injection Hg' as ->.
Qed.

Lemma get_clusters_by_root_witness :
  exists uf' cl,
    get_clusters Examples.two_singletons = Ok (uf', cl)
    ∧ NoDup (PyDict.keys cl)
    ∧ concat (PyDict.values cl)
      ≡ₚ PyDict.keys (parent Examples.two_singletons)
    ∧ forall r items,
        (r, items) ∈ cl ->
        items ≠ []
        ∧ forall x, x ∈ items <-> root_of (parent Examples.two_singletons) x r.
Proof. apply get_clusters_by_root, wf_two_singletons. Defined.
End ClustersByRoot.

(** ** Similar pairs inside a block *)

Section BlockedPairs.
Import Embeddings Dedup.
Variable l2_norm : vec -> Qc.

Lemma entry_batch (qs ds : list vec) (a b : nat) :
  entry (batch_cosine_similarity l2_norm qs ds) a b
  = match qs !! a, ds !! b with
    | Some q, Some d => Ok (dot (unit_row l2_norm q) (unit_row l2_norm d))
    | _, _ => Raise IndexError
    end.
Proof.
  unfold entry, row, batch_cosine_similarity. rewrite !list_lookup_fmap.
  destruct (qs !! a) as [q|]; simpl; [|done].
  rewrite !list_lookup_fmap. by destruct (ds !! b).
Qed.

Lemma groups_fold_keeps (l : list (nat * (Z * string)))
    (groups : list (string * list (nat * Z))) key items v :
  PyDict.get groups key = Some items -> v ∈ items ->
  exists items',
    PyDict.get
      (fold_left
         (fun groups (iib : nat * (Z * string)) =>
            dd_append groups iib.2.2 (iib.1, iib.2.1))
         l groups) key = Some items'
    ∧ v ∈ items'.
Proof.
  revert groups items. induction l as [|x l IH]; intros groups items Hg Hv; simpl.
  - by exists items.
  - destruct x as [i0 [a0 b0]]. simpl.
    destruct (decide (b0 = key)) as [->|Hne].
    + eapply IH.
      * unfold dd_append. apply get_set_eq.
      * rewrite Hg. simpl. apply elem_of_app. by left.
    + eapply IH; [|exact Hv]. unfold dd_append. by rewrite get_set_ne.
Qed.

Lemma block_groups_member item_ids blocks i a key :
  item_ids !! i = Some a -> blocks !! i = Some key ->
  exists items,
    (key, items) ∈ block_groups item_ids blocks ∧ (i, a) ∈ items.
Proof.
  intros Ha Hb. unfold block_groups.
  assert ((i, (a, key)) ∈ imap pair (zip item_ids blocks)) as Hin.
  { apply elem_of_lookup_imap. exists i, (a, key). split; [done|].
    apply lookup_zip_with_Some. by exists a, key. }
  revert Hin. generalize (imap pair (zip item_ids blocks)).
  generalize ([] : list (string * list (nat * Z))).
  intros groups l. revert groups. induction l as [|x l IH]; intros groups Hin.
  - by apply elem_of_nil in Hin.
  - simpl. apply elem_of_cons in Hin as [<-|Hin]; [|by apply IH].
    simpl.
    destruct (groups_fold_keeps l (dd_append groups key (i, a)) key
                (default [] (PyDict.get groups key) ++ [(i, a)]) (i, a))
      as (items & Hg & Hv).
    + apply get_set_eq.
    + apply elem_of_app. right. by apply list_elem_of_singleton.
    + exists items. split; [by apply get_Some_elem|done].
Qed.

Lemma take_rows_lookup (embeddings : list vec) (indices : list nat) rows p i :
  take_rows embeddings indices = Ok rows -> indices !! p = Some i ->
  rows !! p = embeddings !! i ∧ is_Some (embeddings !! i).
Proof.
  revert rows p. induction indices as [|i0 indices IH]; intros rows p; simpl.
  - intros _ Hp. done.
  - unfold row. destruct (embeddings !! i0) as [r|] eqn:Hr; simpl; [|done].
    destruct (take_rows embeddings indices) as [rs|e]; simpl; [|done].
    intros [= <-] Hp. destruct p as [|p]; simpl in *.
    + injection Hp as <-. rewrite Hr. split; [done|by eexists].
    + by apply IH.
Qed.

Lemma union_similar_keeps sim ids n thr uf uf' :
  wf uf -> union_similar sim ids n thr uf = Ok uf' ->
  wf uf' ∧ forall z w, same_class uf z w -> same_class uf' z w.
Proof.
  intros Hwf Hrun. unfold union_similar in Hrun.
  assert (wf uf') as Hwf'.
  { revert Hrun. apply (rfold_invariant wf); [|done].
    intros u ij u' _ Hu. by apply union_step_wf. }
  split; [done|]. intros z w Hzw.
  destruct (index_pairs n) as [|ij0 l] eqn:Hl.
  - simpl in Hrun. by injection Hrun as <-.
  - revert Hrun.
    apply (rfold_invariant (fun u => wf u ∧ same_class u z w)
             (union_step sim ids thr) (ij0 :: l)
             ltac:(intros u ij u' _ [Hu Hq] Hstep; split;
                   [by eapply union_step_wf|by eapply union_step_keeps])
             uf uf' (conj Hwf Hzw)).
Qed.

Lemma union_similar_joins sim ids n thr uf uf' p q a b s :
  wf uf -> p < q < n -> entry sim p q = Ok s -> (thr ≤ s)%Qc ->
  ids !! p = Some a -> ids !! q = Some b ->
  union_similar sim ids n thr uf = Ok uf' -> same_class uf' a b.
Proof.
  intros Hwf Hpq Hs Hthr Ha Hb Hrun. unfold union_similar in Hrun.
  revert Hrun. apply (rfold_established wf (fun u => same_class u a b)
                        _ _ (p, q)); [| | | |done].
  - by apply index_pairs_elem.
  - intros u ij u' _ Hu. by apply union_step_wf.
  - intros u ij u' _ Hu Hq Hstep. by eapply union_step_keeps.
  - intros u u' Hu Hstep. by eapply union_step_joins.
Qed.

Lemma block_step_keeps embeddings thr uf block_items uf' :
  wf uf -> block_step l2_norm embeddings thr uf block_items = Ok uf' ->
  wf uf' ∧ forall z w, same_class uf z w -> same_class uf' z w.
Proof.
  intros Hwf. unfold block_step. case_bool_decide; [by intros [= <-]|].
  destruct (take_rows embeddings block_items.*1) as [rows|e]; simpl; [|done].
  by apply union_similar_keeps.
Qed.

Lemma block_step_joins embeddings thr uf block_items uf' i j a b s :
  wf uf -> i ≠ j -> (i, a) ∈ block_items -> (j, b) ∈ block_items ->
  entry (batch_cosine_similarity l2_norm embeddings embeddings) i j = Ok s ->
  (thr ≤ s)%Qc ->
  block_step l2_norm embeddings thr uf block_items = Ok uf' ->
  same_class uf' a b.
Proof.
  intros Hwf Hij Hia Hjb Hs Hthr. unfold block_step.
  apply list_elem_of_lookup_1 in Hia as [p Hp].
  apply list_elem_of_lookup_1 in Hjb as [q Hq].
  assert (p ≠ q) as Hpq by (intros ->; congruence).
  pose proof (lookup_lt_Some _ _ _ Hp) as Hlp.
  pose proof (lookup_lt_Some _ _ _ Hq) as Hlq.
  rewrite bool_decide_eq_false_2 by lia.
  destruct (take_rows embeddings block_items.*1) as [rows|e] eqn:Hrows;
    simpl; [|done].
  assert (block_items.*1 !! p = Some i) as Hip
    by (by rewrite list_lookup_fmap, Hp).
  assert (block_items.*1 !! q = Some j) as Hjq
    by (by rewrite list_lookup_fmap, Hq).
  assert (block_items.*2 !! p = Some a) as Hap
    by (by rewrite list_lookup_fmap, Hp).
  assert (block_items.*2 !! q = Some b) as Hbq
    by (by rewrite list_lookup_fmap, Hq).
  destruct (take_rows_lookup _ _ _ _ _ Hrows Hip) as [Hrp [ei Hei]].
  destruct (take_rows_lookup _ _ _ _ _ Hrows Hjq) as [Hrq [ej Hej]].
  rewrite entry_batch, Hei, Hej in Hs. injection Hs as Hs.
  rewrite length_fmap. intros Hrun.
  destruct (decide (p < q)) as [Hlt|Hge].
  - apply (union_similar_joins _ _ _ _ _ _ p q a b s Hwf) in Hrun;
      [done|lia| |done|done|done].
    by rewrite entry_batch, Hrp, Hrq, Hei, Hej, Hs.
  - apply same_class_sym.
    apply (union_similar_joins _ _ _ _ _ _ q p b a s Hwf) in Hrun;
      [done|lia| |done|done|done].
    by rewrite entry_batch, Hrp, Hrq, Hei, Hej, dot_comm, Hs.
Qed.

Lemma same_class_clustered uf a b uf' cl :
  wf uf -> same_class uf a b -> a ≠ b -> get_clusters uf = Ok (uf', cl) ->
  exists cid items,
    (cid, items) ∈ List.filter
                     (fun c : Z * list Z => bool_decide (1 < length c.2)) cl
    ∧ a ∈ items ∧ b ∈ items.
Proof.
  intros Hwf (r & Hra & Hrb) Hab Hrun.
  destruct (get_clusters_total uf Hwf) as (uf2 & cl2 & Hrun2 & Hnd & Hperm & Hcl).
  rewrite Hrun in Hrun2. injection Hrun2 as <- <-.
  assert (forall x, root_of (parent uf) x r ->
            exists items, (r, items) ∈ cl ∧ x ∈ items) as Hfind.
  { intros x Hx. pose proof (root_of_present _ _ _ Hx) as Hin.
    rewrite <-Hperm in Hin.
    apply elem_concat_values in Hin as ([r' items] & Hc & Hin). simpl in Hin.
    pose proof (root_of_fun _ _ _ _ (Hcl r' items Hc x Hin) Hx) as ->.
    by exists items. }
  destruct (Hfind a Hra) as (items & Hc & Hina).
  destruct (Hfind b Hrb) as (items' & Hc' & Hinb).
  pose proof (elem_get_NoDup _ _ _ Hnd Hc) as Hg.
  pose proof (elem_get_NoDup _ _ _ Hnd Hc') as Hg'.
  rewrite Hg in Hg'. injection Hg' as <-.
  exists r, items. split_and!; [|done|done].
  apply list_elem_of_In, List.filter_In. split; [by apply list_elem_of_In|].
  apply bool_decide_eq_true. simpl. exact (two_members items a b Hina Hinb Hab).
Qed.

(** X29. With blocking keys, two different identifiers that have the
    same key and whose rows have a cosine similarity of at least the
    threshold are members of one returned cluster: blocking loses no
    similar pair inside a block. *)
Theorem similar_pair_in_block_clustered
    (item_ids : list Z) (embeddings : list vec) (sim_threshold : Qc)
    (blocks : list string) (i j : nat) (a b : Z) (key : string) (s : Qc)
    (res : list (Z * list Z)) :
  i ≠ j -> item_ids !! i = Some a -> item_ids !! j = Some b -> a ≠ b ->
  blocks !! i = Some key -> blocks !! j = Some key ->
  entry (batch_cosine_similarity l2_norm embeddings embeddings) i j = Ok s ->
  (sim_threshold ≤ s)%Qc ->
  deduplicate_items l2_norm item_ids embeddings sim_threshold (Some blocks)
  = Ok res ->
  exists cid items, (cid, items) ∈ res ∧ a ∈ items ∧ b ∈ items.
Proof.
  intros Hij Ha Hb Hab Hki Hkj Hs Hthr.
  unfold deduplicate_items, cluster_partition.
  destruct (init_loop_total (fun _ : Z => tt) item_ids)
    as (uf0 & -> & Hwf0 & _ & _). simpl.
  destruct blocks as [|b0 blocks0]; [done|].
  set (groups := block_groups item_ids (b0 :: blocks0)).
  destruct (rfold (block_step l2_norm embeddings sim_threshold)
              (PyDict.values groups) uf0) as [uf1|e] eqn:Hloop; simpl; [|done].
  destruct (block_groups_member item_ids (b0 :: blocks0) i a key Ha Hki)
    as (items & Hitems & Hia).
  destruct (block_groups_member item_ids (b0 :: blocks0) j b key Hb Hkj)
    as (items' & Hitems' & Hjb).
  assert (NoDup (PyDict.keys groups)) as Hnd.
  { unfold groups, block_groups.
    apply (fold_left_invariant
             (fun g : list (string * list (nat * Z)) => NoDup (PyDict.keys g)));
      [|apply NoDup_nil_2].
    intros g x _ Hg. by apply dd_append_keys_NoDup. }
  pose proof (elem_get_NoDup _ _ _ Hnd Hitems) as Hg.
  pose proof (elem_get_NoDup _ _ _ Hnd Hitems') as Hg'.
  fold groups in Hitems. rewrite Hg in Hg'. injection Hg' as <-.
  assert (items ∈ PyDict.values groups) as Hin.
  { apply list_elem_of_fmap. by exists (key, items). }
  assert (wf uf1) as Hwf1.
  { revert Hloop. apply (rfold_invariant wf); [|done].
    intros u its u' _ Hu Hstep.
    by destruct (block_step_keeps _ _ _ _ _ Hu Hstep). }
  assert (same_class uf1 a b) as Hsame.
  { revert Hloop. apply (rfold_established wf (fun u => same_class u a b)
                           _ _ items); [done| | | |done].
    - intros u its u' _ Hu Hstep.
      by destruct (block_step_keeps _ _ _ _ _ Hu Hstep).
    - intros u its u' _ Hu Hq Hstep.
      destruct (block_step_keeps _ _ _ _ _ Hu Hstep) as [_ Hkeep].
      by apply Hkeep.
    - intros u u' Hu Hstep.
      by apply (block_step_joins embeddings sim_threshold u items u' i j a b s). }
  destruct (get_clusters uf1) as [[uf2 cl]|e] eqn:Hcl; simpl; [|done].
  intros [= <-]. by apply (same_class_clustered uf1 a b uf2 cl).
Qed.
End BlockedPairs.

Lemma similar_pair_in_block_clustered_witness :
  exists cid items,
    (cid, items) ∈ [(10%Z, [10; 11]%Z); (20%Z, [20; 21]%Z)]
    ∧ 20%Z ∈ items ∧ 21%Z ∈ items.
Proof.
  eapply (similar_pair_in_block_clustered Examples.sample_norm
            Examples.test_item_ids Examples.test_embeddings (Q2Qc (95 # 100))
            ["x"; "x"; "y"; "y"; "z"] 2 3 20 21 "y").
  - lia.
  - reflexivity.
  - reflexivity.
  - done.
  - reflexivity.
  - reflexivity.
  - vm_compute. reflexivity.
  - apply (bool_decide_unpack _). vm_compute. reflexivity.
  - vm_compute. reflexivity.
Defined.

(** ** Order under score normalization *)

Section NormalizeOrder.
Import Utils Hybrid.
Local Open Scope Qc_scope.

Lemma fold_min_in (l : list Qc) (x : Qc) : fold_left Qc_min2 l x ∈ x :: l.
Proof.
  revert x. induction l as [|y l IH]; intros x; simpl; [left|].
  specialize (IH (Qc_min2 x y)). unfold Qc_min2 in *.
  destruct (Qc_ltb y x); apply elem_of_cons in IH as [->|IH];
    rewrite ?elem_of_cons; auto.
Qed.

Lemma fold_max_in (l : list Qc) (x : Qc) : fold_left Qc_max2 l x ∈ x :: l.
Proof.
  revert x. induction l as [|y l IH]; intros x; simpl; [left|].
  specialize (IH (Qc_max2 x y)). unfold Qc_max2 in *.
  destruct (Qc_ltb x y); apply elem_of_cons in IH as [->|IH];
    rewrite ?elem_of_cons; auto.
Qed.

Lemma normalized_in_mono (l : list Qc) (s t : Qc) :
  s ≤ t -> normalized_in l s ≤ normalized_in l t.
Proof.
  intros Hst. unfold normalized_in.
  destruct (Qc_ltb (list_max l - list_min l) eps) eqn:Hspread;
    [apply Qcle_refl|].
  apply Qc_ltb_false in Hspread. unfold Qcdiv.
  apply Qcmult_le_compat_r.
  - unfold Qcminus. by apply Qcplus_le_mono_r.
  - apply Qclt_le_weak, Qcinv_pos.
    eapply Qclt_le_trans; [apply eps_pos|done].
Qed.

(** X30. [min_max_normalize] keeps the order of the scores: a score that
    is not larger than another is not larger after normalization. When
    the scores are spread by at least the guard constant, the smallest
    becomes 0 and the largest 1. *)
Theorem min_max_normalize_keeps_order
    (scores : list Qc) (i j : nat) (s t : Qc) :
  scores !! i = Some s -> scores !! j = Some t -> s ≤ t ->
  (exists s' t',
     min_max_normalize scores !! i = Some s'
     ∧ min_max_normalize scores !! j = Some t'
     ∧ s' ≤ t')
  ∧ (eps ≤ list_max scores - list_min scores ->
     0 ∈ min_max_normalize scores ∧ 1 ∈ min_max_normalize scores).
Proof.
  intros Hi Hj Hst. rewrite min_max_normalize_map. split.
  - exists (normalized_in scores s), (normalized_in scores t).
    rewrite !list_lookup_fmap, Hi, Hj. split_and!; [done|done|].
    by apply normalized_in_mono.
  - intros Hspread.
    assert (Qc_ltb (list_max scores - list_min scores) eps = false) as Hguard
      by (by apply Qc_ltb_false).
    assert (list_min scores ∈ scores ∧ list_max scores ∈ scores) as [Hmin Hmax].
    { destruct scores as [|x l]; [done|]. simpl.
      split; [apply fold_min_in|apply fold_max_in]. }
    split.
    + apply list_elem_of_fmap. exists (list_min scores). split; [|done].
      unfold normalized_in. rewrite Hguard. unfold Qcdiv.
      replace (list_min scores - list_min scores) with 0 by ring.
      by rewrite Qcmult_0_l.
    + apply list_elem_of_fmap. exists (list_max scores). split; [|done].
      unfold normalized_in. rewrite Hguard. unfold Qcdiv.
      rewrite Qcmult_inv_r; [done|]. intros H0. rewrite H0 in Hspread.
      apply (Qcle_not_lt _ _ Hspread). apply eps_pos.
Qed.

Lemma min_max_normalize_keeps_order_witness :
  (exists s' t',
     min_max_normalize [Qc_of_Z 10; Qc_of_Z 5; Qc_of_Z 2] !! 2%nat = Some s'
     ∧ min_max_normalize [Qc_of_Z 10; Qc_of_Z 5; Qc_of_Z 2] !! 0%nat = Some t'
     ∧ s' ≤ t')
  ∧ (eps ≤ list_max [Qc_of_Z 10; Qc_of_Z 5; Qc_of_Z 2]
           - list_min [Qc_of_Z 10; Qc_of_Z 5; Qc_of_Z 2] ->
     0 ∈ min_max_normalize [Qc_of_Z 10; Qc_of_Z 5; Qc_of_Z 2]
     ∧ 1 ∈ min_max_normalize [Qc_of_Z 10; Qc_of_Z 5; Qc_of_Z 2]).
Proof.
  apply (min_max_normalize_keeps_order
           [Qc_of_Z 10; Qc_of_Z 5; Qc_of_Z 2] 2 0 (Qc_of_Z 2) (Qc_of_Z 10)).
  - reflexivity.
  - reflexivity.
  - apply (bool_decide_unpack _). vm_compute. reflexivity.
Defined.
End NormalizeOrder.
